(** * Automation 4 Lua scripting engine (aegisub/src/auto4_lua.cpp)

    A shallow embedding of the host/script boundary of [auto4_lua.cpp]:
    the Lua stack discipline the file relies on, the feature registry
    ([LuaScript::RegisterFeature], [LuaFeature::RegisterFeature]), the
    macro and filter feature classes and the load/reload life cycle of a
    script ([LuaScript::Create], [LuaScript::Destroy]).

    The Lua 5.1 C API is modelled after its reference manual, restricted
    to the calls the file makes, and the functions of [wxString] and
    [wxStringTokenizer] after the documentation of wxWidgets, restricted to
    patterns and delimiters of one character.  Metatables, coroutines and
    the garbage collector are not represented.  Of the functions that
    serve scripts while they run, [LuaModuleLoader], [LuaFrameFromMs],
    [LuaMsFromFrame], [LuaVideoSize] and [LuaInclude] are modelled where
    they stand alone; [LuaTextExtents], which rests on the conversion of
    style tables in auto4_lua_assfile.cpp, appears by name only. *)

From Stdlib Require Import ZArith QArith.QArith_base Lia.
From stdpp Require Import base list sorting strings pretty.

Local Open Scope Z_scope.

(** ** C integers *)

(** Two's-complement reduction of [z] to a signed integer of [bits] bits. *)
Definition wrap (bits z : Z) : Z :=
  (z + 2 ^ (bits - 1)) `mod` 2 ^ bits - 2 ^ (bits - 1).

(** [int] is 32 bits wide. *)
Definition to_int (z : Z) : Z := wrap 32 z.

Definition INT_MIN : Z := - 2 ^ 31.
Definition INT_MAX : Z := 2 ^ 31 - 1.

Definition int_range (z : Z) : Prop := INT_MIN <= z <= INT_MAX.

(** [lua_Integer] is [ptrdiff_t]; 64 bits on the LP64 targets. *)
Definition to_lua_Integer (z : Z) : Z := wrap 64 z.

(** ** Lua values *)

(** [lua_Number] is [double].  A finite double is the rational it denotes;
    infinities and NaN are not represented. *)
Definition lua_Number : Type := Q.

(** The C functions this file hands to Lua. *)
Inductive lua_CFunction : Type :=
  | C_luaopen_base | C_luaopen_package | C_luaopen_string | C_luaopen_table
  | C_luaopen_math | C_luaopen_io | C_luaopen_os
  | C_LuaInclude | C_LuaModuleLoader
  | C_LuaFeatureMacro_LuaRegister | C_LuaFeatureFilter_LuaRegister
  | C_LuaTextExtents | C_LuaFrameFromMs | C_LuaMsFromFrame | C_LuaVideoSize
  (* a function of the Lua libraries, by its global name *)
  | C_builtin (name : string).

(** A function value: a C function, a closure of the script (named by a
    number), or the compiled main chunk that [lua_load] leaves on the
    stack. *)
Inductive fn_id : Type :=
  | CFn (f : lua_CFunction)
  | LuaFn (n : nat)
  | MainChunk.

(** Tables and full userdata are references ([r], [u]) into the state. *)
Inductive lua_value : Type :=
  | LNil
  | LBoolean (b : bool)
  | LNumber (n : lua_Number)
  | LString (s : string)
  | LTable (r : nat)
  | LFunction (f : fn_id)
  | LUserdata (u : nat)
  | LLightUserdata (p : nat).

#[global] Instance lua_CFunction_eq_dec : EqDecision lua_CFunction.
Proof. solve_decision. Defined.

#[global] Instance fn_id_eq_dec : EqDecision fn_id.
Proof. solve_decision. Defined.

(** [lua_rawequal]: primitive equality, numbers compared by value. *)
Definition lua_rawequal (a b : lua_value) : bool :=
  match a, b with
  | LNil, LNil => true
  | LBoolean x, LBoolean y => bool_decide (x = y)
  | LNumber x, LNumber y => Qeq_bool x y
  | LString x, LString y => bool_decide (x = y)
  | LTable x, LTable y => bool_decide (x = y)
  | LFunction x, LFunction y => bool_decide (x = y)
  | LUserdata x, LUserdata y => bool_decide (x = y)
  | LLightUserdata x, LLightUserdata y => bool_decide (x = y)
  | _, _ => false
  end.

(** [(lua_Number)n] for an integer [n]. *)
Definition cast_num (n : Z) : lua_Number := inject_Z n.

(** [lua_number2integer]: the C conversion [(lua_Integer)d], which drops the
    fractional part. *)
Definition lua_number2integer (d : lua_Number) : Z :=
  to_lua_Integer (Qnum d ÷ Zpos (Qden d)).

(** ** Tables *)

(** A table is the list of its (key, value) pairs, in the order in which
    [lua_next] enumerates them.  That order is not specified by Lua, so
    the results below that read a table hold for every arrangement of the
    pairs. *)
Abbreviation lua_table := (list (lua_value * lua_value)).

Definition key_is (k : lua_value) (kv : lua_value * lua_value) : bool :=
  lua_rawequal kv.1 k.

Fixpoint luaH_get (t : lua_table) (k : lua_value) : lua_value :=
  match t with
  | [] => LNil
  | kv :: t' => if key_is k kv then kv.2 else luaH_get t' k
  end.

Fixpoint luaH_mem (t : lua_table) (k : lua_value) : bool :=
  match t with
  | [] => false
  | kv :: t' => key_is k kv || luaH_mem t' k
  end.

Fixpoint luaH_remove (t : lua_table) (k : lua_value) : lua_table :=
  match t with
  | [] => []
  | kv :: t' => if key_is k kv then luaH_remove t' k else kv :: luaH_remove t' k
  end.

Fixpoint luaH_replace (t : lua_table) (k v : lua_value) : lua_table :=
  match t with
  | [] => []
  | kv :: t' =>
      if key_is k kv then (kv.1, v) :: t' else kv :: luaH_replace t' k v
  end.

(** Raw assignment [t[k] = v]; assigning nil removes the key. *)
Definition luaH_set (t : lua_table) (k v : lua_value) : lua_table :=
  match v with
  | LNil => luaH_remove t k
  | _ => if luaH_mem t k then luaH_replace t k v else t ++ [(k, v)]
  end.

(** The pair that follows key [k] in the traversal; [None] when [k] is not
    a key of the table. *)
Fixpoint luaH_after (t : lua_table) (k : lua_value)
  : option (option (lua_value * lua_value)) :=
  match t with
  | [] => None
  | kv :: t' => if key_is k kv then Some (head t') else luaH_after t' k
  end.

(** [luaH_next]: a nil key starts the traversal. *)
Definition luaH_next (t : lua_table) (k : lua_value)
  : option (option (lua_value * lua_value)) :=
  match k with
  | LNil => Some (head t)
  | _ => luaH_after t k
  end.

(** ** The Lua state *)

Record lua_State : Type := mk_lua_State {
  stack : list lua_value;   (* the current frame, bottom first *)
  heap : list lua_table     (* the tables, by reference *)
}.

Definition LUA_REGISTRYINDEX : Z := -10000.
Definition LUA_GLOBALSINDEX : Z := -10002.

(** The registry and the table of globals are the first two tables. *)
Definition registry_ref : nat := 0%nat.
Definition globals_ref : nat := 1%nat.

Definition LUA_ERRRUN : Z := 2.

(** [lua_open] *)
Definition lua_open : lua_State := mk_lua_State [] [[]; []].

Definition set_stack (L : lua_State) (s : list lua_value) : lua_State :=
  mk_lua_State s (heap L).

Definition set_heap (L : lua_State) (h : list lua_table) : lua_State :=
  mk_lua_State (stack L) h.

Definition lua_gettop (L : lua_State) : Z := Z.of_nat (length (stack L)).

(** Position of an acceptable stack index in [stack L]. *)
Definition stack_pos (L : lua_State) (idx : Z) : option nat :=
  if 0 <? idx then Some (Z.to_nat (idx - 1))
  else if (0 <=? lua_gettop L + idx) && (idx <? 0)
       then Some (Z.to_nat (lua_gettop L + idx))
       else None.

(** [index2adr]: [None] stands for an index that holds no value
    ([LUA_TNONE]). *)
Definition index2adr (L : lua_State) (idx : Z) : option lua_value :=
  if idx =? LUA_REGISTRYINDEX then Some (LTable registry_ref)
  else if idx =? LUA_GLOBALSINDEX then Some (LTable globals_ref)
  else p ← stack_pos L idx; stack L !! p.

Definition value_at (L : lua_State) (idx : Z) : lua_value :=
  default LNil (index2adr L idx).

Definition table_at (L : lua_State) (r : nat) : lua_table :=
  default [] (heap L !! r).

Definition push (v : lua_value) (L : lua_State) : lua_State :=
  set_stack L (stack L ++ [v]).

Definition lua_pushnil : lua_State → lua_State := push LNil.
Definition lua_pushinteger (L : lua_State) (n : Z) : lua_State :=
  push (LNumber (cast_num n)) L.
Definition lua_pushstring (L : lua_State) (s : string) : lua_State :=
  push (LString s) L.
Definition lua_pushcfunction (L : lua_State) (f : lua_CFunction) : lua_State :=
  push (LFunction (CFn f)) L.
Definition lua_pushlightuserdata (L : lua_State) (p : nat) : lua_State :=
  push (LLightUserdata p) L.
Definition lua_pushvalue (L : lua_State) (idx : Z) : lua_State :=
  push (value_at L idx) L.

(** [lua_pop(L, n)] *)
Definition lua_pop (L : lua_State) (n : Z) : lua_State :=
  set_stack L (take (length (stack L) - Z.to_nat n)%nat (stack L)).

(** [lua_remove(L, idx)] *)
Definition lua_remove (L : lua_State) (idx : Z) : lua_State :=
  match stack_pos L idx with
  | Some p => set_stack L (delete p (stack L))
  | None => L
  end.

(** [lua_newtable] *)
Definition lua_newtable (L : lua_State) : lua_State :=
  mk_lua_State (stack L ++ [LTable (length (heap L))]) (heap L ++ [[]]).

(** Raw store into the table at [idx]; the caller pops the operands. *)
Definition rawset_at (L : lua_State) (idx : Z) (k v : lua_value) : lua_State :=
  match value_at L idx with
  | LTable r => set_heap L (<[r := luaH_set (table_at L r) k v]> (heap L))
  | _ => L
  end.

Definition rawget_at (L : lua_State) (idx : Z) (k : lua_value) : lua_value :=
  match value_at L idx with
  | LTable r => luaH_get (table_at L r) k
  | _ => LNil
  end.

(** [lua_rawseti(L, idx, n)]: [t[n] = v] for the value [v] on top, which is
    popped. *)
Definition lua_rawseti (L : lua_State) (idx : Z) (n : Z) : lua_State :=
  lua_pop (rawset_at L idx (LNumber (cast_num n)) (value_at L (-1))) 1.

(** [lua_rawgeti(L, idx, n)] *)
Definition lua_rawgeti (L : lua_State) (idx : Z) (n : Z) : lua_State :=
  push (rawget_at L idx (LNumber (cast_num n))) L.

(** [lua_getfield(L, idx, k)], on tables without metatables. *)
Definition lua_getfield (L : lua_State) (idx : Z) (k : string) : lua_State :=
  push (rawget_at L idx (LString k)) L.

(** [lua_setfield(L, idx, k)]: [t[k] = v] for the value [v] on top, popped. *)
Definition lua_setfield (L : lua_State) (idx : Z) (k : string) : lua_State :=
  lua_pop (rawset_at L idx (LString k) (value_at L (-1))) 1.

(** [lua_settable(L, idx)]: [t[k] = v], value on top and key below it. *)
Definition lua_settable (L : lua_State) (idx : Z) : lua_State :=
  lua_pop (rawset_at L idx (value_at L (-2)) (value_at L (-1))) 2.

Definition lua_getglobal (L : lua_State) (k : string) : lua_State :=
  lua_getfield L LUA_GLOBALSINDEX k.
Definition lua_setglobal (L : lua_State) (k : string) : lua_State :=
  lua_setfield L LUA_GLOBALSINDEX k.

Definition lua_isfunction (L : lua_State) (idx : Z) : bool :=
  match index2adr L idx with Some (LFunction _) => true | _ => false end.
Definition lua_istable (L : lua_State) (idx : Z) : bool :=
  match index2adr L idx with Some (LTable _) => true | _ => false end.
(** [lua_toboolean]: everything but nil and false is true. *)
Definition lua_toboolean (L : lua_State) (idx : Z) : bool :=
  match index2adr L idx with
  | None | Some LNil | Some (LBoolean false) => false
  | _ => true
  end.

(** [lua_touserdata] *)
Definition lua_touserdata (L : lua_State) (idx : Z) : option nat :=
  match index2adr L idx with
  | Some (LUserdata u) => Some u
  | Some (LLightUserdata p) => Some p
  | _ => None
  end.

(** [luaL_typename] *)
Definition lua_typename (v : lua_value) : string :=
  match v with
  | LNil => "nil"
  | LBoolean _ => "boolean"
  | LNumber _ => "number"
  | LString _ => "string"
  | LTable _ => "table"
  | LFunction _ => "function"
  | LUserdata _ | LLightUserdata _ => "userdata"
  end.

(** ** What the file takes from its surroundings *)

(** Outcome of calling a function value of the script: its results or the
    error value it raised, and the tables as the call left them. *)
Inductive call_result : Type :=
  | Returned (results : list lua_value) (h : list lua_table)
  | Errored (e : lua_value) (h : list lua_table).

(** The parts of Lua and of the host application that this file calls but
    does not define. *)
Class Collaborators : Type := {
  (** Lua's conversion of a string to a number ([luaO_str2d]). *)
  luaO_str2d : string → option lua_Number;
  (** Lua's conversion of a number to a string ([lua_number2str]). *)
  lua_number2str : lua_Number → string;
  (** The script's functions: the results, or the error, of a call of the
      function [f] on [args], and what the call does to the tables.  Calls
      that such a function makes back into the host are not represented. *)
  call_function : fn_id → list lua_value → list lua_table → call_result;
  (** [Script::GetPrettyFilename], as a function of the file name. *)
  PrettyFilename : string → string;
  (** The directories of the option Path/Automation/Include that exist,
      decoded, as UTF-8 long paths. *)
  include_dirs : list string;
  (** [LUA_PATH_DEFAULT], the initial value of [package.path]. *)
  LUA_PATH_DEFAULT : string
}.

(** ** Scripts *)

(** The main chunk of a script, as the host sees it run: it assigns
    globals, calls function values (among them the ones the host put into
    the [aegisub] table), may protect a part of itself with [pcall], and
    ends by returning or by raising an error. *)
Inductive chunk : Type :=
  | ChunkReturn
  | ChunkError (e : lua_value)
  | ChunkSetGlobal (name : string) (v : lua_value) (k : chunk)
  | ChunkCall (f : lua_value) (args : list lua_value)
              (k : list lua_value → chunk)
  | ChunkPCall (body : chunk) (k : bool → chunk).

(** What [lua_load] finds in the script file. *)
Inductive script_file : Type :=
  | ParseError (msg : string)
  | Parsed (c : chunk).

(** ** Host objects *)

(** Modelled from the spec: the class LuaAssFile (auto4_lua_assfile.cpp) is
    not part of this file.  Its constructor wraps a document for script
    access under fixed modify/undo permissions and leaves the wrapper on
    the stack as a userdata; [ProcessingComplete] invalidates it. *)
Record LuaAssFile : Type := mk_LuaAssFile {
  laf_subs : nat;
  can_modify : bool;
  can_set_undo : bool;
  laf_complete : bool
}.

Record LuaFeatureMacro : Type := mk_LuaFeatureMacro {
  macro_name : string;
  macro_description : string;
  no_validate : bool;
  macro_myid : Z
}.

Record LuaFeatureFilter : Type := mk_LuaFeatureFilter {
  filter_name : string;
  filter_description : string;
  filter_merit : Z;
  has_config : bool;
  (** The values of the configuration dialog, when one has been built. *)
  config_dialog : option lua_table;
  filter_myid : Z
}.

Inductive Feature : Type :=
  | FeatureMacro (m : LuaFeatureMacro)
  | FeatureFilter (f : LuaFeatureFilter).

Definition feature_myid (f : Feature) : Z :=
  match f with
  | FeatureMacro m => macro_myid m
  | FeatureFilter f => filter_myid f
  end.

Definition set_myid (id : Z) (f : Feature) : Feature :=
  match f with
  | FeatureMacro m =>
      FeatureMacro (mk_LuaFeatureMacro (macro_name m) (macro_description m)
                      (no_validate m) id)
  | FeatureFilter f =>
      FeatureFilter (mk_LuaFeatureFilter (filter_name f) (filter_description f)
                       (filter_merit f) (has_config f) (config_dialog f) id)
  end.

(** What the code running inside a live script session can reach: the Lua
    state, the owning script's [features] vector, the document wrappers
    and the application log. *)
Record Machine : Type := mk_Machine {
  m_lua : lua_State;
  m_features : list Feature;
  m_assfiles : list LuaAssFile;
  m_log : list string;
  m_main : chunk            (* the code of the function [MainChunk] *)
}.

Definition set_lua (m : Machine) (L : lua_State) : Machine :=
  mk_Machine L (m_features m) (m_assfiles m) (m_log m) (m_main m).
Definition set_features (m : Machine) (fs : list Feature) : Machine :=
  mk_Machine (m_lua m) fs (m_assfiles m) (m_log m) (m_main m).
Definition set_assfiles (m : Machine) (a : list LuaAssFile) : Machine :=
  mk_Machine (m_lua m) (m_features m) a (m_log m) (m_main m).
Definition set_main (m : Machine) (c : chunk) : Machine :=
  mk_Machine (m_lua m) (m_features m) (m_assfiles m) (m_log m) c.
Definition wxLog (s : string) (m : Machine) : Machine :=
  mk_Machine (m_lua m) (m_features m) (m_assfiles m) (m_log m ++ [s]) (m_main m).

(** ** Code that may raise a Lua error *)

(** A computation either finishes with a value or leaves through
    [lua_error] with the error value; both carry the machine they reached. *)
Inductive Result (A : Type) : Type :=
  | Ok (a : A) (m : Machine)
  | Raise (e : lua_value) (m : Machine).
Arguments Ok {A} a m.
Arguments Raise {A} e m.

Definition M (A : Type) : Type := Machine → Result A.

Definition ret {A} (a : A) : M A := λ m, Ok a m.

Definition bind {A B} (c : M A) (k : A → M B) : M B :=
  λ m, match c m with
       | Ok a m' => k a m'
       | Raise e m' => Raise e m'
       end.

Declare Scope lua_scope.
Delimit Scope lua_scope with lua.
Notation "x <- c ; k" := (bind c (λ x, k))
  (at level 20, c at level 100, k at level 200, only parsing) : lua_scope.
Notation "c ;; k" := (bind c (λ _, k))
  (at level 100, k at level 200, only parsing, right associativity) : lua_scope.
Local Open Scope lua_scope.

(** A Lua API call that cannot fail. *)
Definition api (f : lua_State → lua_State) (m : Machine) : Machine :=
  set_lua m (f (m_lua m)).

Definition lua (f : lua_State → lua_State) : M unit :=
  λ m, Ok tt (api f m).

(** Reading the Lua state. *)
Definition ask {A} (f : lua_State → A) : M A :=
  λ m, Ok (f (m_lua m)) m.

(** [lua_error]: raises the value on top of the stack. *)
Definition lua_error {A} : M A :=
  λ m, Raise (value_at (m_lua m) (-1)) m.

Definition nl : string := String (Ascii.ascii_of_nat 10) EmptyString.

(** [wxString(p, wxConvUTF8)] for a possibly null [p]. *)
Definition wxString (p : option string) : string := default "" p.

(** How a loop that needs fuel ends. *)
Inductive outcome (A : Type) : Type :=
  | Finished (a : A)
  | LuaPanic            (* a Lua error outside any protected call *)
  | OutOfFuel.
Arguments Finished {A} a.
Arguments LuaPanic {A}.
Arguments OutOfFuel {A}.

Section Engine.
Context `{Collaborators}.

(** ** Conversions that depend on Lua's number syntax *)

(** [luaV_tonumber]: numbers, and strings that read as numbers. *)
Definition luaV_tonumber (v : lua_value) : option lua_Number :=
  match v with
  | LNumber n => Some n
  | LString s => luaO_str2d s
  | _ => None
  end.

Definition lua_isnumber (L : lua_State) (idx : Z) : bool :=
  match index2adr L idx ≫= luaV_tonumber with Some _ => true | None => false end.

Definition lua_tointeger (L : lua_State) (idx : Z) : Z :=
  match index2adr L idx ≫= luaV_tonumber with
  | Some n => lua_number2integer n
  | None => 0
  end.

Definition lua_isstring (L : lua_State) (idx : Z) : bool :=
  match index2adr L idx with
  | Some (LString _) | Some (LNumber _) => true
  | _ => false
  end.

(** [lua_tostring]: a number is converted to a string in its stack slot;
    values that are neither give a null pointer. *)
Definition lua_tostring (L : lua_State) (idx : Z) : option string * lua_State :=
  match index2adr L idx with
  | Some (LString s) => (Some s, L)
  | Some (LNumber n) =>
      let s := lua_number2str n in
      (Some s, match stack_pos L idx with
               | Some p => set_stack L (<[p := LString s]> (stack L))
               | None => L
               end)
  | _ => (None, L)
  end.

Definition tostring (idx : Z) : M (option string) :=
  λ m, let '(s, L) := lua_tostring (m_lua m) idx in Ok s (set_lua m L).

(** [get_global_string] *)
Definition get_global_string (L : lua_State) (name : string)
  : string * lua_State :=
  let L := lua_getglobal L name in
  let '(ret, L) :=
    if lua_isstring L (-1)
    then let '(p, L) := lua_tostring L (-1) in (wxString p, L)
    else (""%string, L) in
  (ret, lua_pop L 1).

(** ** LuaScript::RegisterFeature *)

(** [features.push_back(feature); return features.size() - 1;] *)
Definition LuaScript_RegisterFeature (feature : Feature) : M Z :=
  λ m, let fs := m_features m ++ [feature] in
       Ok (to_int (Z.of_nat (length fs) - 1)) (set_features m fs).

(** ** LuaFeature *)

(** The vector holds a pointer to the feature under construction, so the
    assignment [myid = ...] is seen through its last element. *)
Definition this_set_myid (id : Z) : M unit :=
  λ m, Ok tt (set_features m
                (alter (set_myid id) (length (m_features m) - 1)%nat
                   (m_features m))).

(** [LuaFeature::RegisterFeature]; the table with the feature's functions is
    on top of the stack. *)
Definition LuaFeature_RegisterFeature (this : Feature) : M unit :=
  lua (λ L, lua_getfield L LUA_REGISTRYINDEX "aegisub");;
  _ <- ask (λ L, lua_touserdata L (-1));
  lua (λ L, lua_pop L 1);;
  myid <- LuaScript_RegisterFeature this;
  this_set_myid myid;;
  lua (λ L, lua_getfield L LUA_REGISTRYINDEX "features");;
  lua (λ L, lua_pushvalue L (-2));;
  lua (λ L, lua_rawseti L (-2) myid);;
  lua (λ L, lua_pop L 1).

(** [LuaFeature::GetFeatureFunction] *)
Definition GetFeatureFunction (myid functionid : Z) (L : lua_State) : lua_State :=
  let L := lua_getfield L LUA_REGISTRYINDEX "features" in
  let L := lua_rawgeti L (-1) myid in
  let L := lua_rawgeti L (-1) functionid in
  let L := lua_remove L (-2) in
  lua_remove L (-2).

(** The loop of [LuaFeature::CreateIntegerArray], from position [i] on. *)
Fixpoint CreateIntegerArray_from (i : nat) (ints : list Z) (L : lua_State)
  : lua_State :=
  match ints with
  | [] => L
  | x :: ints' =>
      let L := lua_pushinteger L (to_int (x + 1)) in
      let L := lua_rawseti L (-2) (to_int (to_int (Z.of_nat i) + 1)) in
      CreateIntegerArray_from (S i) ints' L
  end.

(** [LuaFeature::CreateIntegerArray] *)
Definition CreateIntegerArray (ints : list Z) (L : lua_State) : lua_State :=
  CreateIntegerArray_from 0 ints (lua_newtable L).

(** ** LuaAssFile *)

(** Modelled from the spec: [new LuaAssFile(L, subs, can_modify,
    can_set_undo)] records the permissions and pushes the wrapper. *)
Definition LuaAssFile_new (subs : nat) (modify undo : bool) (m : Machine)
  : nat * Machine :=
  let u := length (m_assfiles m) in
  (u, api (push (LUserdata u))
        (set_assfiles m (m_assfiles m ++ [mk_LuaAssFile subs modify undo false]))).

(** Modelled from the spec: [ProcessingComplete] invalidates the wrapper. *)
Definition ProcessingComplete (u : nat) (m : Machine) : Machine :=
  set_assfiles m
    (alter (λ a, mk_LuaAssFile (laf_subs a) (can_modify a) (can_set_undo a) true)
       u (m_assfiles m)).

(** ** LuaFeatureMacro: registration *)

(** The constructor [LuaFeatureMacro::LuaFeatureMacro]; the arguments of
    [aegisub.register_macro] are the frame. *)
Definition LuaFeatureMacro_new (_name _description : string) : M unit :=
  lua lua_newtable;;
  is_fn <- ask (λ L, lua_isfunction L 3);
  (if is_fn then ret tt
   else lua (λ L, lua_pushstring L
                    "The macro processing function must be a function");;
        lua_error);;
  lua (λ L, lua_pushvalue L 3);;
  lua (λ L, lua_rawseti L (-2) 1);;
  lua (λ L, lua_pushvalue L 4);;
  no_validate <- ask (λ L, negb (lua_isfunction L (-1)));
  lua (λ L, lua_rawseti L (-2) 2);;
  LuaFeature_RegisterFeature
    (FeatureMacro (mk_LuaFeatureMacro _name _description no_validate 0));;
  lua (λ L, lua_pop L 1).

(** [LuaFeatureMacro::LuaRegister] *)
Definition LuaFeatureMacro_LuaRegister : M Z :=
  _name <- tostring 1;
  _description <- tostring 2;
  LuaFeatureMacro_new (wxString _name) (wxString _description);;
  ret 0.

(** ** LuaFeatureFilter: registration *)

(** The constructor [LuaFeatureFilter::LuaFeatureFilter]. *)
Definition LuaFeatureFilter_new (_name _description : string) (merit : Z)
  : M unit :=
  lua lua_newtable;;
  is_fn <- ask (λ L, lua_isfunction L 4);
  (if is_fn then ret tt
   else lua (λ L, lua_pushstring L
                    "The filter processing function must be a function");;
        lua_error);;
  lua (λ L, lua_pushvalue L 4);;
  lua (λ L, lua_rawseti L (-2) 1);;
  lua (λ L, lua_pushvalue L 5);;
  has_config <- ask (λ L, lua_isfunction L (-1));
  lua (λ L, lua_rawseti L (-2) 2);;
  LuaFeature_RegisterFeature
    (FeatureFilter
       (mk_LuaFeatureFilter _name _description merit has_config None 0));;
  lua (λ L, lua_pop L 1).

(** [LuaFeatureFilter::LuaRegister] *)
Definition LuaFeatureFilter_LuaRegister : M Z :=
  _name <- tostring 1;
  _description <- tostring 2;
  _merit <- ask (λ L, to_int (lua_tointeger L 3));
  LuaFeatureFilter_new (wxString _name) (wxString _description) _merit;;
  ret 0.

(** ** Calling function values *)

(** A C function runs on a frame of its own that holds its arguments; on
    normal return the caller's frame is current again. *)
Definition with_frame {A} (args : list lua_value) (body : M A) : M A :=
  λ m, match body (api (λ L, set_stack L args) m) with
       | Ok a m' => Ok a (api (λ L, set_stack L (stack (m_lua m))) m')
       | Raise e m' => Raise e m'
       end.

(** The call [f(args)].  The two registration functions run the code
    above; every other function is the script's, or a library's, and is
    described by [call_function]. *)
Definition call_value (f : lua_value) (args : list lua_value)
  : M (list lua_value) :=
  match f with
  | LFunction (CFn C_LuaFeatureMacro_LuaRegister) =>
      with_frame args (LuaFeatureMacro_LuaRegister;; ret [])
  | LFunction (CFn C_LuaFeatureFilter_LuaRegister) =>
      with_frame args (LuaFeatureFilter_LuaRegister;; ret [])
  | LFunction fn =>
      λ m, match call_function fn args (heap (m_lua m)) with
           | Returned vs h => Ok vs (api (λ L, set_heap L h) m)
           | Errored e h => Raise e (api (λ L, set_heap L h) m)
           end
  | v =>
      λ m, Raise (LString ("attempt to call a " +:+ lua_typename v +:+ " value")) m
  end.

(** Running a chunk.  An error raised inside [pcall] stops there: the
    chunk goes on, with the tables as the failed part left them. *)
Fixpoint run_chunk (c : chunk) : M unit :=
  match c with
  | ChunkReturn => ret tt
  | ChunkError e => λ m, Raise e m
  | ChunkSetGlobal name v k =>
      lua (λ L, rawset_at L LUA_GLOBALSINDEX (LString name) v);;
      run_chunk k
  | ChunkCall f args k =>
      vs <- call_value f args;
      run_chunk (k vs)
  | ChunkPCall body k =>
      λ m, match run_chunk body m with
           | Ok _ m' => run_chunk (k true) m'
           | Raise _ m' =>
               run_chunk (k false) (api (λ L, set_stack L (stack (m_lua m))) m')
           end
  end.

(** The results of a call, cut or padded with nil to [nresults] values. *)
Definition adjust_results (nresults : Z) (vs : list lua_value)
  : list lua_value :=
  if nresults <? 0 then vs
  else take (Z.to_nat nresults) (vs ++ replicate (Z.to_nat nresults) LNil).

(** [lua_pcall(L, nargs, nresults, 0)]: the function and its [nargs]
    arguments are on top of the stack and are replaced by the results, or
    by the error value. *)
Definition lua_pcall (nargs nresults : Z) (m : Machine) : Z * Machine :=
  let s := stack (m_lua m) in
  let fpos := (length s - Z.to_nat nargs - 1)%nat in
  let base := take fpos s in
  let f := default LNil (s !! fpos) in
  let args := drop (S fpos) s in
  let callee : M (list lua_value) :=
    match f with
    | LFunction MainChunk => run_chunk (m_main m);; ret []
    | _ => call_value f args
    end in
  match callee (api (λ L, set_stack L base) m) with
  | Ok vs m' =>
      (0, api (λ L, set_stack L (base ++ adjust_results nresults vs)) m')
  | Raise e m' =>
      (LUA_ERRRUN, api (λ L, set_stack L (base ++ [e])) m')
  end.

(** [lua_threaded_call], run to completion; the collector pass that ends
    it has no effect here. *)
Definition lua_threaded_call (nargs nresults : Z) (m : Machine) : Machine :=
  let '(err, m) := lua_pcall nargs nresults m in
  if err =? 0 then m
  else
    let m := wxLog (nl +:+ nl +:+ "Lua reported a runtime error:" +:+ nl) m in
    let '(msg, L) := lua_tostring (m_lua m) (-1) in
    let m := wxLog (wxString msg) (set_lua m L) in
    api (λ L, lua_pop L 1) m.

(** [LuaThreadedCall]: the call is made by a background runner and the
    caller waits for it.  The user cancelling the wait is not
    represented. *)
Definition LuaThreadedCall (nargs nresults : Z) (m : Machine) : Machine :=
  lua_threaded_call nargs nresults m.

(** ** LuaFeatureMacro::Validate *)

(** What [Validate] puts on the stack before the call. *)
Definition Validate_prepare (this : LuaFeatureMacro) (subs : nat)
    (selected : list Z) (active : Z) (m : Machine) : Machine :=
  let m := api (GetFeatureFunction (macro_myid this) 2) m in
  let '(subsobj, m) := LuaAssFile_new subs false false m in
  let m := api (CreateIntegerArray selected) m in
  api (λ L, lua_pushinteger L (-1)) m.

(** [LuaFeatureMacro::Validate] *)
Definition Validate (this : LuaFeatureMacro) (subs : nat)
    (selected : list Z) (active : Z) (m : Machine) : bool * Machine :=
  if no_validate this then (true, m)
  else
    let m := Validate_prepare this subs selected active m in
    let '(err, m) := lua_pcall 3 1 m in
    let '(result, m) :=
      if negb (err =? 0) then
        let '(errmsg, L) := lua_tostring (m_lua m) (-1) in
        (false,
         wxLog ("Runtime error in Lua macro validation function:" +:+ nl
                +:+ wxString errmsg) (set_lua m L))
      else (lua_toboolean (m_lua m) (-1), m) in
    (result, api (λ L, lua_pop L 1) m).

(** ** LuaFeatureMacro::Process *)

(** [lua_next(L, idx)]: pops a key and pushes the pair that follows it in
    the table at [idx], or pushes nothing at the end of the table.  [None]
    is the error of a key that the table does not have. *)
Definition lua_next (L : lua_State) (idx : Z) : option (bool * lua_State) :=
  match value_at L idx with
  | LTable r =>
      match luaH_next (table_at L r) (value_at L (-1)) with
      | Some (Some (k, v)) => Some (true, push v (push k (lua_pop L 1)))
      | Some None => Some (false, lua_pop L 1)
      | None => None
      end
  | _ => None
  end.

(** The loop [while (lua_next(L, -2)) { ... lua_pop(L, 1); }] of [Process]. *)
Fixpoint Process_read_loop (fuel : nat) (L : lua_State) (selected : list Z)
  : outcome (lua_State * list Z) :=
  match fuel with
  | O => OutOfFuel
  | S fuel =>
      match lua_next L (-2) with
      | None => LuaPanic
      | Some (false, L) => Finished (L, selected)
      | Some (true, L) =>
          let selected :=
            if lua_isnumber L (-1)
            then selected ++ [to_int (lua_tointeger L (-1) - 1)]
            else selected in
          Process_read_loop fuel (lua_pop L 1) selected
      end
  end.

(** [std::sort] on a vector of [int]. *)
Definition std_sort (v : list Z) : list Z := merge_sort Z.le v.

(** The part of [Process] that reads the new selection back, from
    [lua_istable] to [std::sort]; [reserve] does not change the vector's
    elements and has no counterpart. *)
Definition Process_read_selection (fuel : nat) (L : lua_State)
    (selected : list Z) : outcome (lua_State * list Z) :=
  if lua_istable L (-1) then
    let selected := [] in
    let L := lua_pushnil L in
    match Process_read_loop fuel L selected with
    | Finished (L, selected) => Finished (L, std_sort selected)
    | LuaPanic => LuaPanic
    | OutOfFuel => OutOfFuel
    end
  else Finished (L, selected).

(** What [Process] puts on the stack before the call. *)
Definition Process_prepare (this : LuaFeatureMacro) (subs : nat)
    (selected : list Z) (active : Z) (m : Machine) : nat * Machine :=
  let m := api (GetFeatureFunction (macro_myid this) 1) m in
  let '(subsobj, m) := LuaAssFile_new subs true true m in
  let m := api (CreateIntegerArray selected) m in
  (subsobj, api (λ L, lua_pushinteger L (-1)) m).

(** [LuaFeatureMacro::Process]; [fuel] bounds the turns of its loop. *)
Definition Process (fuel : nat) (this : LuaFeatureMacro) (subs : nat)
    (selected : list Z) (active : Z) (m : Machine)
  : outcome (list Z * Machine) :=
  let '(subsobj, m) := Process_prepare this subs selected active m in
  let m := LuaThreadedCall 3 1 m in
  let m := ProcessingComplete subsobj m in
  match Process_read_selection fuel (m_lua m) selected with
  | Finished (L, selected) => Finished (selected, set_lua m (lua_pop L 1))
  | LuaPanic => LuaPanic
  | OutOfFuel => OutOfFuel
  end.

(** ** LuaFeatureFilter::ProcessSubs *)

(** Modelled from the spec: [LuaConfigDialog::LuaReadBack] (in
    auto4_lua_dialog.cpp) produces exactly one result value, a table of the
    dialog's values. *)
Definition LuaReadBack (values : lua_table) (L : lua_State) : lua_State :=
  mk_lua_State (stack L ++ [LTable (length (heap L))]) (heap L ++ [values]).

(** [LuaFeatureFilter::ProcessSubs]; its assertions are left out. *)
Definition ProcessSubs (this : LuaFeatureFilter) (subs : nat) (m : Machine)
  : Machine :=
  let m := api (GetFeatureFunction (filter_myid this) 1) m in
  let '(subsobj, m) := LuaAssFile_new subs true false m in
  let m :=
    match has_config this, config_dialog this with
    | true, Some values => api (LuaReadBack values) m
    | _, _ => api lua_newtable m
    end in
  let m := LuaThreadedCall 2 0 m in
  ProcessingComplete subsobj m.

(** ** LuaScript *)

(** [agi::Exception]; this file throws one kind. *)
Inductive agi_Exception : Type :=
  | ScriptLoadError (msg : string).

(** Modelled from the spec: [agi::Exception::GetChainedMessage]
    (libaegisub) gives the message of an exception that wraps no other. *)
Definition GetChainedMessage (e : agi_Exception) : string :=
  match e with ScriptLoadError msg => msg end.

Record LuaScript : Type := mk_LuaScript {
  script_addr : nat;              (* [this] *)
  filename : string;
  name : string;
  description : string;
  author : string;
  version : string;
  features : list Feature;
  L : option lua_State            (* [None] is the null pointer *)
}.

(** [LuaScript::Destroy] *)
Definition Destroy (s : LuaScript) : LuaScript :=
  match L s with
  | None => s
  | Some _ =>
      mk_LuaScript (script_addr s) (filename s) (name s) (description s)
        (author s) (version s) [] None
  end.

(** What [lua_call] of a library opener leaves behind, as far as [Create]
    touches it afterwards (Lua 5.1 manual, section 5): the base library
    defines [dofile] and [loadfile], the package library the table
    [package] with [path] and [loaders], and the other libraries a table
    each. *)
Definition luaopen (lib : lua_CFunction) (L : lua_State) : lua_State :=
  let global_table (name : string) :=
    lua_setglobal (lua_newtable L) name in
  match lib with
  | C_luaopen_base =>
      let L := lua_pushcfunction L (C_builtin "dofile") in
      let L := lua_setglobal L "dofile" in
      let L := lua_pushcfunction L (C_builtin "loadfile") in
      lua_setglobal L "loadfile"
  | C_luaopen_package =>
      let L := lua_newtable L in
      let L := lua_pushstring L LUA_PATH_DEFAULT in
      let L := lua_setfield L (-2) "path" in
      let L := lua_newtable L in
      let L := lua_pushcfunction L (C_builtin "loader_preload") in
      let L := lua_rawseti L (-2) 1 in
      let L := lua_pushcfunction L (C_builtin "loader_Lua") in
      let L := lua_rawseti L (-2) 2 in
      let L := lua_pushcfunction L (C_builtin "loader_C") in
      let L := lua_rawseti L (-2) 3 in
      let L := lua_pushcfunction L (C_builtin "loader_Croot") in
      let L := lua_rawseti L (-2) 4 in
      let L := lua_setfield L (-2) "loaders" in
      lua_setglobal L "package"
  | C_luaopen_string => global_table "string"
  | C_luaopen_table => global_table "table"
  | C_luaopen_math => global_table "math"
  | C_luaopen_io => global_table "io"
  | C_luaopen_os => global_table "os"
  | _ => L
  end.

(** [lua_gettable(L, idx)]: the key on top is replaced by [t[key]]. *)
Definition lua_gettable (L : lua_State) (idx : Z) : lua_State :=
  push (rawget_at L idx (value_at L (-1))) (lua_pop L 1).

(** [lua_concat(L, 2)] on two strings. *)
Definition lua_concat2 (L : lua_State) : lua_State :=
  match value_at L (-2), value_at L (-1) with
  | LString a, LString b => push (LString (a +:+ b)) (lua_pop L 2)
  | _, _ => L
  end.

(** The body of the loop over the include directories. *)
Definition add_include_dir (L : lua_State) (p : string) : lua_State :=
  let L := lua_pushstring L (";" +:+ p +:+ "?.lua;" +:+ p +:+ "?/init.lua") in
  lua_concat2 L.

(** [LuaScript::Create], from [lua_open] up to the point where the user
    script is loaded. *)
Definition Create_environment (this : nat) : lua_State :=
  let L := lua_open in
  (* register standard libs *)
  let L := luaopen C_luaopen_base L in
  let L := luaopen C_luaopen_package L in
  let L := luaopen C_luaopen_string L in
  let L := luaopen C_luaopen_table L in
  let L := luaopen C_luaopen_math L in
  let L := luaopen C_luaopen_io L in
  let L := luaopen C_luaopen_os L in
  (* dofile and loadfile are replaced with include *)
  let L := lua_pushnil L in
  let L := lua_setglobal L "dofile" in
  let L := lua_pushnil L in
  let L := lua_setglobal L "loadfile" in
  let L := lua_pushcfunction L C_LuaInclude in
  let L := lua_setglobal L "include" in
  (* add include_path to the module load path *)
  let L := lua_getglobal L "package" in
  let L := lua_pushstring L "path" in
  let L := lua_pushstring L "path" in
  let L := lua_gettable L (-3) in
  let L := foldl add_include_dir L include_dirs in
  let L := lua_settable L (-3) in
  (* replace the default lua module loader *)
  let L := lua_getfield L (-1) "loaders" in
  let L := lua_pushcfunction L C_LuaModuleLoader in
  let L := lua_rawseti L (-2) 2 in
  let L := lua_pop L 2 in
  (* prepare stuff in the registry *)
  let L := lua_pushlightuserdata L this in
  let L := lua_setfield L LUA_REGISTRYINDEX "aegisub" in
  let L := lua_newtable L in
  let L := lua_setfield L LUA_REGISTRYINDEX "features" in
  (* make "aegisub" table *)
  let L := lua_pushstring L "aegisub" in
  let L := lua_newtable L in
  let L := lua_setfield (lua_pushcfunction L C_LuaFeatureMacro_LuaRegister)
             (-2) "register_macro" in
  let L := lua_setfield (lua_pushcfunction L C_LuaFeatureFilter_LuaRegister)
             (-2) "register_filter" in
  let L := lua_setfield (lua_pushcfunction L C_LuaTextExtents)
             (-2) "text_extents" in
  let L := lua_setfield (lua_pushcfunction L C_LuaFrameFromMs)
             (-2) "frame_from_ms" in
  let L := lua_setfield (lua_pushcfunction L C_LuaMsFromFrame)
             (-2) "ms_from_frame" in
  let L := lua_setfield (lua_pushcfunction L C_LuaVideoSize)
             (-2) "video_size" in
  let L := lua_setfield (lua_pushinteger L 4) (-2) "lua_automation_version" in
  (* store aegisub table to globals *)
  lua_settable L LUA_GLOBALSINDEX.

Definition automation3_message : string :=
  "Attempted to load an Automation 3 script as an Automation 4 Lua script. Automation 3 is no longer supported.".

Definition quote : string := String (Ascii.ascii_of_nat 34) EmptyString.

Definition load_error_message (pretty err : string) : string :=
  "Error loading Lua script " +:+ quote +:+ pretty +:+ quote +:+ ":"
  +:+ nl +:+ nl +:+ err.

Definition init_error_message (pretty err : string) : string :=
  "Error initialising Lua script " +:+ quote +:+ pretty +:+ quote +:+ ":"
  +:+ nl +:+ nl +:+ err.

Definition save (s : LuaScript) (m : Machine) : LuaScript :=
  mk_LuaScript (script_addr s) (filename s) (name s) (description s)
    (author s) (version s) (m_features m) (Some (m_lua m)).

(** The [try] block of [LuaScript::Create]: the exception it throws, if
    any, and the script object at that point. *)
Definition Create_try (file : script_file) (s : LuaScript)
  : option agi_Exception * LuaScript :=
  let pretty := PrettyFilename (filename s) in
  let m := mk_Machine (Create_environment (script_addr s)) (features s) [] []
             ChunkReturn in
  (* load user script *)
  match file with
  | ParseError msg =>
      let m := api (λ L, lua_pushstring L msg) m in
      let '(err, L) := lua_tostring (m_lua m) (-1) in
      (Some (ScriptLoadError (load_error_message pretty (wxString err))),
       save s (set_lua m L))
  | Parsed c =>
      let m := set_main (api (push (LFunction MainChunk)) m) c in
      (* and execute it; this is where features are registered *)
      let '(status, m) := lua_pcall 0 0 m in
      if negb (status =? 0) then
        let '(err, L) := lua_tostring (m_lua m) (-1) in
        (Some (ScriptLoadError (init_error_message pretty (wxString err))),
         save s (set_lua m L))
      else
        let L := lua_getglobal (m_lua m) "version" in
        if lua_isnumber L (-1) && (lua_tointeger L (-1) =? 3) then
          let L := lua_pop L 1 in
          (Some (ScriptLoadError automation3_message), save s (set_lua m L))
        else
          let '(name, L) := get_global_string L "script_name" in
          let '(description, L) := get_global_string L "script_description" in
          let '(author, L) := get_global_string L "script_author" in
          let '(version, L) := get_global_string L "script_version" in
          let name := if bool_decide (name = ""%string) then pretty else name in
          let L := lua_pop L 1 in
          (None,
           mk_LuaScript (script_addr s) (filename s) name description author
             version (m_features m) (Some L))
  end.

(** [LuaScript::Create] *)
Definition Create (file : script_file) (s : LuaScript) : LuaScript :=
  let s := Destroy s in
  match Create_try file s with
  | (None, s) => s
  | (Some e, s) =>
      let s := Destroy s in
      mk_LuaScript (script_addr s) (filename s)
        (PrettyFilename (filename s)) (GetChainedMessage e)
        (author s) (version s) (features s) (L s)
  end.

(** [LuaScript::Reload] *)
Definition Reload (file : script_file) (s : LuaScript) : LuaScript :=
  Create file s.

(** Modelled from the spec: the base class constructor [Script::Script]
    (auto4_base.cpp) stores the file name and leaves the attributes and
    the feature list empty. *)
Definition Script_new (this : nat) (filename : string) : LuaScript :=
  mk_LuaScript this filename "" "" "" "" [] None.

(** The constructor [LuaScript::LuaScript]. *)
Definition LuaScript_new (this : nat) (filename : string) (file : script_file)
  : LuaScript :=
  Create file (Script_new this filename).

End Engine.

(** ** What the script's services take from their surroundings *)

(** The video that is open in the application ([VideoContext],
    video_context.h), as far as this file asks it; the conversions are the
    ones for [agi::vfr::START]. *)
Class VideoContext : Type := {
  TimecodesLoaded : bool;
  FrameAtTime : Z → Z;
  TimeAtFrame : Z → Z;
  IsLoaded : bool;
  GetWidth : Z;
  GetHeight : Z;
  GetAspectRatioValue : lua_Number;
  GetAspectRatioType : Z
}.

(** What [lua_load] makes of a file read through [LuaScriptReader]: the
    message of the compiler, or the compiled chunk as a function. *)
Inductive load_result : Type :=
  | LoadFailed (msg : string)
  | Loaded (f : fn_id).

(** The files and the compiler of Lua, as the module loader and [include]
    use them. *)
Class FileSystem : Type := {
  (** [wxFileName::FileExists] *)
  FileExists : string → bool;
  (** [lua_load], by the name of the file *)
  lua_load : string → load_result;
  (** [LUA_DIRSEP], one character *)
  LUA_DIRSEP : string
}.

(** Modelled from the spec: the constructor of [LuaConfigDialog]
    (auto4_lua_dialog.cpp) builds the dialog from the table on top of the
    stack.  It gives the values of the dialog and the Lua state it leaves. *)
Class Dialogs : Type := {
  LuaConfigDialog_new : lua_State → lua_table * lua_State
}.

(** Paths, as [LuaInclude] works with them: the class [wxFileName] of
    wxWidgets with the member functions that are called, the search of a
    file in the include path of a script, and the file name of a script;
    scripts are given by their address. *)
Class Paths : Type := {
  wxFileName : Type;
  (** the constructor and the assignment from a string *)
  wxFileName_new : string → wxFileName;
  GetDirCount : wxFileName → nat;
  IsRelative : wxFileName → bool;
  (** [fname.MakeAbsolute(cwd)] *)
  MakeAbsolute : wxFileName → string → wxFileName;
  (** [GetPath(true)] *)
  GetPath : wxFileName → string;
  IsOk : wxFileName → bool;
  (** the member function [FileExists] *)
  wxFileName_FileExists : wxFileName → bool;
  GetFullPath : wxFileName → string;
  GetFullName : wxFileName → string;
  (** [s->include_path.FindAbsoluteValidPath(name)] for the script at [s] *)
  FindAbsoluteValidPath : nat → string → string;
  (** [s->GetFilename()] for the script at [s] *)
  GetFilename : nat → string
}.

(** ** Strings of the host *)

Import Stdlib.Strings.Ascii.

(** [wxString::Right(n)]: the last [n] characters, or the whole string when
    it is shorter. *)
Definition Right (n : nat) (s : string) : string :=
  let l := String.list_ascii_of_string s in
  String.string_of_list_ascii (drop (length l - n) l).

(** [wxTolower] on the characters that the comparisons of this file can
    tell apart: the letters A to Z go to a to z. *)
Definition wxTolower (c : ascii) : ascii :=
  let n := nat_of_ascii c in
  if (65 <=? n)%nat && (n <=? 90)%nat then ascii_of_nat (n + 32) else c.

(** [wxString::Lower] *)
Fixpoint Lower (s : string) : string :=
  match s with
  | EmptyString => EmptyString
  | String c s' => String (wxTolower c) (Lower s')
  end.

(** [wxString::Replace(old, new)] for a pattern of one character: every
    occurrence is replaced, and the text put in is not searched again. *)
Fixpoint Replace (old : ascii) (new : string) (s : string) : string :=
  match s with
  | EmptyString => EmptyString
  | String c s' =>
      if Ascii.eqb c old then new +:+ Replace old new s'
      else String c (Replace old new s')
  end.

(** [wxStringTokenizer(s, d, wxTOKEN_STRTOK)] for one delimiter: the
    tokens are the maximal runs of other characters, in order; there is no
    empty token.  [cur] is the token being read. *)
Fixpoint StrTok_from (d : ascii) (cur : string) (s : string)
  : list string :=
  let flush := if bool_decide (cur = EmptyString) then [] else [cur] in
  match s with
  | EmptyString => flush
  | String c s' =>
      if Ascii.eqb c d then flush ++ StrTok_from d EmptyString s'
      else StrTok_from d (cur +:+ String c EmptyString) s'
  end.

Definition StrTok (d : ascii) (s : string) : list string :=
  StrTok_from d EmptyString s.

Section Services.
Context `{Collaborators} {video : VideoContext} {files : FileSystem}
  {dialogs : Dialogs} {paths : Paths}.

(** ** LuaScript::GetScriptObject *)

Definition GetScriptObject (L : lua_State) : option nat * lua_State :=
  let L := lua_getfield L LUA_REGISTRYINDEX "aegisub" in
  let ptr := lua_touserdata L (-1) in
  let L := lua_pop L 1 in
  (ptr, L).

(** ** C functions called from Lua *)

(** [call_value] leaves the calls of the functions below, which a script
    reaches through its globals, to [call_function]; the definitions here
    say what the functions do when they are called. *)

Definition lua_pushnumber (L : lua_State) (n : lua_Number) : lua_State :=
  push (LNumber n) L.

(** The call of a C function on its arguments: when the function returns
    [n], its results are the [n] values on top of its frame. *)
Definition call_C (body : M Z) (args : list lua_value) : M (list lua_value) :=
  with_frame args
    (n <- body;
     ask (λ L, drop (length (stack L) - Z.to_nat n) (stack L))).

(** [luaL_error] with a message that is already formatted; [where_] is
    what [luaL_where(L, 1)] gives, the position in the code of the caller
    when the caller is a Lua function and the empty string otherwise. *)
Definition luaL_error {A} (where_ msg : string) : M A :=
  lua (λ L, lua_pushstring L (where_ +:+ msg));;
  lua_error.

(** ** LuaScript::LuaFrameFromMs, LuaMsFromFrame, LuaVideoSize *)

Definition LuaFrameFromMs : M Z :=
  ms <- ask (λ L, to_int (lua_tointeger L (-1)));
  lua (λ L, lua_pop L 1);;
  (if TimecodesLoaded
   then lua (λ L, lua_pushnumber L (cast_num (FrameAtTime ms)))
   else lua lua_pushnil);;
  ret 1.

Definition LuaMsFromFrame : M Z :=
  frame <- ask (λ L, to_int (lua_tointeger L (-1)));
  lua (λ L, lua_pop L 1);;
  (if TimecodesLoaded
   then lua (λ L, lua_pushnumber L (cast_num (TimeAtFrame frame)))
   else lua lua_pushnil);;
  ret 1.

Definition LuaVideoSize : M Z :=
  if IsLoaded then
    lua (λ L, lua_pushnumber L (cast_num GetWidth));;
    lua (λ L, lua_pushnumber L (cast_num GetHeight));;
    lua (λ L, lua_pushnumber L GetAspectRatioValue);;
    lua (λ L, lua_pushnumber L (cast_num GetAspectRatioType));;
    ret 4
  else
    lua lua_pushnil;;
    ret 1.

(** ** LuaScript::LuaModuleLoader *)

Definition module_error_message (filename err : string) : string :=
  "Error loading Lua module " +:+ quote +:+ filename +:+ quote +:+ ":"
  +:+ nl +:+ nl +:+ err.

(** The loop over the templates of [package.path]. *)
Fixpoint LuaModuleLoader_loop (where_ module : string) (toker : list string)
  : M unit :=
  match toker with
  | [] => ret tt
  | token :: toker' =>
      let filename := Replace "?"%char module token in
      (if FileExists filename then
         match lua_load filename with
         | Loaded f => lua (push (LFunction f))
         | LoadFailed msg =>
             lua (λ L, lua_pushstring L msg);;
             err <- tostring (-1);
             luaL_error where_ (module_error_message filename (wxString err))
         end
       else ret tt);;
      LuaModuleLoader_loop where_ module toker'
  end.

(** [LuaScript::LuaModuleLoader]; [LUA_DIRSEP] is one character, and so is
    what replaces a dot of the module name. *)
Definition LuaModuleLoader (where_ : string) : M Z :=
  pretop <- ask (λ L, to_int (lua_gettop L));
  module <- tostring (-1);
  let module := Replace "."%char LUA_DIRSEP (wxString module) in
  lua (λ L, lua_getglobal L "package");;
  lua (λ L, lua_pushstring L "path");;
  lua (λ L, lua_gettable L (-2));;
  package_paths <- tostring (-1);
  lua (λ L, lua_pop L 2);;
  LuaModuleLoader_loop where_ module (StrTok ";"%char (wxString package_paths));;
  top <- ask (λ L, to_int (lua_gettop L));
  ret (to_int (top - pretop)).

(** ** LuaScript::LuaInclude *)

(** [lua_call(L, 0, LUA_MULTRET)]: the function on top of the stack is
    replaced by all its results; an error it raises goes on to the
    caller. *)
Definition lua_call_multret : M unit :=
  λ m, let s := stack (m_lua m) in
       let base := take (length s - 1) s in
       let f := default LNil (last s) in
       match call_value f [] (api (λ L, set_stack L base) m) with
       | Ok vs m' => Ok tt (api (λ L, set_stack L (base ++ vs)) m')
       | Raise e m' => Raise e m'
       end.

Definition include_error_message (fullpath err : string) : string :=
  "Error loading Lua include " +:+ quote +:+ fullpath +:+ quote +:+ ":"
  +:+ nl +:+ nl +:+ err.

(** [LuaScript::LuaInclude]; a null pointer is the address 0. *)
Definition LuaInclude (where_ : string) : M Z :=
  s <- (λ m, let '(ptr, L) := GetScriptObject (m_lua m) in
             Ok (default 0%nat ptr) (set_lua m L));
  is_string <- ask (λ L, lua_isstring L 1);
  if negb is_string
  then luaL_error where_ "Argument to include must be a string"
  else
    fnames <- tostring 1;
    let fnames := wxString fnames in
    let fname := wxFileName_new fnames in
    let fname :=
      if bool_decide (GetDirCount fname = 0%nat) then
        (* filename only *)
        wxFileName_new (FindAbsoluteValidPath s fnames)
      else if IsRelative fname then
        (* relative path *)
        let sfname := wxFileName_new (GetFilename s) in
        MakeAbsolute fname (GetPath sfname)
      else
        (* absolute path, do nothing *)
        fname in
    if negb (IsOk fname) || negb (wxFileName_FileExists fname)
    then luaL_error where_ ("Lua include not found: " +:+ fnames)
    else
      match lua_load (GetFullPath fname) with
      | LoadFailed msg =>
          lua (λ L, lua_pushstring L msg);;
          err <- tostring (-1);
          luaL_error where_
            (include_error_message (GetFullPath fname) (wxString err))
      | Loaded f =>
          lua (push (LFunction f));;
          (* don't count the function value itself *)
          pretop <- ask (λ L, to_int (to_int (lua_gettop L) - 1));
          lua_call_multret;;
          top <- ask (λ L, to_int (lua_gettop L));
          ret (to_int (top - pretop))
      end.

(** ** LuaFeatureFilter::GenerateConfigDialog *)

Definition set_config_dialog (this : LuaFeatureFilter)
    (d : option lua_table) : LuaFeatureFilter :=
  mk_LuaFeatureFilter (filter_name this) (filter_description this)
    (filter_merit this) (has_config this) d (filter_myid this).

(** [LuaFeatureFilter::GenerateConfigDialog]: the dialog it returns, the
    filter with its [config_dialog] assigned, and the machine; [top] is
    [AssFile::top]. *)
Definition GenerateConfigDialog (this : LuaFeatureFilter) (top : nat)
    (m : Machine) : option lua_table * LuaFeatureFilter * Machine :=
  if negb (has_config this) then (None, this, m)
  else
    let m := api (GetFeatureFunction (filter_myid this) 2) m in
    let '(subsobj, m) := LuaAssFile_new top false false m in
    let m := api lua_newtable m in
    let '(err, m) := lua_pcall 2 1 m in
    if negb (err =? 0) then
      let '(errmsg, L) := lua_tostring (m_lua m) (-1) in
      let m :=
        wxLog ("Runtime error in Lua macro validation function:" +:+ nl
               +:+ wxString errmsg) (set_lua m L) in
      let m := api (λ L, lua_pop L 1) m in
      (None, set_config_dialog this None, m)
    else
      let '(values, L) := LuaConfigDialog_new (m_lua m) in
      (Some values, set_config_dialog this (Some values), set_lua m L).

(** ** LuaScriptFactory::Produce *)

(** [LuaScriptFactory::Produce]: [this] is the address of the new script
    object and [file] what the file holds. *)
Definition Produce (this : nat) (filename : string) (file : script_file)
  : option LuaScript :=
  if bool_decide (Lower (Right 4 filename) = ".lua"%string)
  then Some (LuaScript_new this filename file)
  else None.

End Services.

(** ** Vocabulary of the properties *)

(** The values of [aegisub.register_macro] and [aegisub.register_filter]. *)
Definition register_macro : lua_value :=
  LFunction (CFn C_LuaFeatureMacro_LuaRegister).
Definition register_filter : lua_value :=
  LFunction (CFn C_LuaFeatureFilter_LuaRegister).

(** The array that [CreateIntegerArray] builds from [ints], from position
    [i] on: one-based positions, each index one more than in the host. *)
Fixpoint int_array_from (i : nat) (ints : list Z) : lua_table :=
  match ints with
  | [] => []
  | x :: ints' =>
      (LNumber (cast_num (Z.of_nat i + 1)), LNumber (cast_num (to_int (x + 1))))
      :: int_array_from (S i) ints'
  end.

(** [v[k]], without metamethods, for the tables [h]. *)
Definition raw_index (h : list lua_table) (v k : lua_value) : lua_value :=
  match v with
  | LTable r => luaH_get (default [] (h !! r)) k
  | _ => LNil
  end.

(** [h] after the raw store [v[k] = x]. *)
Definition raw_store (h : list lua_table) (v k x : lua_value)
  : list lua_table :=
  match v with
  | LTable r => <[r := luaH_set (default [] (h !! r)) k x]> h
  | _ => h
  end.

Definition is_function (o : option lua_value) : bool :=
  match o with Some (LFunction _) => true | _ => false end.

(** The value at position [i] (from 0) of the frame [st] of a registration
    call, once the constructor has put its new table on top. *)
Definition frame_arg (st : list lua_value) (h : list lua_table) (i : nat)
  : lua_value :=
  default LNil ((st ++ [LTable (length h)]) !! i).

(** The tables after a registration: the new table of the feature holds
    the values [F] and [V] under 1 and 2, and the registry's table of
    features holds the new table under [id]. *)
Definition registered_heap (h : list lua_table) (F V : lua_value) (id : Z)
  : list lua_table :=
  let T := LTable (length h) in
  let h := h ++ [[]] in
  let h := raw_store h T (LNumber (cast_num 1)) F in
  let h := raw_store h T (LNumber (cast_num 2)) V in
  raw_store h (raw_index h (LTable registry_ref) (LString "features"))
    (LNumber (cast_num id)) T.

(** The registry's table of features is the table [fr], and what it holds
    are tables of features. *)
Definition registry_inv (h : list lua_table) (fr : nat) : Prop :=
  raw_index h (LTable registry_ref) (LString "features") = LTable fr
  ∧ fr ≠ registry_ref
  ∧ (fr < length h)%nat
  ∧ ∀ k t, raw_index h (LTable fr) k = LTable t →
           (t < length h)%nat ∧ t ≠ fr.

(** A table of Lua has no nil key and no key twice. *)
Fixpoint table_wf (t : lua_table) : bool :=
  match t with
  | [] => true
  | kv :: t' =>
      negb (lua_rawequal kv.1 LNil) && negb (luaH_mem t' kv.1) && table_wf t'
  end.

(** The cursor of a traversal: after the pairs [pre] have been visited,
    [lua_next] is called with the key of the last of them, or with nil at
    the start. *)
Inductive cursor : lua_table → lua_value → Prop :=
  | cursor_start : cursor [] LNil
  | cursor_at pre k v : cursor (pre ++ [(k, v)]) k.

(** A computation keeps the observation [obs] of the machine, whether it
    returns or raises. *)
Definition keeps {A B} (obs : Machine → B) (c : M A) : Prop :=
  ∀ m, match c m with
       | Ok _ m' | Raise _ m' => obs m' = obs m
       end.

(** An observation that does not look at the Lua state or at the feature
    list. *)
Definition host_only {B} (obs : Machine → B) : Prop :=
  ∀ m L fs, obs (set_features (set_lua m L) fs) = obs m.

Section Vocabulary.
Context `{Collaborators}.

(** The host index that [Process] reads from one entry of the returned
    table: numeric entries (in the sense of [lua_isnumber]) give their
    integer value less one, as an [int]; other entries give nothing. *)
Definition read_entry (v : lua_value) : list Z :=
  match luaV_tonumber v with
  | Some n => [to_int (lua_number2integer n - 1)]
  | None => []
  end.

(** The entries of a table, read in the order of its traversal. *)
Definition selection_of (t : lua_table) : list Z :=
  flat_map (λ kv, read_entry kv.2) t.

(** The function that [GetFeatureFunction] leaves on the stack: entry
    [functionid] of entry [myid] of the registry's table of features. *)
Definition feature_function (L : lua_State) (myid functionid : Z) : lua_value :=
  let h := heap L in
  raw_index h
    (raw_index h
       (raw_index h (LTable registry_ref) (LString "features"))
       (LNumber (cast_num myid)))
    (LNumber (cast_num functionid)).

(** The string that [wxString(lua_tostring(L, idx), wxConvUTF8)] gives for
    the argument [o]. *)
Definition string_arg (o : option lua_value) : string :=
  match o with
  | Some (LString s) => s
  | Some (LNumber n) => lua_number2str n
  | _ => ""
  end.

(** What [lua_tostring] leaves in the stack slot it converts. *)
Definition tostring_slot (v : lua_value) : lua_value :=
  match v with
  | LNumber n => LString (lua_number2str n)
  | _ => v
  end.

Definition macro_error : string :=
  "The macro processing function must be a function".
Definition filter_error : string :=
  "The filter processing function must be a function".

(** The integer that [lua_tointeger] gives for the argument [o]. *)
Definition integer_arg (o : option lua_value) : Z :=
  match o ≫= luaV_tonumber with
  | Some n => lua_number2integer n
  | None => 0
  end.

(** The two kinds of feature, the function that registers each, the
    position of the processing function among its arguments (from 0), and
    the error of a registration without one. *)
Inductive feature_kind : Type := KindMacro | KindFilter.

Definition register_function (kind : feature_kind) : lua_value :=
  match kind with
  | KindMacro => register_macro
  | KindFilter => register_filter
  end.

Definition processing_position (kind : feature_kind) : nat :=
  match kind with KindMacro => 2%nat | KindFilter => 3%nat end.

Definition registration_error (kind : feature_kind) : string :=
  match kind with KindMacro => macro_error | KindFilter => filter_error end.

(** The feature that the registration call [register(args)] creates when
    it gets the index [id]. *)
Definition feature_of_call (kind : feature_kind) (args : list lua_value)
    (id : Z) : Feature :=
  match kind with
  | KindMacro =>
      FeatureMacro
        (mk_LuaFeatureMacro (string_arg (args !! 0%nat))
           (string_arg (args !! 1%nat))
           (negb (is_function (args !! 3%nat))) id)
  | KindFilter =>
      FeatureFilter
        (mk_LuaFeatureFilter (string_arg (args !! 0%nat))
           (string_arg (args !! 1%nat))
           (to_int (integer_arg (args !! 2%nat)))
           (is_function (args !! 4%nat)) None id)
  end.

(** A registration pass: the script makes the registration calls [calls]
    one after the other. *)
Fixpoint registration_pass (calls : list (feature_kind * list lua_value))
  : chunk :=
  match calls with
  | [] => ChunkReturn
  | (kind, args) :: calls' =>
      ChunkCall (register_function kind) args
        (λ _, registration_pass calls')
  end.

(** The processing function of a registration call is a function. *)
Definition well_formed_call (call : feature_kind * list lua_value) : Prop :=
  is_function (call.2 !! processing_position call.1) = true.

(** A script object without a Lua state has no features.  The constructor
    makes such objects and [Create] keeps them so. *)
Definition script_consistent (s : LuaScript) : Prop :=
  L s = None → features s = [].

(** The machine on which [Create] runs the main chunk [c] of the script. *)
Definition load_machine (s : LuaScript) (c : chunk) : Machine :=
  mk_Machine (Create_environment (script_addr s)) (features s) [] [] c.

(** The script object after a load that failed with [msg]. *)
Definition failed_script (s : LuaScript) (msg : string) : LuaScript :=
  mk_LuaScript (script_addr s) (filename s) (PrettyFilename (filename s)) msg
    (author s) (version s) [] None.

(** The value of the global [name]. *)
Definition global (L : lua_State) (name : string) : lua_value :=
  raw_index (heap L) (LTable globals_ref) (LString name).

(** The script declares itself an Automation 3 script: its global
    [version] is numeric, in the sense of [lua_isnumber], and its integer
    value, in the sense of [lua_tointeger], is 3. *)
Definition declares_automation3 (L : lua_State) : Prop :=
  ∃ n, luaV_tonumber (global L "version") = Some n
       ∧ lua_number2integer n = 3.

(** The same cause in the words of the specification, to compare: the
    global [version] is a number, and that number is equal to 3. *)
Definition version_equals_3 (L : lua_State) : Prop :=
  ∃ n, global L "version" = LNumber n ∧ Qeq n (cast_num 3).

(** [lua_isnumber(L, -1) && lua_tointeger(L, -1) == 3] for the value [v] on
    top of the stack. *)
Definition is_automation3 (v : lua_value) : bool :=
  match luaV_tonumber v with
  | Some n => lua_number2integer n =? 3
  | None => false
  end.

(** The values that [Validate] and [Process] call the script with: the
    document wrapper, the marshaled selection, and the number -1. *)
Definition call_arguments (m : Machine) : list lua_value :=
  [LUserdata (length (m_assfiles m));
   LTable (length (heap (m_lua m)));
   LNumber (cast_num (-1))].

(** The selection that [Process] leaves when the script returned [v]. *)
Definition new_selection (v : lua_value) (L : lua_State) (old : list Z)
  : list Z :=
  match v with
  | LTable r => std_sort (selection_of (table_at L r))
  | _ => old
  end.

End Vocabulary.

(** ** Vocabulary of the further properties *)

(** The truth value of a Lua value: everything but nil and false is
    true. *)
Definition lua_truth (v : lua_value) : bool :=
  match v with
  | LNil | LBoolean false => false
  | _ => true
  end.

(** The table of options that reaches the processing function of a
    filter: the values of its configuration dialog, or nothing. *)
Definition filter_options (this : LuaFeatureFilter) : lua_table :=
  match has_config this, config_dialog this with
  | true, Some values => values
  | _, _ => []
  end.

(** The first of the two lines that [lua_threaded_call] writes to the log
    when the call fails. *)
Definition runtime_error_header : string :=
  nl +:+ nl +:+ "Lua reported a runtime error:" +:+ nl.

(** The line that [Validate] and [GenerateConfigDialog] write to the log
    when the call fails with the message [msg]. *)
Definition validation_warning (msg : string) : string :=
  "Runtime error in Lua macro validation function:" +:+ nl +:+ msg.

(** The module path of a script: the default path of Lua, followed by two
    templates for each include directory. *)
Definition package_path `{Collaborators} : string :=
  foldl (λ p d, p +:+ ";" +:+ d +:+ "?.lua;" +:+ d +:+ "?/init.lua")
    LUA_PATH_DEFAULT include_dirs.

(** The address of the script that owns the state, as [GetScriptObject]
    gives it; a null pointer is the address 0. *)
Definition owner (m : Machine) : nat :=
  default 0%nat (GetScriptObject (m_lua m)).1.

(** The values that [lua_isstring] accepts: strings and numbers. *)
Definition is_string (v : lua_value) : bool :=
  match v with
  | LString _ | LNumber _ => true
  | _ => false
  end.

(** The file that [include] reads for the name [fnames], in the script at
    [s]: a name without directories is searched in the include path, a
    relative path starts at the directory of the script, an absolute path
    is taken as it is. *)
Definition include_file {paths : Paths} (s : nat) (fnames : string)
  : wxFileName :=
  let fname := wxFileName_new fnames in
  if bool_decide (GetDirCount fname = 0%nat)
  then wxFileName_new (FindAbsoluteValidPath s fnames)
  else if IsRelative fname
       then MakeAbsolute fname (GetPath (wxFileName_new (GetFilename s)))
       else fname.

(** What [lua_load] leaves on the stack for a file that compiles. *)
Definition loaded {files : FileSystem} (f : string) : lua_value :=
  match lua_load f with
  | Loaded fn => LFunction fn
  | LoadFailed _ => LNil
  end.

Definition loads {files : FileSystem} (f : string) : Prop :=
  ∃ fn, lua_load f = Loaded fn.

(** The files of a module that exist: every template of the path, with
    the name of the module in the place of each question mark, in the
    order of the path. *)
Definition module_files {files : FileSystem} (path module : string)
  : list string :=
  filter (λ f, FileExists f = true)
    (map (Replace "?" module) (StrTok ";" path)).

(** A string without the character [d]. *)
Fixpoint free_of (d : ascii) (s : string) : bool :=
  match s with
  | EmptyString => true
  | String c s' => negb (Ascii.eqb c d) && free_of d s'
  end.

(** The file name ends in [.lua], in small or capital letters. *)
Definition lua_extension (filename : string) : Prop :=
  ∃ base c1 c2 c3,
    filename = base +:+ String "." (String c1 (String c2 (String c3 "")))
    ∧ (c1 = "l" ∨ c1 = "L")%char ∧ (c2 = "u" ∨ c2 = "U")%char
    ∧ (c3 = "a" ∨ c3 = "A")%char.

(** ** Sample scripts *)

(** A stand-in for the surroundings, to run the code on examples: no
    string reads as a number, numbers print as their integer part, and the
    script has the functions below. *)
Definition sample_function (f : fn_id) (args : list lua_value)
    (h : list lua_table) : call_result :=
  match f with
  | LuaFn 0 =>   (* function(subs, sel, active) return sel end *)
      Returned [default LNil (args !! 1%nat)] h
  | LuaFn 1 =>   (* function() error("boom") end *)
      Errored (LString "boom") h
  | LuaFn 2 =>   (* function(subs, sel, active) return active == 6 end *)
      Returned [LBoolean (lua_rawequal (default LNil (args !! 2%nat))
                            (LNumber (cast_num 6)))] h
  | LuaFn 3 =>   (* function() return {2, x = true, 1} end *)
      Returned [LTable (length h)]
        (h ++ [[(LNumber (cast_num 1), LNumber (cast_num 2));
                (LString "x", LBoolean true);
                (LNumber (cast_num 2), LNumber (cast_num 1))]])
  | LuaFn 4 =>   (* function() return "done" end *)
      Returned [LString "done"] h
  | _ => Returned [] h
  end.

Definition sample_collaborators : Collaborators := {|
  luaO_str2d := λ _, None;
  lua_number2str := λ n, pretty (Qnum n ÷ Zpos (Qden n));
  call_function := sample_function;
  PrettyFilename := λ f, f;
  include_dirs := ["/usr/share/aegisub/automation/include/"];
  LUA_PATH_DEFAULT := "./?.lua"
|}.

(** A script that registers three macros and a filter:
<<
  script_name = "Sample"; script_author = "A. N. Author"
  aegisub.register_macro("Pick", "", f3, f2)
  aegisub.register_macro("Keep", "", f0)
  aegisub.register_macro("Broken", "", f0, f1)
  aegisub.register_filter("Clean", "", 0, f4)
>> *)

Definition sample_chunk : chunk :=
  ChunkSetGlobal "script_name" (LString "Sample")
    (ChunkSetGlobal "script_author" (LString "A. N. Author")
       (ChunkCall register_macro
          [LString "Pick"; LString ""; LFunction (LuaFn 3); LFunction (LuaFn 2)]
          (λ _,
           ChunkCall register_macro
             [LString "Keep"; LString ""; LFunction (LuaFn 0)]
             (λ _,
              ChunkCall register_macro
                [LString "Broken"; LString ""; LFunction (LuaFn 0);
                 LFunction (LuaFn 1)]
                (λ _,
                 ChunkCall register_filter
                   [LString "Clean"; LString ""; LNumber (cast_num 0);
                    LFunction (LuaFn 4)]
                   (λ _, ChunkReturn)))))).

Definition sample_script : LuaScript :=
  LuaScript_new (H := sample_collaborators) 7 "sample.lua" (Parsed sample_chunk).

(** The machine of a script object whose Lua state is live. *)
Definition machine_of (s : LuaScript) : Machine :=
  mk_Machine (default lua_open (L s)) (features s) [] [] ChunkReturn.

Definition sample_machine : Machine := machine_of sample_script.

Definition macro_Pick : LuaFeatureMacro := mk_LuaFeatureMacro "Pick" "" false 0.
Definition macro_Keep : LuaFeatureMacro := mk_LuaFeatureMacro "Keep" "" true 1.
Definition macro_Broken : LuaFeatureMacro :=
  mk_LuaFeatureMacro "Broken" "" false 2.
Definition filter_Clean : LuaFeatureFilter :=
  mk_LuaFeatureFilter "Clean" "" 0 false None 3.

(** The registration calls of the sample script. *)
Definition sample_calls : list (feature_kind * list lua_value) :=
  [(KindMacro,
    [LString "Pick"; LString ""; LFunction (LuaFn 3); LFunction (LuaFn 2)]);
   (KindMacro, [LString "Keep"; LString ""; LFunction (LuaFn 0)]);
   (KindMacro,
    [LString "Broken"; LString ""; LFunction (LuaFn 0); LFunction (LuaFn 1)]);
   (KindFilter,
    [LString "Clean"; LString ""; LNumber (cast_num 0); LFunction (LuaFn 4)])].


(** A script whose functions all raise an error:
<<
  aegisub.register_macro("Faulty", "", f1, f1)
  aegisub.register_filter("Failing", "", 0, f1, f1)
>> *)

Definition faulty_chunk : chunk :=
  ChunkCall register_macro
    [LString "Faulty"; LString ""; LFunction (LuaFn 1); LFunction (LuaFn 1)]
    (λ _,
     ChunkCall register_filter
       [LString "Failing"; LString ""; LNumber (cast_num 0);
        LFunction (LuaFn 1); LFunction (LuaFn 1)]
       (λ _, ChunkReturn)).

Definition faulty_script : LuaScript :=
  LuaScript_new (H := sample_collaborators) 8 "faulty.lua" (Parsed faulty_chunk).

Definition faulty_machine : Machine := machine_of faulty_script.

Definition filter_Failing : LuaFeatureFilter :=
  mk_LuaFeatureFilter "Failing" "" 0 true None 1.

(** Stand-ins for the video, the files and the dialogs: a video of 640 by
    480 at 25 frames per second is open; the module [utils] exists in the
    directory of the script and, in a version that does not compile, in
    the include directory; a dialog takes
    the table it is built from as its values and leaves it on the stack. *)
Definition sample_video : VideoContext := {|
  TimecodesLoaded := true;
  FrameAtTime := λ ms, ms ÷ 40;
  TimeAtFrame := λ frame, frame * 40;
  IsLoaded := true;
  GetWidth := 640;
  GetHeight := 480;
  GetAspectRatioValue := 4 # 3;
  GetAspectRatioType := 0
|}.

Definition sample_files : FileSystem := {|
  FileExists := λ f,
    bool_decide (f = "./utils.lua"%string)
    || bool_decide
         (f = "/usr/share/aegisub/automation/include/utils.lua"%string);
  lua_load := λ f,
    if bool_decide (f = "./utils.lua"%string) then Loaded (LuaFn 0)
    else if bool_decide (f = "/home/user/automation/lib/k.lua"%string)
         then Loaded (LuaFn 4)
         else LoadFailed "unexpected symbol";
  LUA_DIRSEP := "/"
|}.

(** Paths as strings, with the slash as separator: the script is
    /home/user/automation/sample.lua, next to a directory lib that holds
    k.lua; the include path finds utils.lua. *)
Definition sample_paths : Paths := {|
  wxFileName := string;
  wxFileName_new := λ f, f;
  GetDirCount := λ f,
    length (filter (λ c, c = "/"%char) (String.list_ascii_of_string f));
  IsRelative := λ f,
    match f with String "/" _ => false | _ => true end;
  MakeAbsolute := λ f cwd, cwd +:+ "/" +:+ f;
  GetPath := λ _, "/home/user/automation";
  IsOk := λ f, negb (bool_decide (f = ""%string));
  wxFileName_FileExists := λ f,
    bool_decide (f = "/home/user/automation/lib/k.lua"%string)
    || bool_decide
         (f = "/usr/share/aegisub/automation/include/utils.lua"%string);
  GetFullPath := λ f, f;
  GetFullName := λ f, f;
  FindAbsoluteValidPath := λ _ f,
    if bool_decide (f = "utils.lua"%string)
    then "/usr/share/aegisub/automation/include/utils.lua" else "";
  GetFilename := λ _, "/home/user/automation/sample.lua"
|}.

Definition sample_dialogs : Dialogs := {|
  LuaConfigDialog_new := λ L,
    (match value_at L (-1) with LTable r => table_at L r | _ => [] end, L)
|}.

(** * Properties *)

(** ** C integers *)

Lemma wrap_id bits z :
  0 < bits → - 2 ^ (bits - 1) <= z < 2 ^ (bits - 1) → wrap bits z = z.
Proof.
  intros Hb Hz. unfold wrap.
  assert (2 ^ bits = 2 * 2 ^ (bits - 1)) as ->.
  { rewrite <- Z.pow_succ_r by lia. f_equal. lia. }
  rewrite Z.mod_small; lia.
Qed.

Lemma wrap_range bits z :
  0 < bits → - 2 ^ (bits - 1) <= wrap bits z < 2 ^ (bits - 1).
Proof.
  intros Hb. unfold wrap.
  assert (2 ^ bits = 2 * 2 ^ (bits - 1)) as E.
  { rewrite <- Z.pow_succ_r by lia. f_equal. lia. }
  assert (0 < 2 ^ (bits - 1)) by (apply Z.pow_pos_nonneg; lia).
  pose proof (Z.mod_pos_bound (z + 2 ^ (bits - 1)) (2 ^ bits)). lia.
Qed.

Lemma wrap_wrap_add bits a b : wrap bits (wrap bits a + b) = wrap bits (a + b).
Proof.
  unfold wrap. f_equal.
  replace ((a + 2 ^ (bits - 1)) `mod` 2 ^ bits - 2 ^ (bits - 1) + b
           + 2 ^ (bits - 1))
    with ((a + 2 ^ (bits - 1)) `mod` 2 ^ bits + b) by lia.
  rewrite Zplus_mod_idemp_l. f_equal. lia.
Qed.

(** Linear arithmetic over the bounds of [int]. *)
Ltac int_lia :=
  unfold int_range, INT_MIN, INT_MAX in *;
  change (2 ^ 31) with 2147483648 in *;
  cbn [length] in *;
  lia.

Lemma to_int_id z : int_range z → to_int z = z.
Proof.
  intros [Hl Hu]. apply wrap_id; [lia |].
  unfold INT_MIN, INT_MAX in *. simpl. lia.
Qed.

Lemma to_int_range z : int_range (to_int z).
Proof.
  pose proof (wrap_range 32 z). unfold int_range, INT_MIN, INT_MAX, to_int.
  simpl in *. lia.
Qed.

(** Adding one and taking it away again, both in [int], gives back the
    value, also at [INT_MAX]. *)
Lemma to_int_succ_pred x : int_range x → to_int (to_int (x + 1) - 1) = x.
Proof.
  intros Hx. unfold to_int.
  replace (wrap 32 (x + 1) - 1) with (wrap 32 (x + 1) + -1) by lia.
  rewrite wrap_wrap_add. replace (x + 1 + -1) with x by lia.
  by apply to_int_id.
Qed.

Lemma lua_number2integer_cast z :
  - 2 ^ 63 <= z < 2 ^ 63 → lua_number2integer (cast_num z) = z.
Proof.
  intros Hz. unfold lua_number2integer, cast_num, inject_Z. simpl.
  rewrite Z.quot_1_r. apply wrap_id; [lia | exact Hz].
Qed.

Lemma lua_number2integer_int z :
  int_range z → lua_number2integer (cast_num z) = z.
Proof.
  intros [Hl Hu]. apply lua_number2integer_cast.
  unfold INT_MIN, INT_MAX in *. lia.
Qed.

(** ** The stack *)

Section StackFacts.
Implicit Types (s : list lua_value) (h : list lua_table) (v : lua_value).

Lemma stack_pos_top s h v :
  stack_pos (mk_lua_State (s ++ [v]) h) (-1) = Some (length s).
Proof.
  unfold stack_pos, lua_gettop. simpl. rewrite length_app. simpl.
  case_bool_decide || idtac.
  destruct (0 <=? _) eqn:E; simpl.
  - f_equal. lia.
  - apply Z.leb_gt in E. lia.
Qed.

Lemma stack_pos_below s h a b :
  stack_pos (mk_lua_State (s ++ [a; b]) h) (-2) = Some (length s).
Proof.
  unfold stack_pos, lua_gettop. simpl. rewrite length_app. simpl.
  destruct (0 <=? _) eqn:E; simpl.
  - f_equal. lia.
  - apply Z.leb_gt in E. lia.
Qed.

Lemma value_at_top s h v : value_at (mk_lua_State (s ++ [v]) h) (-1) = v.
Proof.
  unfold value_at, index2adr. simpl. rewrite stack_pos_top. simpl.
  by rewrite list_lookup_middle.
Qed.

Lemma value_at_below s h a b :
  value_at (mk_lua_State (s ++ [a; b]) h) (-2) = a.
Proof.
  unfold value_at, index2adr. simpl. rewrite stack_pos_below. simpl.
  by rewrite list_lookup_middle.
Qed.

Lemma index2adr_top s h v :
  index2adr (mk_lua_State (s ++ [v]) h) (-1) = Some v.
Proof.
  unfold index2adr. simpl. rewrite stack_pos_top. simpl.
  by rewrite list_lookup_middle.
Qed.

Lemma lua_pop_1 s h v :
  lua_pop (mk_lua_State (s ++ [v]) h) 1 = mk_lua_State s h.
Proof.
  unfold lua_pop, set_stack. cbn [stack heap]. f_equal.
  rewrite length_app. cbn [length].
  replace (length s + 1 - Z.to_nat 1)%nat with (length s) by lia.
  apply take_app_length.
Qed.

Lemma lua_remove_below s h a b :
  lua_remove (mk_lua_State (s ++ [a; b]) h) (-2) = mk_lua_State (s ++ [b]) h.
Proof.
  unfold lua_remove. rewrite stack_pos_below. unfold set_stack. simpl.
  f_equal. induction s; simpl; [done | by f_equal].
Qed.

Lemma value_at_top_2 s h a b :
  value_at (mk_lua_State (s ++ [a; b]) h) (-1) = b.
Proof. by rewrite (cons_middle a s [b]), app_assoc, value_at_top. Qed.

Lemma index2adr_top_2 s h a b :
  index2adr (mk_lua_State (s ++ [a; b]) h) (-1) = Some b.
Proof. by rewrite (cons_middle a s [b]), app_assoc, index2adr_top. Qed.

Lemma lua_pop_1_2 s h a b :
  lua_pop (mk_lua_State (s ++ [a; b]) h) 1 = mk_lua_State (s ++ [a]) h.
Proof. by rewrite (cons_middle a s [b]), app_assoc, lua_pop_1. Qed.

End StackFacts.

(** ** Tables *)

Lemma Qeq_bool_cast a b : Qeq_bool (cast_num a) (cast_num b) = (a =? b).
Proof.
  unfold Qeq_bool, cast_num, inject_Z. simpl. by rewrite !Z.mul_1_r.
Qed.

Lemma lua_rawequal_sym a b : lua_rawequal a b = lua_rawequal b a.
Proof.
  destruct a, b; simpl; try done;
    try (apply bool_decide_ext; split; congruence).
  unfold Qeq_bool. apply Z.eqb_sym.
Qed.

Lemma lua_rawequal_refl a : lua_rawequal a a = true.
Proof.
  destruct a; simpl; try done; try by apply bool_decide_eq_true.
  apply Qeq_bool_iff. reflexivity.
Qed.

Lemma lua_rawequal_trans a b c :
  lua_rawequal a b = true → lua_rawequal b c = true → lua_rawequal a c = true.
Proof.
  destruct a, b, c; simpl; try done;
    rewrite ?bool_decide_eq_true; try congruence.
  apply Qeq_bool_trans.
Qed.

(** Equal keys compare alike with every key. *)
Lemma lua_rawequal_congr a b c :
  lua_rawequal a b = true → lua_rawequal a c = lua_rawequal b c.
Proof.
  intros Hab. destruct (lua_rawequal b c) eqn:Hbc.
  - by apply (lua_rawequal_trans a b c).
  - destruct (lua_rawequal a c) eqn:Hac; [| done].
    rewrite lua_rawequal_sym in Hab.
    by rewrite (lua_rawequal_trans b a c Hab Hac) in Hbc.
Qed.

Lemma key_is_congr k k' kv :
  lua_rawequal k k' = true → key_is k kv = key_is k' kv.
Proof.
  intros Hk. unfold key_is.
  rewrite !(lua_rawequal_sym kv.1). by apply lua_rawequal_congr.
Qed.

Lemma key_is_other k k' kv :
  lua_rawequal k k' = false → key_is k kv = true → key_is k' kv = false.
Proof.
  unfold key_is. intros Hk Hkv.
  by rewrite (lua_rawequal_congr kv.1 k k' Hkv).
Qed.

Lemma luaH_get_congr t k k' :
  lua_rawequal k k' = true → luaH_get t k = luaH_get t k'.
Proof.
  intros Hk. induction t as [|kv t IH]; simpl; [done |].
  by rewrite (key_is_congr k k' kv Hk), IH.
Qed.

Lemma luaH_mem_get_replace t k v :
  luaH_mem t k = true → luaH_get (luaH_replace t k v) k = v.
Proof.
  induction t as [|kv t IH]; simpl; [done |].
  destruct (key_is k kv) eqn:E; simpl.
  - intros _. unfold key_is in *. simpl. by rewrite E.
  - intros Hm. by rewrite E, IH.
Qed.

Lemma luaH_get_replace_other t k v k' :
  lua_rawequal k k' = false →
  luaH_get (luaH_replace t k v) k' = luaH_get t k'.
Proof.
  intros Hk. induction t as [|kv t IH]; simpl; [done |].
  destruct (key_is k kv) eqn:E; simpl.
  - rewrite (key_is_other k k' kv Hk E).
    unfold key_is in *. simpl.
    by rewrite (lua_rawequal_congr kv.1 k k' E), Hk.
  - by rewrite IH.
Qed.

Lemma luaH_get_remove_other t k k' :
  lua_rawequal k k' = false →
  luaH_get (luaH_remove t k) k' = luaH_get t k'.
Proof.
  intros Hk. induction t as [|kv t IH]; simpl; [done |].
  destruct (key_is k kv) eqn:E; simpl.
  - by rewrite (key_is_other k k' kv Hk E).
  - by rewrite IH.
Qed.

Lemma luaH_get_app_new t k v k' :
  luaH_mem t k = false →
  luaH_get (t ++ [(k, v)]) k'
  = if lua_rawequal k k' then v else luaH_get t k'.
Proof.
  induction t as [|kv t IH]; simpl.
  - intros _. unfold key_is. simpl. by destruct (lua_rawequal k k').
  - intros Hm. apply orb_false_elim in Hm as [Hkv Hm].
    rewrite IH by done.
    destruct (lua_rawequal k k') eqn:Hk; [| done].
    by rewrite <- (key_is_congr k k' kv Hk), Hkv.
Qed.

(** Reading a table after a raw assignment. *)
Lemma luaH_get_set t k v k' :
  v ≠ LNil →
  luaH_get (luaH_set t k v) k'
  = if lua_rawequal k k' then v else luaH_get t k'.
Proof.
  intros Hv.
  assert (luaH_set t k v
          = if luaH_mem t k then luaH_replace t k v else t ++ [(k, v)]) as ->
    by (by destruct v).
  destruct (luaH_mem t k) eqn:Hm.
  - destruct (lua_rawequal k k') eqn:Hk.
    + rewrite <- (luaH_get_congr _ k k' Hk). by apply luaH_mem_get_replace.
    + by apply luaH_get_replace_other.
  - by apply luaH_get_app_new.
Qed.

Lemma luaH_get_set_other t k v k' :
  lua_rawequal k k' = false → luaH_get (luaH_set t k v) k' = luaH_get t k'.
Proof.
  intros Hk. destruct v;
    first [ by apply luaH_get_remove_other | by rewrite luaH_get_set, Hk ].
Qed.

Lemma luaH_mem_app t1 t2 k :
  luaH_mem (t1 ++ t2) k = luaH_mem t1 k || luaH_mem t2 k.
Proof.
  induction t1 as [|kv t1 IH]; simpl; [done |].
  rewrite IH. by rewrite orb_assoc.
Qed.

Lemma luaH_mem_int_array_from i ints k :
  ¬ (Z.of_nat i + 1 <= k <= Z.of_nat i + Z.of_nat (length ints)) →
  luaH_mem (int_array_from i ints) (LNumber (cast_num k)) = false.
Proof.
  revert i. induction ints as [|x ints IH]; intros i Hk; simpl; [done |].
  unfold key_is. simpl in *. rewrite Qeq_bool_cast.
  rewrite IH by lia.
  destruct (Z.eqb_spec (Z.of_nat i + 1) k); [lia | done].
Qed.

Lemma int_array_from_app i a b :
  int_array_from i (a ++ b)
  = int_array_from i a ++ int_array_from (i + length a) b.
Proof.
  revert i. induction a as [|x a IH]; intros i; simpl.
  - by rewrite Nat.add_0_r.
  - rewrite IH. do 3 f_equal. lia.
Qed.

Lemma table_wf_int_array_from i ints : table_wf (int_array_from i ints) = true.
Proof.
  revert i. induction ints as [|x ints IH]; intros i; simpl; [done |].
  rewrite luaH_mem_int_array_from by lia. by rewrite IH.
Qed.

Lemma luaH_mem_perm t t' k : t ≡ₚ t' → luaH_mem t k = luaH_mem t' k.
Proof.
  induction 1 as [|kv t t' _ IH|a b t|t1 t2 t3 _ IH1 _ IH2]; simpl.
  - done.
  - by rewrite IH.
  - destruct (key_is k a), (key_is k b); done.
  - by rewrite IH1.
Qed.

(** Being a table does not depend on the order of traversal. *)
Lemma table_wf_perm t t' : t ≡ₚ t' → table_wf t = table_wf t'.
Proof.
  induction 1 as [|kv t t' Hp IH|a b t|t1 t2 t3 _ IH1 _ IH2]; simpl.
  - done.
  - by rewrite IH, (luaH_mem_perm _ _ _ Hp).
  - unfold key_is. rewrite (lua_rawequal_sym a.1 b.1).
    destruct (lua_rawequal a.1 LNil), (lua_rawequal b.1 LNil),
      (lua_rawequal b.1 a.1), (luaH_mem t a.1), (luaH_mem t b.1); done.
  - by rewrite IH1.
Qed.

Lemma luaH_set_fresh t k v :
  v ≠ LNil → luaH_mem t k = false → luaH_set t k v = t ++ [(k, v)].
Proof. intros Hv Hk. unfold luaH_set. rewrite Hk. by destruct v. Qed.

Lemma luaH_after_last pre k v rest :
  luaH_mem pre k = false →
  luaH_after (pre ++ (k, v) :: rest) k = Some (head rest).
Proof.
  induction pre as [|kv pre IH]; simpl.
  - intros _. unfold key_is. simpl. by rewrite lua_rawequal_refl.
  - intros Hm. apply orb_false_elim in Hm as [-> Hm]. by apply IH.
Qed.

Lemma table_wf_app_r t1 t2 : table_wf (t1 ++ t2) = true → table_wf t2 = true.
Proof.
  induction t1 as [|kv t1 IH]; simpl; [done |].
  intros Hw. apply andb_prop in Hw as [_ Hw]. by apply IH.
Qed.

(** In a table, a key is not among the pairs before it. *)
Lemma table_wf_not_before pre k v rest :
  table_wf (pre ++ (k, v) :: rest) = true → luaH_mem pre k = false.
Proof.
  induction pre as [|kv pre IH]; simpl; [done |].
  intros Hw. apply andb_prop in Hw as [Hw1 Hw]. apply andb_prop in Hw1 as [_ Hm].
  rewrite IH by done. rewrite orb_false_r.
  apply negb_true_iff in Hm. rewrite luaH_mem_app in Hm.
  apply orb_false_elim in Hm as [_ Hm]. simpl in Hm.
  apply orb_false_elim in Hm as [Hm _]. unfold key_is in *. simpl in *.
  by rewrite lua_rawequal_sym.
Qed.

Lemma table_wf_key_not_nil pre k v rest :
  table_wf (pre ++ (k, v) :: rest) = true → lua_rawequal k LNil = false.
Proof.
  intros Hw. apply table_wf_app_r in Hw. simpl in Hw.
  apply andb_prop in Hw as [Hw _]. apply andb_prop in Hw as [Hw _].
  by apply negb_true_iff in Hw.
Qed.

(** [luaH_next] at a cursor gives the first pair not yet visited. *)
Lemma luaH_next_cursor pre k rest :
  cursor pre k → table_wf (pre ++ rest) = true →
  luaH_next (pre ++ rest) k = Some (head rest).
Proof.
  intros [|pre' k' v] Hw; [done |].
  rewrite <- app_assoc in *. simpl in *.
  pose proof (table_wf_key_not_nil _ _ _ _ Hw) as Hn.
  pose proof (table_wf_not_before _ _ _ _ Hw) as Hb.
  unfold luaH_next. destruct k'; try done; by apply luaH_after_last.
Qed.

(** ** Tables by reference *)

Lemma raw_store_length h X k v : length (raw_store h X k v) = length h.
Proof. destruct X; try done. apply length_insert. Qed.

Lemma raw_index_store_ne h r r' k v k' :
  r ≠ r' →
  raw_index (raw_store h (LTable r) k v) (LTable r') k'
  = raw_index h (LTable r') k'.
Proof. intros Hr. unfold raw_index, raw_store. by rewrite list_lookup_insert_ne. Qed.

Lemma raw_index_store_eq h r k v k' :
  (r < length h)%nat →
  raw_index (raw_store h (LTable r) k v) (LTable r) k'
  = luaH_get (luaH_set (default [] (h !! r)) k v) k'.
Proof. intros Hr. unfold raw_index, raw_store. by rewrite list_lookup_insert_eq. Qed.

Lemma raw_index_app_l h h2 r k :
  (r < length h)%nat →
  raw_index (h ++ h2) (LTable r) k = raw_index h (LTable r) k.
Proof. intros Hr. unfold raw_index. by rewrite lookup_app_l. Qed.

Lemma lua_rawequal_cast a b :
  lua_rawequal (LNumber (cast_num a)) (LNumber (cast_num b)) = (a =? b).
Proof. apply Qeq_bool_cast. Qed.

(** What a registration leaves in the tables: the registry's table of
    features gains the new table under [id], the new table holds [F]
    under 1, and the tables of the features registered before are as they
    were. *)
Lemma registered_heap_spec h fr F V id :
  registry_inv h fr → F ≠ LNil →
  let h' := registered_heap h F V id in
  registry_inv h' fr
  ∧ (∀ k, raw_index h' (LTable fr) k
          = if lua_rawequal (LNumber (cast_num id)) k
            then LTable (length h) else raw_index h (LTable fr) k)
  ∧ raw_index h' (LTable (length h)) (LNumber (cast_num 1)) = F
  ∧ (∀ t k, (t < length h)%nat → t ≠ fr →
            raw_index h' (LTable t) k = raw_index h (LTable t) k).
Proof.
  intros (Hreg & Hne & Hlt & Hent) HF h'. subst h'. unfold registered_heap.
  set (T := LTable (length h)).
  set (h2 := raw_store (h ++ [[]]) T (LNumber (cast_num 1)) F).
  set (h3 := raw_store h2 T (LNumber (cast_num 2)) V).
  assert (length h2 = S (length h)) as Hl2.
  { subst h2. rewrite raw_store_length, length_app. simpl. lia. }
  assert (length h3 = S (length h)) as Hl3.
  { subst h3. by rewrite raw_store_length. }
  assert (∀ t k, (t < length h)%nat →
                 raw_index h3 (LTable t) k = raw_index h (LTable t) k) as Hold.
  { intros t k Ht. subst h3 h2 T.
    rewrite !raw_index_store_ne by lia. by apply raw_index_app_l. }
  assert (raw_index h3 (LTable registry_ref) (LString "features") = LTable fr)
    as ->.
  { rewrite Hold; [done |]. unfold registry_ref in *. lia. }
  assert (∀ k, raw_index (raw_store h3 (LTable fr) (LNumber (cast_num id)) T)
                 (LTable fr) k
               = if lua_rawequal (LNumber (cast_num id)) k
                 then T else raw_index h (LTable fr) k) as Hfr.
  { intros k. rewrite raw_index_store_eq by lia.
    rewrite luaH_get_set by done.
    destruct (lua_rawequal _ k); [done |]. by apply (Hold fr k). }
  split; [| split; [| split]].
  - split; [| split; [| split]].
    + rewrite raw_index_store_ne by done. rewrite Hold; [done |].
      unfold registry_ref in *. lia.
    + done.
    + rewrite raw_store_length. lia.
    + intros k t. rewrite Hfr, raw_store_length, Hl3.
      destruct (lua_rawequal _ k).
      * intros [= <-]. lia.
      * intros Hk. destruct (Hent k t Hk). lia.
  - exact Hfr.
  - subst T. rewrite raw_index_store_ne by lia. subst h3.
    rewrite raw_index_store_eq by lia.
    rewrite luaH_get_set_other by (by rewrite lua_rawequal_cast).
    change (luaH_get (default [] (h2 !! length h)) (LNumber (cast_num 1)))
      with (raw_index h2 (LTable (length h)) (LNumber (cast_num 1))).
    subst h2. rewrite raw_index_store_eq by (rewrite length_app; simpl; lia).
    rewrite luaH_get_set by done. by rewrite lua_rawequal_refl.
  - intros t k Ht Htf. rewrite raw_index_store_ne by done. by apply Hold.
Qed.

(** ** The integer-array marshaler *)

(** One turn of the loop of [CreateIntegerArray]: the stack is as before
    and the table on top has one more pair. *)
Lemma push_rawseti L s r x n :
  stack L = s ++ [LTable r] →
  lua_rawseti (lua_pushinteger L x) (-2) n
  = mk_lua_State (stack L)
      (<[r := luaH_set (table_at L r) (LNumber (cast_num n))
                (LNumber (cast_num x))]> (heap L)).
Proof.
  destruct L as [st hp]. cbn [stack heap]. intros ->.
  unfold lua_rawseti, lua_pushinteger, push, set_stack. cbn [stack heap].
  rewrite <- app_assoc. cbn [app].
  unfold rawset_at. rewrite value_at_below, value_at_top_2.
  unfold set_heap. cbn [stack heap]. by rewrite lua_pop_1_2.
Qed.

Lemma CreateIntegerArray_from_stack ints i L s r :
  stack L = s ++ [LTable r] →
  stack (CreateIntegerArray_from i ints L) = s ++ [LTable r].
Proof.
  revert i L. induction ints as [|x ints IH]; intros i L Hs; simpl; [done |].
  apply IH. by rewrite (push_rawseti L s r).
Qed.

Lemma CreateIntegerArray_stack ints L :
  stack (CreateIntegerArray ints L) = stack L ++ [LTable (length (heap L))].
Proof. unfold CreateIntegerArray. by apply CreateIntegerArray_from_stack. Qed.

Lemma CreateIntegerArray_from_heap ints pre L s r :
  stack L = s ++ [LTable r] →
  heap L !! r = Some (int_array_from 0 pre) →
  Z.of_nat (length pre + length ints) <= INT_MAX →
  heap (CreateIntegerArray_from (length pre) ints L)
  = <[r := int_array_from 0 (pre ++ ints)]> (heap L).
Proof.
  revert pre L. induction ints as [|x ints IH]; intros pre L Hs Hr Hlen.
  - simpl. rewrite app_nil_r. symmetry. by apply list_insert_id.
  - simpl. rewrite (push_rawseti L s r) by done.
    assert (to_int (to_int (Z.of_nat (length pre)) + 1)
            = Z.of_nat (length pre) + 1) as ->.
    { rewrite (to_int_id (Z.of_nat (length pre))) by int_lia.
      apply to_int_id. int_lia. }
    unfold table_at. rewrite Hr. cbn [default from_option id].
    rewrite luaH_set_fresh;
      [| done | apply luaH_mem_int_array_from; lia].
    assert (int_array_from 0 pre
              ++ [(LNumber (cast_num (Z.of_nat (length pre) + 1)),
                   LNumber (cast_num (to_int (x + 1))))]
            = int_array_from 0 (pre ++ [x])) as ->.
    { by rewrite int_array_from_app. }
    replace (S (length pre)) with (length (pre ++ [x]))
      by (rewrite length_app; simpl; lia).
    rewrite (IH (pre ++ [x])).
    + cbn [heap]. rewrite list_insert_insert_eq. by rewrite <- app_assoc.
    + done.
    + cbn [heap]. apply list_lookup_insert_eq. by eapply lookup_lt_Some.
    + rewrite length_app. int_lia.
Qed.

(** [CreateIntegerArray] leaves a new table on top of the stack, which holds
    the elements of [ints], each plus one, at the positions 1, 2, ... *)
Lemma CreateIntegerArray_spec ints L :
  Z.of_nat (length ints) <= INT_MAX →
  CreateIntegerArray ints L
  = mk_lua_State (stack L ++ [LTable (length (heap L))])
      (heap L ++ [int_array_from 0 ints]).
Proof.
  intros Hlen.
  pose proof (CreateIntegerArray_stack ints L) as Hs.
  pose proof (CreateIntegerArray_from_heap ints [] (lua_newtable L)
                (stack L) (length (heap L)) eq_refl) as Hh.
  simpl in Hh. unfold CreateIntegerArray in *.
  destruct (CreateIntegerArray_from 0 ints (lua_newtable L)) as [st hp].
  simpl in *. subst st. f_equal. rewrite Hh.
  - rewrite insert_app_r_alt by lia. by rewrite Nat.sub_diag.
  - by rewrite lookup_app_r, Nat.sub_diag by lia.
  - done.
Qed.

(** ** Reading a selection back *)

Section ReadBack.
Context `{Collaborators}.

(** The loop of [Process], entered at a cursor of the traversal: it ends
    before the fuel does, leaves the table on top of the stack and has
    appended the indices read from the pairs not yet visited. *)
Lemma Process_read_loop_spec rest pre k fuel s h r sel :
  default [] (h !! r) = pre ++ rest →
  table_wf (pre ++ rest) = true →
  cursor pre k →
  (length rest < fuel)%nat →
  Process_read_loop fuel (mk_lua_State (s ++ [LTable r; k]) h) sel
  = Finished (mk_lua_State (s ++ [LTable r]) h, sel ++ selection_of rest).
Proof.
  revert pre k fuel sel.
  induction rest as [|[k' v] rest IH]; intros pre k fuel sel Hr Hw Hc Hf;
    (destruct fuel as [|fuel]; [simpl in Hf; lia |]);
    cbn [Process_read_loop]; unfold lua_next;
    rewrite value_at_below, value_at_top_2; unfold table_at; cbn [heap];
    rewrite Hr;
    rewrite (luaH_next_cursor pre k _ Hc Hw); cbn [head].
  - rewrite lua_pop_1_2. by rewrite app_nil_r.
  - rewrite lua_pop_1_2. unfold push, set_stack. cbn [stack heap].
    rewrite <- !app_assoc. cbn [app].
    assert (s ++ [LTable r; k'; v] = (s ++ [LTable r; k']) ++ [v]) as ->
      by (by rewrite <- app_assoc).
    unfold lua_isnumber, lua_tointeger. rewrite index2adr_top, lua_pop_1.
    rewrite (IH (pre ++ [(k', v)]) k' fuel).
    + do 2 f_equal. unfold selection_of. cbn [flat_map snd].
      unfold read_entry. cbn [mbind option_bind].
      destruct (luaV_tonumber v); by rewrite <- ?app_assoc.
    + by rewrite <- app_assoc.
    + by rewrite <- app_assoc.
    + constructor.
    + simpl in Hf. lia.
Qed.

(** The reading part of [Process] on a table: the new selection is what
    the pairs of the table give, sorted. *)
Lemma Process_read_selection_table fuel s h r old :
  let t := default [] (h !! r) in
  table_wf t = true → (length t < fuel)%nat →
  Process_read_selection fuel (mk_lua_State (s ++ [LTable r]) h) old
  = Finished (mk_lua_State (s ++ [LTable r]) h, std_sort (selection_of t)).
Proof.
  intros t Hw Hf. assert (default [] (h !! r) = t) as Hr by done. unfold Process_read_selection, lua_istable.
  rewrite index2adr_top. unfold lua_pushnil, push, set_stack. cbn [stack heap].
  rewrite <- app_assoc. cbn [app].
  by rewrite (Process_read_loop_spec t [] LNil fuel s h r []);
    [| | | constructor |].
Qed.

(** The reading part of [Process] on a value that is not a table: the
    selection stays. *)
Lemma Process_read_selection_other fuel s h v old :
  (∀ r, v ≠ LTable r) →
  Process_read_selection fuel (mk_lua_State (s ++ [v]) h) old
  = Finished (mk_lua_State (s ++ [v]) h, old).
Proof.
  intros Hv. unfold Process_read_selection, lua_istable.
  rewrite index2adr_top. destruct v; try done. by destruct (Hv r).
Qed.

(** What is read from the array of [CreateIntegerArray] is the sequence it
    was built from. *)
Lemma selection_of_int_array i ints :
  Forall int_range ints → selection_of (int_array_from i ints) = ints.
Proof.
  intros Hi. revert i. induction Hi as [|x ints Hx _ IH]; intros i; [done |].
  cbn [int_array_from]. unfold selection_of. cbn [flat_map].
  fold (selection_of (int_array_from (S i) ints)). rewrite IH.
  unfold read_entry. cbn [snd luaV_tonumber].
  rewrite lua_number2integer_int by apply to_int_range.
  by rewrite to_int_succ_pred.
Qed.

Lemma selection_of_perm t t' : t ≡ₚ t' → selection_of t ≡ₚ selection_of t'.
Proof.
  unfold selection_of. intros Hp. rewrite !flat_map_concat_map.
  by rewrite Hp.
Qed.

Lemma std_sort_perm l l' : l ≡ₚ l' → std_sort l = std_sort l'.
Proof.
  intros Hp. unfold std_sort.
  apply (Sorted_unique Z.le); try apply Sorted_merge_sort; try apply _.
  by rewrite !merge_sort_Permutation.
Qed.

End ReadBack.

(** ** Claim C1: the selection round trip *)

Section RoundTrip.
Context `{Collaborators}.

(** C1.  A selection [S] of host indices that [CreateIntegerArray] pushes
    to the script side (each element plus one) and that the reading part
    of [Process] takes back (each element minus one, then [std::sort])
    comes back as [S] sorted ascending.  This holds for every order [t']
    in which [lua_next] may enumerate the pairs of the array.  The
    elements of [S] are [int]s and [S] has at most [INT_MAX] of them. *)
Theorem selection_round_trip
    (S : list Z) (L0 : lua_State) (t' : lua_table) (fuel : nat) (old : list Z) :
  Forall int_range S →
  Z.of_nat (length S) <= INT_MAX →
  let L1 := CreateIntegerArray S L0 in
  let r := length (heap L0) in
  t' ≡ₚ table_at L1 r →
  (length S < fuel)%nat →
  Process_read_selection fuel (set_heap L1 (<[r := t']> (heap L1))) old
  = Finished (set_heap L1 (<[r := t']> (heap L1)), std_sort S).
Proof.
  intros HS Hlen L1 r Hp Hf. subst L1 r.
  rewrite CreateIntegerArray_spec in * by done.
  unfold table_at, set_heap in *. cbn [stack heap] in *.
  rewrite lookup_app_r, Nat.sub_diag in Hp by lia. cbn in Hp.
  assert (length t' = length S) as Hl.
  { rewrite Hp. clear. generalize 0%nat.
    induction S as [|x S IH]; intros i; simpl; [done | by rewrite IH]. }
  assert (default [] (<[length (heap L0) := t']>
                        (heap L0 ++ [int_array_from 0 S])
                      !! length (heap L0)) = t') as Ht.
  { by rewrite insert_app_r_alt, Nat.sub_diag, lookup_app_r, Nat.sub_diag
      by lia. }
  rewrite Process_read_selection_table; cbv zeta; rewrite Ht.
  - do 2 f_equal.
    rewrite (std_sort_perm _ _ (selection_of_perm _ _ Hp)).
    by rewrite selection_of_int_array.
  - rewrite (table_wf_perm _ _ Hp). apply table_wf_int_array_from.
  - lia.
Qed.

End RoundTrip.

(** The round trip of the selection 5, 3, 9 through an array that Lua
    enumerates last pair first. *)
Lemma selection_round_trip_witness :
  let S := [5; 3; 9] in
  let L1 := CreateIntegerArray S lua_open in
  let t' := reverse (table_at L1 2) in
  Process_read_selection (H := sample_collaborators) 4
    (set_heap L1 (<[2%nat := t']> (heap L1))) []
  = Finished (set_heap L1 (<[2%nat := t']> (heap L1)), [3; 5; 9]).
Proof.
  intros S L1 t'.
  apply (selection_round_trip (H := sample_collaborators) S lua_open t' 4 []).
  - repeat constructor; vm_compute; congruence.
  - vm_compute. congruence.
  - apply reverse_Permutation.
  - simpl. lia.
Defined.

(** ** Protected calls *)

Section Calls.
Context `{Collaborators}.

Lemma adjust_results_1 vs : adjust_results 1 vs = [default LNil (head vs)].
Proof. by destruct vs. Qed.

(** A protected call that asks for one result and succeeds leaves that
    result on top of the stack. *)
Lemma lua_pcall_ok nargs m m2 :
  lua_pcall nargs 1 m = (0, m2) → ∃ base v, stack (m_lua m2) = base ++ [v].
Proof.
  unfold lua_pcall. set (base := take _ _).
  destruct (_ (api _ m)) as [vs m'|e m']; intros [= <-].
  eexists base, _. cbn [api set_lua m_lua set_stack stack].
  by rewrite adjust_results_1.
Qed.

(** ** What the Lua side cannot touch *)

Lemma keeps_ret {A B} (obs : Machine → B) (a : A) : keeps obs (ret a).
Proof. by intros m. Qed.

Lemma keeps_bind {A B C} (obs : Machine → C) (c : M A) (k : A → M B) :
  keeps obs c → (∀ a, keeps obs (k a)) → keeps obs (bind c k).
Proof.
  intros Hc Hk m. unfold bind. specialize (Hc m).
  destruct (c m) as [a m'|e m']; [| done].
  specialize (Hk a m'). destruct (k a m'); congruence.
Qed.

Lemma keeps_lua {B} (obs : Machine → B) f : host_only obs → keeps obs (lua f).
Proof.
  intros Ho m. unfold lua, api. rewrite <- (Ho m (f (m_lua m)) (m_features m)).
  by destruct m.
Qed.

Lemma keeps_ask {A B} (obs : Machine → B) (f : lua_State → A) :
  keeps obs (ask f).
Proof. by intros m. Qed.

Lemma keeps_lua_error {A B} (obs : Machine → B) : keeps obs (@lua_error A).
Proof. by intros m. Qed.

Lemma keeps_tostring {B} (obs : Machine → B) idx :
  host_only obs → keeps obs (tostring idx).
Proof.
  intros Ho m. unfold tostring. destruct (lua_tostring _ _) as [s L0].
  rewrite <- (Ho m L0 (m_features m)). by destruct m.
Qed.

Lemma keeps_LuaScript_RegisterFeature {B} (obs : Machine → B) feature :
  host_only obs → keeps obs (LuaScript_RegisterFeature feature).
Proof.
  intros Ho m. cbn. rewrite <- (Ho m (m_lua m) (m_features m ++ [feature])).
  by destruct m.
Qed.

Lemma keeps_this_set_myid {B} (obs : Machine → B) id :
  host_only obs → keeps obs (this_set_myid id).
Proof.
  intros Ho m. cbn.
  rewrite <- (Ho m (m_lua m)
                (alter (set_myid id) (length (m_features m) - 1)%nat
                   (m_features m))).
  by destruct m.
Qed.

(** Goes through straight-line code of the monad. *)
Ltac keeps_steps Ho :=
  repeat first
    [ apply keeps_ret
    | apply keeps_ask
    | apply keeps_lua_error
    | apply keeps_lua; exact Ho
    | apply keeps_tostring; exact Ho
    | apply keeps_LuaScript_RegisterFeature; exact Ho
    | apply keeps_this_set_myid; exact Ho
    | match goal with |- keeps _ (if ?b then _ else _) => destruct b end
    | apply keeps_bind; [| intros ?] ].

Lemma keeps_macro_LuaRegister {B} (obs : Machine → B) :
  host_only obs → keeps obs LuaFeatureMacro_LuaRegister.
Proof.
  intros Ho.
  unfold LuaFeatureMacro_LuaRegister, LuaFeatureMacro_new,
    LuaFeature_RegisterFeature.
  keeps_steps Ho.
Qed.

Lemma keeps_filter_LuaRegister {B} (obs : Machine → B) :
  host_only obs → keeps obs LuaFeatureFilter_LuaRegister.
Proof.
  intros Ho.
  unfold LuaFeatureFilter_LuaRegister, LuaFeatureFilter_new,
    LuaFeature_RegisterFeature.
  keeps_steps Ho.
Qed.

Lemma keeps_with_frame {A B} (obs : Machine → B) args (c : M A) :
  host_only obs → keeps obs c → keeps obs (with_frame args c).
Proof.
  intros Ho Hc m. unfold with_frame.
  specialize (Hc (api (λ L0, set_stack L0 args) m)).
  assert (obs (api (λ L0, set_stack L0 args) m) = obs m) as Hm.
  { unfold api. rewrite <- (Ho m (set_stack (m_lua m) args) (m_features m)).
    by destruct m. }
  destruct (c _) as [a m'|e m']; [| congruence].
  rewrite <- Hm, <- Hc. unfold api.
  rewrite <- (Ho m' (set_stack (m_lua m') (stack (m_lua m))) (m_features m')).
  by destruct m'.
Qed.

Lemma keeps_call_value {B} (obs : Machine → B) f args :
  host_only obs → keeps obs (call_value f args).
Proof.
  intros Ho.
  assert (∀ fn, keeps obs (λ m,
      match call_function fn args (heap (m_lua m)) with
      | Returned vs h => Ok vs (api (λ L0, set_heap L0 h) m)
      | Errored e h => Raise e (api (λ L0, set_heap L0 h) m)
      end)) as Hfn.
  { intros fn m.
    destruct (call_function _ _ _) as [vs h|e h]; unfold api;
      rewrite <- (Ho m (set_heap (m_lua m) h) (m_features m)); by destruct m. }
  destruct f as [| | | | |fn| |]; try (by intros m).
  destruct fn as [cf| |]; try apply Hfn.
  destruct cf; try apply Hfn;
    (apply keeps_with_frame; [done |]; apply keeps_bind;
     [| intros; apply keeps_ret]).
  - by apply keeps_macro_LuaRegister.
  - by apply keeps_filter_LuaRegister.
Qed.

Lemma keeps_run_chunk {B} (obs : Machine → B) c :
  host_only obs → keeps obs (run_chunk c).
Proof.
  intros Ho. induction c as [|e|name v k IH|f args k IH|body IHb k IHk].
  - by intros m.
  - by intros m.
  - cbn [run_chunk]. apply keeps_bind; [by apply keeps_lua | done].
  - cbn [run_chunk]. apply keeps_bind; [by apply keeps_call_value | done].
  - intros m. cbn [run_chunk]. specialize (IHb m).
    destruct (run_chunk body m) as [[] m'|e m'].
    + specialize (IHk true m'). destruct (run_chunk (k true) m'); congruence.
    + specialize (IHk false (api (λ L0, set_stack L0 (stack (m_lua m))) m')).
      assert (obs (api (λ L0, set_stack L0 (stack (m_lua m))) m') = obs m')
        as Hm.
      { unfold api.
        rewrite <- (Ho m' (set_stack (m_lua m') (stack (m_lua m)))
                      (m_features m')).
        by destruct m'. }
      destruct (run_chunk (k false) _); congruence.
Qed.

(** A protected call changes nothing of the host but, through the
    registration functions, the feature list. *)
Lemma lua_pcall_keeps {B} (obs : Machine → B) nargs nresults m :
  host_only obs → obs (lua_pcall nargs nresults m).2 = obs m.
Proof.
  intros Ho. unfold lua_pcall.
  set (base := take _ _). set (f := default LNil _). set (args := drop _ _).
  set (callee := match f with LFunction MainChunk => _ | _ => _ end).
  assert (keeps obs callee) as Hk.
  { subst callee.
    destruct f as [| | | | |[| |]| |]; try (by apply keeps_call_value).
    apply keeps_bind; [by apply keeps_run_chunk | intros; apply keeps_ret]. }
  specialize (Hk (api (λ L0, set_stack L0 base) m)).
  assert (obs (api (λ L0, set_stack L0 base) m) = obs m) as Hm.
  { unfold api. rewrite <- (Ho m (set_stack (m_lua m) base) (m_features m)).
    by destruct m. }
  destruct (callee _) as [vs m'|e m']; cbn [snd]; rewrite <- Hm, <- Hk;
    unfold api.
  - rewrite <- (Ho m' (set_stack (m_lua m') (base ++ adjust_results nresults vs))
                  (m_features m')). by destruct m'.
  - rewrite <- (Ho m' (set_stack (m_lua m') (base ++ [e])) (m_features m')).
    by destruct m'.
Qed.

End Calls.

(** ** The sample script *)

Example sample_script_features :
  features sample_script
  = [FeatureMacro macro_Pick; FeatureMacro macro_Keep;
     FeatureMacro macro_Broken; FeatureFilter filter_Clean].
Proof. vm_compute. reflexivity. Qed.

Example sample_script_attributes :
  (name sample_script, description sample_script, author sample_script,
   version sample_script)
  = ("Sample", "", "A. N. Author", "")%string.
Proof. vm_compute. reflexivity. Qed.

(** ** Macros: what the script is called with, and what comes back *)

Section Macros.
Context `{Collaborators}.

Lemma lua_getfield_registry s h k :
  lua_getfield (mk_lua_State s h) LUA_REGISTRYINDEX k
  = mk_lua_State (s ++ [raw_index h (LTable registry_ref) (LString k)]) h.
Proof. done. Qed.

Lemma lua_rawgeti_top s h v n :
  lua_rawgeti (mk_lua_State (s ++ [v]) h) (-1) n
  = mk_lua_State (s ++ [v; raw_index h v (LNumber (cast_num n))]) h.
Proof.
  unfold lua_rawgeti, rawget_at, push, set_stack. cbn [stack heap].
  rewrite value_at_top, <- app_assoc. cbn [app]. by destruct v.
Qed.

Lemma lua_tostring_top st h e :
  wxString (lua_tostring (mk_lua_State (st ++ [e]) h) (-1)).1
  = string_arg (Some e).
Proof.
  unfold lua_tostring. rewrite index2adr_top. by destruct e.
Qed.

(** [GetFeatureFunction] pushes the function and nothing else. *)
Lemma GetFeatureFunction_spec myid functionid L :
  GetFeatureFunction myid functionid L
  = mk_lua_State (stack L ++ [feature_function L myid functionid]) (heap L).
Proof.
  destruct L as [s h]. unfold GetFeatureFunction, feature_function.
  cbn [stack heap]. rewrite lua_getfield_registry, lua_rawgeti_top.
  rewrite (cons_middle _ s [_]), app_assoc, lua_rawgeti_top.
  rewrite lua_remove_below. rewrite <- app_assoc. cbn [app].
  by rewrite lua_remove_below.
Qed.

Lemma Validate_prepare_stack this subs selected active m :
  stack (m_lua (Validate_prepare this subs selected active m))
  = stack (m_lua m)
    ++ feature_function (m_lua m) (macro_myid this) 2 :: call_arguments m.
Proof.
  unfold Validate_prepare, LuaAssFile_new, api, call_arguments.
  cbn [m_lua set_lua set_assfiles m_assfiles].
  unfold lua_pushinteger, push, set_stack. cbn [stack heap].
  rewrite CreateIntegerArray_stack. cbn [stack heap].
  rewrite GetFeatureFunction_spec. cbn [stack heap].
  by rewrite <- !app_assoc.
Qed.

Lemma Process_prepare_stack this subs selected active m :
  stack (m_lua (Process_prepare this subs selected active m).2)
  = stack (m_lua m)
    ++ feature_function (m_lua m) (macro_myid this) 1 :: call_arguments m.
Proof.
  unfold Process_prepare, LuaAssFile_new, api, call_arguments.
  cbn [m_lua set_lua set_assfiles m_assfiles snd].
  unfold lua_pushinteger, push, set_stack. cbn [stack heap].
  rewrite CreateIntegerArray_stack. cbn [stack heap].
  rewrite GetFeatureFunction_spec. cbn [stack heap].
  by rewrite <- !app_assoc.
Qed.

(** A protected call of a function of the script: the script's function
    decides between results and error. *)
Lemma lua_pcall_script_function base n args nresults m :
  stack (m_lua m) = base ++ LFunction (LuaFn n) :: args →
  lua_pcall (Z.of_nat (length args)) nresults m
  = match call_function (LuaFn n) args (heap (m_lua m)) with
    | Returned vs h =>
        (0, set_lua m (mk_lua_State (base ++ adjust_results nresults vs) h))
    | Errored e h =>
        (LUA_ERRRUN, set_lua m (mk_lua_State (base ++ [e]) h))
    end.
Proof.
  intros Hs. unfold lua_pcall. rewrite Hs, Nat2Z.id.
  rewrite length_app. cbn [length].
  replace (length base + S (length args) - length args - 1)%nat
    with (length base) by lia.
  rewrite take_app_length, list_lookup_middle by done.
  rewrite (cons_middle _ base args), app_assoc.
  rewrite drop_app_length'; [| rewrite length_app; simpl; lia].
  cbn [default from_option id call_value api m_lua set_lua set_stack heap].
  by destruct (call_function _ _ _).
Qed.

(** A processing function of the script that returns the values [vs]: the
    protected call in [Process] succeeds with the first of them, or nil,
    on top of the stack. *)
Lemma Process_call_returns this subs selected active m n vs h' :
  feature_function (m_lua m) (macro_myid this) 1 = LFunction (LuaFn n) →
  call_function (LuaFn n) (call_arguments m)
    (heap (m_lua (Process_prepare this subs selected active m).2))
  = Returned vs h' →
  ∃ m2,
    lua_pcall 3 1 (Process_prepare this subs selected active m).2 = (0, m2)
    ∧ value_at (m_lua m2) (-1) = default LNil (head vs)
    ∧ heap (m_lua m2) = h'.
Proof.
  intros Hfn Hcall.
  pose proof (Process_prepare_stack this subs selected active m) as Hs.
  rewrite Hfn in Hs.
  pose proof (lua_pcall_script_function _ n (call_arguments m) 1 _ Hs) as Hp.
  rewrite Hcall in Hp. eexists. split; [exact Hp |].
  cbn [m_lua set_lua heap]. by rewrite adjust_results_1, value_at_top.
Qed.

(** C2.  When the call of the processing function succeeds, with the value
    [v] on top of the stack as its result: if [v] is a table, [Process]
    replaces the selection by what the entries of the table give, in the
    order of the traversal, each numeric entry less one and the other
    entries skipped, and sorts it ascending; if [v] is not a table the
    selection stays.  The table is a table of Lua (no key twice) and the
    fuel of the reading loop exceeds its size. *)
Theorem Process_selection fuel this subs selected active m m2 :
  lua_pcall 3 1 (Process_prepare this subs selected active m).2 = (0, m2) →
  (∀ r, value_at (m_lua m2) (-1) = LTable r →
        table_wf (table_at (m_lua m2) r) = true
        ∧ (length (table_at (m_lua m2) r) < fuel)%nat) →
  Process fuel this subs selected active m
  = Finished
      (new_selection (value_at (m_lua m2) (-1)) (m_lua m2) selected,
       api (λ L, lua_pop L 1)
         (ProcessingComplete
            (Process_prepare this subs selected active m).1 m2)).
Proof.
  intros Hcall Hwf. unfold Process.
  destruct (Process_prepare this subs selected active m) as [subsobj pm].
  cbn [fst snd] in *.
  unfold LuaThreadedCall, lua_threaded_call. rewrite Hcall. cbn [Z.eqb].
  destruct (lua_pcall_ok _ _ _ Hcall) as (base & v & Hs).
  unfold ProcessingComplete, api. cbn [m_lua set_assfiles set_lua].
  destruct (m_lua m2) as [st hp]. cbn [stack] in Hs. subst st.
  rewrite value_at_top in *.
  destruct v as [| | | |r| | |];
    try (by rewrite Process_read_selection_other).
  destruct (Hwf r eq_refl) as [Hw Hf]. unfold table_at in *. cbn [heap] in *.
  by rewrite Process_read_selection_table.
Qed.

End Macros.

(** The macro "Pick" of the sample script returns the table
    [{2, x = true, 1}]: the selection becomes 0, 1. *)
Lemma Process_selection_witness :
  match Process (H := sample_collaborators) 4 macro_Pick 0 [7] 0
          sample_machine with
  | Finished (selected, _) => selected = [0; 1]
  | _ => False
  end.
Proof.
  rewrite (Process_selection (H := sample_collaborators) 4 macro_Pick 0 [7] 0
             sample_machine
             (lua_pcall (H := sample_collaborators) 3 1
                (Process_prepare macro_Pick 0 [7] 0 sample_machine).2).2).
  - vm_compute. reflexivity.
  - vm_compute. reflexivity.
  - intros r Hr. vm_compute in Hr. injection Hr as <-.
    vm_compute. split; [reflexivity | lia].
Defined.

(** ** Claims C5 and C6: validation *)

Section Validation.
Context `{Collaborators}.

Lemma host_only_log : host_only m_log.
Proof. by intros []. Qed.

Lemma host_only_assfiles : host_only m_assfiles.
Proof. by intros []. Qed.

(** Whatever the caller gives as the active line, the third argument of
    the script's function is the number -1, in [Validate] and in
    [Process]. *)
Lemma third_argument_is_minus_one this subs selected active m :
  last (stack (m_lua (Validate_prepare this subs selected active m)))
  = Some (LNumber (cast_num (-1)))
  ∧ last (stack (m_lua (Process_prepare this subs selected active m).2))
    = Some (LNumber (cast_num (-1))).
Proof.
  rewrite Validate_prepare_stack, Process_prepare_stack.
  unfold call_arguments.
  split; by rewrite (cons_middle _ (stack (m_lua m))), !app_assoc,
               !last_app.
Qed.

(** A validation function of the script that raises the error [e]: the
    protected call in [Validate] fails with [e] on top of the stack. *)
Lemma Validate_call_raises this subs selected active m n e h' :
  feature_function (m_lua m) (macro_myid this) 2 = LFunction (LuaFn n) →
  call_function (LuaFn n) (call_arguments m)
    (heap (m_lua (Validate_prepare this subs selected active m)))
  = Errored e h' →
  ∃ m2,
    lua_pcall 3 1 (Validate_prepare this subs selected active m)
    = (LUA_ERRRUN, m2)
    ∧ wxString (lua_tostring (m_lua m2) (-1)).1 = string_arg (Some e).
Proof.
  intros Hfn Hcall.
  pose proof (Validate_prepare_stack this subs selected active m) as Hs.
  rewrite Hfn in Hs.
  pose proof (lua_pcall_script_function _ n (call_arguments m) 1 _ Hs) as Hp.
  rewrite Hcall in Hp. eexists. split; [exact Hp |].
  cbn [m_lua set_lua]. apply lua_tostring_top.
Qed.

(** C6.  When the call of the validation function ends with a runtime
    error, [Validate] returns false and writes the error to the log.
    [Validate] has no other way to end: it returns to its caller. *)
Theorem Validate_runtime_error this subs selected active m status m2 :
  no_validate this = false →
  lua_pcall 3 1 (Validate_prepare this subs selected active m) = (status, m2) →
  status ≠ 0 →
  (Validate this subs selected active m).1 = false
  ∧ m_log (Validate this subs selected active m).2
    = m_log m
      ++ ["Runtime error in Lua macro validation function:" +:+ nl
          +:+ wxString (lua_tostring (m_lua m2) (-1)).1].
Proof.
  intros Hnv Hcall Hst. unfold Validate. rewrite Hnv, Hcall.
  apply Z.eqb_neq in Hst. rewrite Hst. cbn [negb].
  pose proof (lua_pcall_keeps m_log 3 1
                (Validate_prepare this subs selected active m)
                host_only_log) as Hlog.
  rewrite Hcall in Hlog. cbn [snd] in Hlog.
  destruct (lua_tostring (m_lua m2) (-1)) as [errmsg L']. cbn [fst snd].
  split; [done |]. cbn [m_log api set_lua wxLog]. by rewrite Hlog.
Qed.

End Validation.

(** The macro "Keep" of the sample script returns the selection it is
    given: the selection 5, 3, 9 comes back sorted. *)
Example Process_keeps_selection :
  match Process (H := sample_collaborators) 4 macro_Keep 0 [5; 3; 9] 0
          sample_machine with
  | Finished (selected, m) =>
      selected = [3; 5; 9] ∧ stack (m_lua m) = stack (m_lua sample_machine)
  | _ => False
  end.
Proof. vm_compute. done. Qed.

(** The validation function of the macro "Broken" of the sample script
    raises an error. *)
Lemma Validate_runtime_error_witness :
  let r := Validate (H := sample_collaborators) macro_Broken 0 [0] 0
             sample_machine in
  r.1 = false
  ∧ m_log r.2
    = ["Runtime error in Lua macro validation function:" +:+ nl +:+ "boom"].
Proof.
  exact (Validate_runtime_error (H := sample_collaborators)
           macro_Broken 0 [0] 0 sample_machine LUA_ERRRUN
           (lua_pcall (H := sample_collaborators) 3 1
              (Validate_prepare macro_Broken 0 [0] 0 sample_machine)).2
           eq_refl ltac:(vm_compute; reflexivity) ltac:(discriminate)).
Defined.

(** C5.  The validation function of the macro "Pick" of the sample script
    is [function(subs, sel, active) return active == 6 end].  Called with
    the active line 5 (6 on the script side), [Validate] calls it with -1
    and returns false; [Process] passes -1 as well. *)
Theorem Validate_active_line_5 :
  (Validate (H := sample_collaborators) macro_Pick 0 [0] 5 sample_machine).1
  = false
  ∧ last (stack (m_lua (Validate_prepare macro_Pick 0 [0] 5 sample_machine)))
    = Some (LNumber (cast_num (-1)))
  ∧ last (stack (m_lua (Process_prepare macro_Pick 0 [0] 5 sample_machine).2))
    = Some (LNumber (cast_num (-1))).
Proof.
  split; [vm_compute; reflexivity |].
  apply (third_argument_is_minus_one macro_Pick 0 [0] 5 sample_machine).
Qed.

(** ** Claim C4: filters on export *)

Section Filters.
Context `{Collaborators}.

Lemma lua_threaded_call_assfiles nargs nresults m :
  m_assfiles (lua_threaded_call nargs nresults m) = m_assfiles m.
Proof.
  unfold lua_threaded_call.
  pose proof (lua_pcall_keeps m_assfiles nargs nresults m host_only_assfiles)
    as Hk.
  destruct (lua_pcall nargs nresults m) as [err m']. cbn [snd] in Hk.
  destruct (err =? 0); [done |].
  by destruct (lua_tostring _ _).
Qed.

(** C4.  [ProcessSubs] constructs one document wrapper, with modification
    allowed and undo recording disallowed, for every filter, every
    document and every state of the script, whatever the processing
    function does. *)
Theorem ProcessSubs_snapshot this subs m :
  m_assfiles (ProcessSubs this subs m)
  = m_assfiles m ++ [mk_LuaAssFile subs true false true].
Proof.
  unfold ProcessSubs, LuaAssFile_new, ProcessingComplete, LuaThreadedCall.
  cbn [m_assfiles set_assfiles api set_lua].
  rewrite lua_threaded_call_assfiles.
  destruct (has_config this), (config_dialog this);
    cbn [m_assfiles set_assfiles api set_lua];
    by rewrite alter_app_r_alt, Nat.sub_diag by lia.
Qed.

End Filters.

(** ** Registration *)

Section Registration.
Context `{Collaborators}.

Lemma lua_rawseti_below s h X T n :
  lua_rawseti (mk_lua_State (s ++ [X; T]) h) (-2) n
  = mk_lua_State (s ++ [X]) (raw_store h X (LNumber (cast_num n)) T).
Proof.
  unfold lua_rawseti, rawset_at, raw_store.
  rewrite value_at_below, value_at_top_2.
  destruct X; apply lua_pop_1_2.
Qed.

Lemma lua_pushvalue_below s h a b :
  lua_pushvalue (mk_lua_State (s ++ [a; b]) h) (-2)
  = mk_lua_State (s ++ [a; b; a]) h.
Proof.
  unfold lua_pushvalue, push, set_stack. rewrite value_at_below.
  cbn [stack heap]. by rewrite <- app_assoc.
Qed.

(** [LuaFeature::RegisterFeature], with the feature's table [T] on top of
    the stack: the feature is appended with the next index as its [myid],
    and the registry's table of features gets [T] under that index. *)
Lemma LuaFeature_RegisterFeature_spec this s h T fs af lg mn :
  let id := to_int (Z.of_nat (length (fs ++ [this])) - 1) in
  LuaFeature_RegisterFeature this
    (mk_Machine (mk_lua_State (s ++ [T]) h) fs af lg mn)
  = Ok tt
      (mk_Machine
         (mk_lua_State (s ++ [T])
            (raw_store h (raw_index h (LTable registry_ref) (LString "features"))
               (LNumber (cast_num id)) T))
         (fs ++ [set_myid id this]) af lg mn).
Proof.
  intros id. unfold LuaFeature_RegisterFeature, bind, lua, ask, api.
  cbn [m_lua set_lua m_features m_assfiles m_log m_main].
  rewrite lua_getfield_registry, lua_pop_1.
  unfold LuaScript_RegisterFeature, this_set_myid, set_features.
  cbn [m_lua set_lua m_features m_assfiles m_log m_main].
  rewrite lua_getfield_registry, <- app_assoc. cbn [app].
  rewrite lua_pushvalue_below.
  rewrite (cons_middle T s [_; _]), app_assoc, lua_rawseti_below.
  rewrite lua_pop_1.
  cbn [m_lua set_lua m_features m_assfiles m_log m_main].
  fold id. do 2 f_equal.
  rewrite length_app. cbn [length].
  replace (length fs + 1 - 1)%nat with (length fs) by lia.
  rewrite alter_app_r_alt, Nat.sub_diag by lia. done.
Qed.

Lemma is_function_app_table (st : list lua_value) r (i : nat) :
  is_function ((st ++ [LTable r]) !! i) = is_function (st !! i).
Proof.
  destruct (decide (i < length st)%nat) as [Hi|Hi].
  - by rewrite lookup_app_l.
  - rewrite lookup_app_r, (lookup_ge_None_2 st i) by lia.
    by destruct (i - length st)%nat as [|[|?]].
Qed.

Lemma is_function_tostring_slot (i j : nat) (st : list lua_value) :
  is_function (alter tostring_slot i st !! j) = is_function (st !! j).
Proof.
  destruct (decide (i = j)) as [->|Hij].
  - rewrite list_lookup_alter_eq. by destruct (st !! j) as [[]|].
  - by rewrite list_lookup_alter_ne.
Qed.

Lemma frame_arg_tostring_slot (i j : nat) st h :
  i ≠ j → frame_arg (alter tostring_slot i st) h j = frame_arg st h j.
Proof.
  intros Hij. unfold frame_arg. f_equal.
  destruct (decide (j < length st)%nat) as [Hj|Hj].
  - rewrite !lookup_app_l by (by rewrite ?length_alter).
    by apply list_lookup_alter_ne.
  - by rewrite !lookup_app_r, length_alter by (rewrite ?length_alter; lia).
Qed.

Lemma lua_tostring_1 st h :
  lua_tostring (mk_lua_State st h) 1
  = (match st !! 0%nat with
     | Some (LString s) => Some s
     | Some (LNumber n) => Some (lua_number2str n)
     | _ => None
     end, mk_lua_State (alter tostring_slot 0%nat st) h).
Proof. destruct st as [|[] st]; reflexivity. Qed.

Lemma lua_tostring_2 st h :
  lua_tostring (mk_lua_State st h) 2
  = (match st !! 1%nat with
     | Some (LString s) => Some s
     | Some (LNumber n) => Some (lua_number2str n)
     | _ => None
     end, mk_lua_State (alter tostring_slot 1%nat st) h).
Proof. destruct st as [|a [|[] st]]; reflexivity. Qed.

Lemma wxString_tostring o :
  wxString match o with
           | Some (LString s) => Some s
           | Some (LNumber n) => Some (lua_number2str n)
           | _ => None
           end = string_arg o.
Proof. by destruct o as [[]|]. Qed.

(** The constructor of a macro, on the frame [st] of the registration
    call: with a function as third argument it registers the macro; without
    one it raises an error and registers nothing. *)
Lemma LuaFeatureMacro_new_spec _name _description st h fs af lg mn :
  let m := mk_Machine (mk_lua_State st h) fs af lg mn in
  if is_function (st !! 2%nat) then
    LuaFeatureMacro_new _name _description m
    = Ok tt
        (mk_Machine
           (mk_lua_State st
              (registered_heap h (frame_arg st h 2) (frame_arg st h 3)
                 (to_int (Z.of_nat (length fs)))))
           (fs ++ [FeatureMacro
                       (mk_LuaFeatureMacro _name _description
                          (negb (is_function (st !! 3%nat)))
                          (to_int (Z.of_nat (length fs))))])
             af lg mn)
  else
    ∃ L',
      LuaFeatureMacro_new _name _description m
      = Raise (LString macro_error) (mk_Machine L' fs af lg mn).
Proof.
  intros m. subst m.
  unfold LuaFeatureMacro_new, bind, lua, ask, api, set_lua.
  cbn [m_lua m_features m_assfiles m_log m_main].
  change (lua_newtable (mk_lua_State st h))
    with (mk_lua_State (st ++ [LTable (length h)]) (h ++ [[]])).
  change (lua_isfunction (mk_lua_State (st ++ [LTable (length h)]) (h ++ [[]])) 3)
    with (is_function ((st ++ [LTable (length h)]) !! 2%nat)).
  rewrite is_function_app_table.
  destruct (is_function (st !! 2%nat));
    cbn [ret m_lua m_features m_assfiles m_log m_main].
  - change (lua_pushvalue (mk_lua_State (st ++ [LTable (length h)]) (h ++ [[]])) 3)
      with (mk_lua_State
              ((st ++ [LTable (length h)])
               ++ [default LNil ((st ++ [LTable (length h)]) !! 2%nat)])
              (h ++ [[]])).
    rewrite <- app_assoc. cbn [app]. rewrite lua_rawseti_below.
    set (h2 := raw_store _ _ _ _).
    change (lua_pushvalue (mk_lua_State (st ++ [LTable (length h)]) h2) 4)
      with (mk_lua_State
              ((st ++ [LTable (length h)])
               ++ [default LNil ((st ++ [LTable (length h)]) !! 3%nat)])
              h2).
    rewrite <- app_assoc. cbn [app].
    unfold lua_isfunction. rewrite index2adr_top_2, lua_rawseti_below.
    set (h3 := raw_store _ _ _ _).
    rewrite LuaFeature_RegisterFeature_spec. cbv zeta.
    cbn [m_lua m_features m_assfiles m_log m_main].
    rewrite lua_pop_1, length_app. cbn [length].
    replace (Z.of_nat (length fs + 1) - 1) with (Z.of_nat (length fs)) by lia.
    do 2 f_equal.
    cbn [set_myid macro_name macro_description no_validate].
    do 4 f_equal.
    rewrite <- (is_function_app_table st (length h) 3%nat).
    by destruct ((st ++ [LTable (length h)]) !! 3%nat) as [[]|].
  - unfold lua_error. cbn [m_lua].
    unfold lua_pushstring, push, set_stack. cbn [stack heap].
    rewrite <- app_assoc. cbn [app]. rewrite value_at_top_2.
    by eexists.
Qed.

(** [aegisub.register_macro] on the frame [st]. *)
Lemma LuaFeatureMacro_LuaRegister_spec st h fs af lg mn :
  let m := mk_Machine (mk_lua_State st h) fs af lg mn in
  if is_function (st !! 2%nat) then
    LuaFeatureMacro_LuaRegister m
    = Ok 0
        (mk_Machine
           (mk_lua_State
              (alter tostring_slot 1%nat (alter tostring_slot 0%nat st))
              (registered_heap h (frame_arg st h 2) (frame_arg st h 3)
                 (to_int (Z.of_nat (length fs)))))
           (fs ++ [FeatureMacro
                       (mk_LuaFeatureMacro
                          (string_arg (st !! 0%nat)) (string_arg (st !! 1%nat))
                          (negb (is_function (st !! 3%nat)))
                          (to_int (Z.of_nat (length fs))))])
             af lg mn)
  else
    ∃ L',
      LuaFeatureMacro_LuaRegister m
      = Raise (LString macro_error) (mk_Machine L' fs af lg mn).
Proof.
  intros m. subst m. unfold LuaFeatureMacro_LuaRegister, bind, tostring, set_lua.
  cbn [m_lua m_features m_assfiles m_log m_main].
  rewrite lua_tostring_1. cbn [m_lua m_features m_assfiles m_log m_main].
  rewrite lua_tostring_2. cbn [m_lua m_features m_assfiles m_log m_main].
  rewrite !wxString_tostring, list_lookup_alter_ne by done.
  pose proof (LuaFeatureMacro_new_spec (string_arg (st !! 0%nat))
                (string_arg (st !! 1%nat))
                (alter tostring_slot 1%nat (alter tostring_slot 0%nat st))
                h fs af lg mn) as Hnew.
  cbv zeta in Hnew.
  rewrite !is_function_tostring_slot, !frame_arg_tostring_slot in Hnew by done.
  destruct (is_function (st !! 2%nat)).
  - by rewrite Hnew.
  - destruct Hnew as [L' ->]. by eexists.
Qed.

(** The constructor of a filter, on the frame [st] of the registration
    call. *)
Lemma LuaFeatureFilter_new_spec _name _description _merit st h fs af lg mn :
  let m := mk_Machine (mk_lua_State st h) fs af lg mn in
  if is_function (st !! 3%nat) then
    LuaFeatureFilter_new _name _description _merit m
    = Ok tt
        (mk_Machine
           (mk_lua_State st
              (registered_heap h (frame_arg st h 3) (frame_arg st h 4)
                 (to_int (Z.of_nat (length fs)))))
           (fs ++ [FeatureFilter
                       (mk_LuaFeatureFilter _name _description _merit
                          (is_function (st !! 4%nat)) None
                          (to_int (Z.of_nat (length fs))))])
             af lg mn)
  else
    ∃ L',
      LuaFeatureFilter_new _name _description _merit m
      = Raise (LString filter_error) (mk_Machine L' fs af lg mn).
Proof.
  intros m. subst m.
  unfold LuaFeatureFilter_new, bind, lua, ask, api, set_lua.
  cbn [m_lua m_features m_assfiles m_log m_main].
  change (lua_newtable (mk_lua_State st h))
    with (mk_lua_State (st ++ [LTable (length h)]) (h ++ [[]])).
  change (lua_isfunction (mk_lua_State (st ++ [LTable (length h)]) (h ++ [[]])) 4)
    with (is_function ((st ++ [LTable (length h)]) !! 3%nat)).
  rewrite is_function_app_table.
  destruct (is_function (st !! 3%nat));
    cbn [ret m_lua m_features m_assfiles m_log m_main].
  - change (lua_pushvalue (mk_lua_State (st ++ [LTable (length h)]) (h ++ [[]])) 4)
      with (mk_lua_State
              ((st ++ [LTable (length h)])
               ++ [default LNil ((st ++ [LTable (length h)]) !! 3%nat)])
              (h ++ [[]])).
    rewrite <- app_assoc. cbn [app]. rewrite lua_rawseti_below.
    set (h2 := raw_store _ _ _ _).
    change (lua_pushvalue (mk_lua_State (st ++ [LTable (length h)]) h2) 5)
      with (mk_lua_State
              ((st ++ [LTable (length h)])
               ++ [default LNil ((st ++ [LTable (length h)]) !! 4%nat)])
              h2).
    rewrite <- app_assoc. cbn [app].
    unfold lua_isfunction. rewrite index2adr_top_2, lua_rawseti_below.
    set (h3 := raw_store _ _ _ _).
    rewrite LuaFeature_RegisterFeature_spec. cbv zeta.
    cbn [m_lua m_features m_assfiles m_log m_main].
    rewrite lua_pop_1, length_app. cbn [length].
    replace (Z.of_nat (length fs + 1) - 1) with (Z.of_nat (length fs)) by lia.
    do 2 f_equal.
    cbn [set_myid filter_name filter_description filter_merit has_config
           config_dialog].
    do 3 f_equal. f_equal.
    rewrite <- (is_function_app_table st (length h) 4%nat).
    by destruct ((st ++ [LTable (length h)]) !! 4%nat) as [[]|].
  - unfold lua_error. cbn [m_lua].
    unfold lua_pushstring, push, set_stack. cbn [stack heap].
    rewrite <- app_assoc. cbn [app]. rewrite value_at_top_2.
    by eexists.
Qed.

(** [aegisub.register_filter] on the frame [st]. *)
Lemma LuaFeatureFilter_LuaRegister_spec st h fs af lg mn :
  let m := mk_Machine (mk_lua_State st h) fs af lg mn in
  if is_function (st !! 3%nat) then
    LuaFeatureFilter_LuaRegister m
    = Ok 0
        (mk_Machine
           (mk_lua_State
              (alter tostring_slot 1%nat (alter tostring_slot 0%nat st))
              (registered_heap h (frame_arg st h 3) (frame_arg st h 4)
                 (to_int (Z.of_nat (length fs)))))
           (fs ++ [FeatureFilter
                       (mk_LuaFeatureFilter
                          (string_arg (st !! 0%nat)) (string_arg (st !! 1%nat))
                          (to_int (integer_arg (st !! 2%nat)))
                          (is_function (st !! 4%nat)) None
                          (to_int (Z.of_nat (length fs))))])
             af lg mn)
  else
    ∃ L',
      LuaFeatureFilter_LuaRegister m
      = Raise (LString filter_error) (mk_Machine L' fs af lg mn).
Proof.
  intros m. subst m.
  unfold LuaFeatureFilter_LuaRegister, bind, tostring, ask, set_lua.
  cbn [m_lua m_features m_assfiles m_log m_main].
  rewrite lua_tostring_1. cbn [m_lua m_features m_assfiles m_log m_main].
  rewrite lua_tostring_2. cbn [m_lua m_features m_assfiles m_log m_main].
  rewrite !wxString_tostring, list_lookup_alter_ne by done.
  change (lua_tointeger
            (mk_lua_State
               (alter tostring_slot 1%nat (alter tostring_slot 0%nat st)) h) 3)
    with (integer_arg
            (alter tostring_slot 1%nat (alter tostring_slot 0%nat st) !! 2%nat)).
  rewrite !list_lookup_alter_ne by done.
  pose proof (LuaFeatureFilter_new_spec (string_arg (st !! 0%nat))
                (string_arg (st !! 1%nat)) (to_int (integer_arg (st !! 2%nat)))
                (alter tostring_slot 1%nat (alter tostring_slot 0%nat st))
                h fs af lg mn) as Hnew.
  cbv zeta in Hnew.
  rewrite !is_function_tostring_slot, !frame_arg_tostring_slot in Hnew by done.
  destruct (is_function (st !! 3%nat)).
  - by rewrite Hnew.
  - destruct Hnew as [L' ->]. by eexists.
Qed.

(** A registration call whose processing argument is a function appends
    the feature, with the next index, and returns to the caller's frame. *)
Lemma call_register_ok kind args m :
  is_function (args !! processing_position kind) = true →
  let h := heap (m_lua m) in
  call_value (register_function kind) args m
  = Ok []
      (mk_Machine
         (mk_lua_State (stack (m_lua m))
            (registered_heap h
               (frame_arg args h (processing_position kind))
               (frame_arg args h (S (processing_position kind)))
               (to_int (Z.of_nat (length (m_features m))))))
         (m_features m
          ++ [feature_of_call kind args
                (to_int (Z.of_nat (length (m_features m))))])
         (m_assfiles m) (m_log m) (m_main m)).
Proof.
  intros Hf. destruct m as [[st h] fs af lg mn].
  destruct kind; cbn [register_function register_macro register_filter
                      call_value processing_position] in *;
    unfold with_frame, bind, api, set_lua, set_stack;
    cbn [m_lua m_features m_assfiles m_log m_main stack heap].
  - pose proof (LuaFeatureMacro_LuaRegister_spec args h fs af lg mn) as Hr.
    cbv zeta in Hr. rewrite Hf in Hr. by rewrite Hr.
  - pose proof (LuaFeatureFilter_LuaRegister_spec args h fs af lg mn) as Hr.
    cbv zeta in Hr. rewrite Hf in Hr. by rewrite Hr.
Qed.

(** A registration call whose processing argument is not a function raises
    an error and leaves the feature list as it was. *)
Lemma call_register_fails kind args m :
  is_function (args !! processing_position kind) = false →
  ∃ m',
    call_value (register_function kind) args m
    = Raise (LString (registration_error kind)) m'
    ∧ m_features m' = m_features m.
Proof.
  intros Hf. destruct m as [[st h] fs af lg mn].
  destruct kind; cbn [register_function register_macro register_filter
                      call_value processing_position] in *;
    unfold with_frame, bind, api, set_lua, set_stack;
    cbn [m_lua m_features m_assfiles m_log m_main stack heap].
  - pose proof (LuaFeatureMacro_LuaRegister_spec args h fs af lg mn) as Hr.
    cbv zeta in Hr. rewrite Hf in Hr. destruct Hr as (L' & ->).
    by eexists.
  - pose proof (LuaFeatureFilter_LuaRegister_spec args h fs af lg mn) as Hr.
    cbv zeta in Hr. rewrite Hf in Hr. destruct Hr as (L' & ->).
    by eexists.
Qed.

(** A registration pass, started with the features [m_features m]: the
    new features follow them, in the order of the calls, each with its
    position as index. *)
Lemma registration_pass_from calls m :
  Forall well_formed_call calls →
  Z.of_nat (length (m_features m) + length calls) <= INT_MAX + 1 →
  ∃ m',
    run_chunk (registration_pass calls) m = Ok tt m'
    ∧ m_features m'
      = m_features m
        ++ imap (λ i call,
                 feature_of_call call.1 call.2
                   (Z.of_nat (length (m_features m) + i))) calls.
Proof.
  intros Hwf. revert m.
  induction Hwf as [|[kind args] calls Hc _ IH]; intros m Hlen.
  - exists m. by rewrite app_nil_r.
  - cbn [registration_pass run_chunk]. unfold bind.
    rewrite (call_register_ok kind args m Hc). cbv zeta.
    set (m1 := mk_Machine _ _ _ _ _).
    destruct (IH m1) as (m' & Hrun & Hfs).
    { subst m1. cbn [m_features length] in *. rewrite length_app.
      cbn [length] in *. lia. }
    exists m'. split; [done |]. rewrite Hfs. subst m1. cbn [m_features].
    rewrite <- app_assoc. f_equal. cbn [imap app fst snd]. f_equal.
    + rewrite Nat.add_0_r. f_equal. apply to_int_id. int_lia.
    + apply imap_ext. intros i call _. cbn. f_equal.
      rewrite length_app. cbn [length]. lia.
Qed.

(** After a registration, [GetFeatureFunction] finds the processing
    function of the new feature under its index, and what it finds under
    the other indices has not changed. *)
Lemma registered_feature_function h fr F V id st st' :
  registry_inv h fr → F ≠ LNil →
  let h' := registered_heap h F V id in
  feature_function (mk_lua_State st' h') id 1 = F
  ∧ ∀ id' k, id' ≠ id →
      feature_function (mk_lua_State st' h') id' k
      = feature_function (mk_lua_State st h) id' k.
Proof.
  intros Hinv HF h'.
  destruct (registered_heap_spec h fr F V id Hinv HF)
    as ((Hreg' & _) & Hfr & Hnew & Hold).
  destruct Hinv as (Hreg & _ & _ & Hent).
  fold h' in Hreg', Hfr, Hnew, Hold.
  unfold feature_function. cbn [heap]. rewrite Hreg', Hreg, !Hfr. split.
  - by rewrite lua_rawequal_refl.
  - intros id' k Hid. rewrite Hfr, lua_rawequal_cast.
    destruct (Z.eqb_spec id id'); [congruence |].
    destruct (raw_index h (LTable fr) (LNumber (cast_num id'))) as [| | | |t| | |]
      eqn:Et; try done.
    destruct (Hent _ _ Et). by apply Hold.
Qed.

(** A registration pass, on the Lua side: afterwards [GetFeatureFunction]
    finds, under the index of each call, the processing function that the
    call was given. *)
Lemma registration_pass_lua calls m fr :
  Forall well_formed_call calls →
  Z.of_nat (length (m_features m) + length calls) <= INT_MAX + 1 →
  registry_inv (heap (m_lua m)) fr →
  ∃ m',
    run_chunk (registration_pass calls) m = Ok tt m'
    ∧ registry_inv (heap (m_lua m')) fr
    ∧ (∀ id k,
         ¬ (Z.of_nat (length (m_features m)) <= id
            < Z.of_nat (length (m_features m) + length calls)) →
         feature_function (m_lua m') id k = feature_function (m_lua m) id k)
    ∧ ∀ (i : nat) call,
        calls !! i = Some call →
        feature_function (m_lua m') (Z.of_nat (length (m_features m) + i)) 1
        = default LNil (call.2 !! processing_position call.1).
Proof.
  intros Hwf. revert m.
  induction Hwf as [|[kind args] calls Hc _ IH]; intros m Hlen Hinv.
  - exists m. split; [done |]. split; [done |]. by split.
  - cbn [registration_pass run_chunk]. unfold bind.
    rewrite (call_register_ok kind args m Hc). cbv zeta.
    assert (to_int (Z.of_nat (length (m_features m)))
            = Z.of_nat (length (m_features m))) as Hid
      by (apply to_int_id; int_lia).
    rewrite !Hid.
    set (h := heap (m_lua m)) in *.
    set (F := frame_arg args h (processing_position kind)).
    set (V := frame_arg args h (S (processing_position kind))).
    set (m1 := mk_Machine _ _ _ _ _).
    unfold well_formed_call in Hc. cbn [fst snd] in Hc.
    assert (F = default LNil (args !! processing_position kind)) as HF.
    { subst F. unfold frame_arg.
      destruct (args !! processing_position kind) as [v|] eqn:Ea; [| done].
      by rewrite (lookup_app_l_Some _ _ _ _ Ea). }
    assert (F ≠ LNil) as HFn.
    { rewrite HF. by destruct (args !! processing_position kind) as [[]|]. }
    destruct (registered_heap_spec h fr F V
                (Z.of_nat (length (m_features m))) Hinv HFn)
      as (Hinv1 & _).
    destruct (registered_feature_function h fr F V
                (Z.of_nat (length (m_features m)))
                (stack (m_lua m)) (stack (m_lua m)) Hinv HFn)
      as (Hnew & Hold).
    assert (mk_lua_State (stack (m_lua m)) h = m_lua m) as Em
      by (subst h; by destruct (m_lua m)).
    rewrite Em in Hold.
    destruct (IH m1) as (m' & Hrun & Hinv' & Hkeep & Hget).
    { subst m1. cbn [m_features]. rewrite length_app. int_lia. }
    { exact Hinv1. }
    assert (length (m_features m1) = S (length (m_features m))) as Hl1.
    { subst m1. cbn [m_features]. rewrite length_app. simpl. lia. }
    rewrite Hl1 in Hkeep, Hget.
    exists m'. split; [done |]. split; [done |]. split.
    + intros id k Hid'. rewrite Hkeep by (cbn [length] in *; lia).
      apply Hold. cbn [length] in *. lia.
    + intros [|i] call Hi.
      * injection Hi as <-. cbn [fst snd]. rewrite Nat.add_0_r.
        rewrite Hkeep by lia. by rewrite <- HF.
      * cbn in Hi. rewrite <- (Hget i call Hi). f_equal. lia.
Qed.

End Registration.

(** ** The environment of a script *)

Section Environment.
Context `{Collaborators}.

Lemma add_include_dirs dirs s h p :
  ∃ p', foldl add_include_dir (mk_lua_State (s ++ [LString p]) h) dirs
        = mk_lua_State (s ++ [LString p']) h.
Proof.
  revert p. induction dirs as [|d dirs IH]; intros p; [by exists p |].
  cbn [foldl]. unfold add_include_dir at 2, lua_pushstring, push, set_stack.
  cbn [stack heap]. rewrite <- app_assoc. cbn [app].
  unfold lua_concat2. rewrite value_at_below, value_at_top_2.
  assert (lua_pop (mk_lua_State (s ++ [LString p; LString (";" +:+ d +:+ "?.lua;" +:+ d +:+ "?/init.lua")]) h) 2
          = mk_lua_State s h) as ->.
  { unfold lua_pop, set_stack. cbn [stack heap]. f_equal.
    rewrite length_app. cbn [length].
    replace (length s + 2 - Z.to_nat 2)%nat with (length s) by lia.
    apply take_app_length. }
  apply IH.
Qed.

(** [Create] gives the script a registry whose table of features is table
    9, empty, and an empty stack. *)
Lemma Create_environment_registry this :
  stack (Create_environment this) = []
  ∧ registry_inv (heap (Create_environment this)) 9.
Proof.
  unfold Create_environment.
  match goal with
  | |- context [foldl add_include_dir ?L0 include_dirs] =>
      let L1 := eval vm_compute in L0 in
      change L0 with L1
  end.
  match goal with
  | |- context [foldl add_include_dir
                  (mk_lua_State [?a; ?b; LString ?p] ?h0) include_dirs] =>
      destruct (add_include_dirs include_dirs [a; b] h0 p) as [p' Hp]
  end.
  cbn [app] in Hp. rewrite Hp. clear Hp.
  split; [vm_compute; reflexivity |].
  match goal with
  | |- registry_inv (heap ?L0) _ =>
      let L1 := eval vm_compute in L0 in
      change L0 with L1
  end.
  cbn [heap]. unfold registry_inv.
  split; [reflexivity |]. split; [done |]. split; [cbn [length]; lia |].
  intros k t Ht. cbn in Ht. discriminate.
Qed.

End Environment.

(** ** Claim C7: the indices of the registry *)

Section Registry.
Context `{Collaborators}.

Lemma Destroy_features s : script_consistent s → features (Destroy s) = [].
Proof.
  unfold script_consistent, Destroy. destruct (L s); [done | by intros ->].
Qed.

Lemma Script_new_consistent this filename :
  script_consistent (Script_new this filename).
Proof. done. Qed.

(** The [try] block of [Create] works on a live Lua state, whether it ends
    normally or throws. *)
Lemma Create_try_live file s : is_Some (L (Create_try file s).2).
Proof.
  unfold Create_try. destruct file as [msg|c].
  - by destruct (lua_tostring _ _).
  - destruct (lua_pcall _ _ _) as [status m].
    destruct (negb (status =? 0)); [by destruct (lua_tostring _ _) |].
    destruct (lua_isnumber _ _ && _); [done |].
    by repeat destruct (get_global_string _ _).
Qed.

Lemma Destroy_live s :
  is_Some (L s) →
  Destroy s
  = mk_LuaScript (script_addr s) (filename s) (name s) (description s)
      (author s) (version s) [] None.
Proof. intros [st Hs]. unfold Destroy. by rewrite Hs. Qed.

Lemma Create_consistent file s : script_consistent (Create file s).
Proof.
  unfold Create. pose proof (Create_try_live file (Destroy s)) as Hlive.
  destruct (Create_try file (Destroy s)) as [[e|] s']; cbn [snd] in Hlive.
  - intros _. by rewrite Destroy_live.
  - intros Hn. rewrite Hn in Hlive. by destruct Hlive.
Qed.

(** C7.  In every script object, a registration pass of [N] calls, each
    with a function as processing argument, gives the features the indices
    0, 1, ..., N-1 in the order of the calls: the feature list that
    [Create] starts the pass with is empty, and after the pass its entry
    [i] is the record of call [i], whose [myid] is [i]; on the Lua side,
    [GetFeatureFunction] finds under the index [i] the processing function
    of call [i].  The indices are [int]s, so [N] is at most
    [INT_MAX + 1]. *)
Theorem registry_indices calls s :
  script_consistent s →
  Forall well_formed_call calls →
  Z.of_nat (length calls) <= INT_MAX + 1 →
  let c := registration_pass calls in
  ∃ m',
    run_chunk c (load_machine (Destroy s) c) = Ok tt m'
    ∧ m_features m'
      = imap (λ i call, feature_of_call call.1 call.2 (Z.of_nat i)) calls
    ∧ ∀ (i : nat) call,
        calls !! i = Some call →
        m_features m' !! i = Some (feature_of_call call.1 call.2 (Z.of_nat i))
        ∧ feature_myid (feature_of_call call.1 call.2 (Z.of_nat i))
          = Z.of_nat i
        ∧ feature_function (m_lua m') (Z.of_nat i) 1
          = default LNil (call.2 !! processing_position call.1).
Proof.
  intros Hs Hwf Hlen c.
  destruct (registration_pass_from calls (load_machine (Destroy s) c) Hwf)
    as (m' & Hrun & Hfs).
  { cbn [load_machine m_features]. rewrite Destroy_features by done.
    cbn [length]. lia. }
  destruct (registration_pass_lua calls (load_machine (Destroy s) c) 9 Hwf)
    as (m'' & Hrun' & _ & _ & Hlua).
  { cbn [load_machine m_features]. rewrite Destroy_features by done.
    cbn [length]. lia. }
  { apply Create_environment_registry. }
  rewrite Hrun in Hrun'. injection Hrun' as <-.
  cbn [load_machine m_features] in Hfs, Hlua.
  rewrite Destroy_features in Hfs, Hlua by done.
  cbn [app length] in Hfs, Hlua.
  exists m'. split; [done |]. split; [done |].
  intros i call Hi. split; [| split].
  - rewrite Hfs, list_lookup_imap, Hi. done.
  - by destruct call as [[] args].
  - exact (Hlua i call Hi).
Qed.

End Registry.

(** The four registration calls of the sample script, in a script object
    that has just been constructed. *)
Lemma registry_indices_witness :
  let c := registration_pass sample_calls in
  ∃ m',
    run_chunk (H := sample_collaborators) c
      (load_machine (H := sample_collaborators)
         (Destroy (Script_new 7 "sample.lua")) c) = Ok tt m'
    ∧ m_features m'
      = [FeatureMacro macro_Pick; FeatureMacro macro_Keep;
         FeatureMacro macro_Broken; FeatureFilter filter_Clean].
Proof.
  intros c.
  destruct (registry_indices (H := sample_collaborators) sample_calls
              (Script_new 7 "sample.lua"))
    as (m' & Hrun & Hfs & _).
  - apply Script_new_consistent.
  - repeat constructor.
  - vm_compute. congruence.
  - exists m'. split; [exact Hrun |]. rewrite Hfs. vm_compute. reflexivity.
Defined.

(** ** Claim C10: a validation argument that is not a function *)

Section NoValidator.
Context `{Collaborators}.

(** C10.  A registration of a macro whose fourth argument is present but
    is not a function is accepted: the call returns, and it registers the
    same feature as the call without the fourth argument does, one whose
    [no_validate] is set.  For such a macro [Validate] returns true for
    every input and leaves the machine as it is: no script code runs. *)
Theorem non_function_validator_is_absent args m :
  is_function (args !! 2%nat) = true →
  is_function (args !! 3%nat) = false →
  let this :=
    mk_LuaFeatureMacro (string_arg (args !! 0%nat)) (string_arg (args !! 1%nat))
      true (to_int (Z.of_nat (length (m_features m)))) in
  (∃ m', call_value register_macro args m = Ok [] m'
         ∧ m_features m' = m_features m ++ [FeatureMacro this])
  ∧ (∃ m', call_value register_macro (take 3 args) m = Ok [] m'
           ∧ m_features m' = m_features m ++ [FeatureMacro this])
  ∧ ∀ subs selected active m0,
      Validate this subs selected active m0 = (true, m0).
Proof.
  intros Hf Hv this.
  change register_macro with (register_function KindMacro).
  split; [| split].
  - rewrite (call_register_ok KindMacro args m Hf).
    eexists. split; [done |]. cbn [m_features feature_of_call].
    by rewrite Hv.
  - assert (is_function (take 3 args !! 2%nat) = true) as Hf'
      by (by rewrite lookup_take_lt by lia).
    rewrite (call_register_ok KindMacro (take 3 args) m Hf').
    eexists. split; [done |]. cbn [m_features feature_of_call].
    rewrite !lookup_take_lt by lia.
    by rewrite (lookup_take_ge args 3 3) by lia.
  - done.
Qed.

End NoValidator.

(** A macro registered with the string "none" in the place of the
    validation function. *)
Lemma non_function_validator_witness :
  let args := [LString "Keep"; LString ""; LFunction (LuaFn 0); LString "none"] in
  (∃ m', call_value (H := sample_collaborators) register_macro args
           sample_machine = Ok [] m'
         ∧ m_features m'
           = m_features sample_machine
             ++ [FeatureMacro (mk_LuaFeatureMacro "Keep" "" true 4)])
  ∧ Validate (H := sample_collaborators)
      (mk_LuaFeatureMacro "Keep" "" true 4) 0 [0] 0 sample_machine
    = (true, sample_machine).
Proof.
  intros args.
  destruct (non_function_validator_is_absent (H := sample_collaborators)
              args sample_machine eq_refl eq_refl) as (Hreg & _ & Hval).
  split.
  - destruct Hreg as (m' & Hcall & Hfs). exists m'. split; [exact Hcall |].
    rewrite Hfs. vm_compute. reflexivity.
  - exact (Hval 0%nat [0] 0 sample_machine).
Defined.

(** ** Loading a script *)

Section Loading.
Context `{Collaborators}.

Lemma lua_getglobal_spec st h k :
  lua_getglobal (mk_lua_State st h) k
  = mk_lua_State (st ++ [global (mk_lua_State st h) k]) h.
Proof. done. Qed.

Lemma declares_automation3_iff L0 :
  declares_automation3 L0 ↔ is_automation3 (global L0 "version") = true.
Proof.
  unfold declares_automation3, is_automation3. split.
  - intros (n & -> & Hn). by apply Z.eqb_eq.
  - destruct (luaV_tonumber _) as [n|]; [| done].
    intros Hn. exists n. split; [done | by apply Z.eqb_eq].
Qed.

Lemma version_check st h v :
  lua_isnumber (mk_lua_State (st ++ [v]) h) (-1)
  && (lua_tointeger (mk_lua_State (st ++ [v]) h) (-1) =? 3)
  = is_automation3 v.
Proof.
  unfold lua_isnumber, lua_tointeger, is_automation3.
  rewrite index2adr_top. cbn [mbind option_bind].
  by destruct (luaV_tonumber v).
Qed.

(** The protected call of the main chunk runs the chunk. *)
Lemma lua_pcall_main st h fs af lg c :
  lua_pcall 0 0
    (mk_Machine (mk_lua_State (st ++ [LFunction MainChunk]) h) fs af lg c)
  = match run_chunk c (mk_Machine (mk_lua_State st h) fs af lg c) with
    | Ok _ m' => (0, api (λ L0, set_stack L0 st) m')
    | Raise e m' => (LUA_ERRRUN, api (λ L0, set_stack L0 (st ++ [e])) m')
    end.
Proof.
  unfold lua_pcall. cbn [m_lua stack m_main Z.to_nat].
  rewrite length_app. cbn [length].
  replace (length st + 1 - Z.to_nat 0 - 1)%nat with (length st) by lia.
  rewrite take_app_length, list_lookup_middle by done.
  cbn [default from_option id]. unfold bind, api, set_lua, set_stack.
  cbn [m_lua m_features m_assfiles m_log m_main stack heap].
  destruct (run_chunk c _) as [[] m'|e m']; [| done].
  cbn [ret adjust_results Z.ltb Z.compare Z.to_nat take app replicate].
  by rewrite app_nil_r.
Qed.

(** What the [try] block of [Create] does with a script that parses, in
    terms of the run of its main chunk. *)
Lemma Create_try_Parsed c s :
  (Create_try (Parsed c) s).1
  = match run_chunk c (load_machine s c) with
    | Raise e _ =>
        Some (ScriptLoadError
                (init_error_message (PrettyFilename (filename s))
                   (string_arg (Some e))))
    | Ok _ m' =>
        if is_automation3 (global (m_lua m') "version")
        then Some (ScriptLoadError automation3_message)
        else None
    end.
Proof.
  unfold Create_try, load_machine.
  destruct (Create_environment (script_addr s)) as [st h].
  unfold api, set_main, set_lua, push, set_stack.
  cbn [m_lua m_features m_assfiles m_log m_main stack heap].
  rewrite lua_pcall_main.
  destruct (run_chunk c _) as [[] m'|e m'].
  - cbn [Z.eqb negb]. destruct m' as [[st' h'] fs' af' lg' mn'].
    unfold api, set_lua, set_stack.
    cbn [m_lua m_features m_assfiles m_log m_main stack heap].
    rewrite lua_getglobal_spec, version_check.
    change (global {| stack := st; heap := h' |} "version")
      with (global {| stack := st'; heap := h' |} "version").
    destruct (is_automation3 _); [done |].
    by repeat destruct (get_global_string _ _).
  - change (negb (LUA_ERRRUN =? 0)) with true. cbv iota.
    destruct m' as [[st' h'] fs' af' lg' mn'].
    unfold api, set_lua, set_stack.
    cbn [m_lua m_features m_assfiles m_log m_main stack heap].
    pose proof (lua_tostring_top st h' e) as Ht.
    destruct (lua_tostring _ _) as [err L']. cbn [fst] in *. by rewrite Ht.
Qed.

(** A thrown exception leaves the script object with its attributes. *)
Lemma Create_try_thrown file s e s' :
  Create_try file s = (Some e, s') → ∃ m, s' = save s m.
Proof.
  unfold Create_try. destruct file as [msg|c].
  - destruct (lua_tostring _ _). intros [= _ <-]. by eexists.
  - destruct (lua_pcall _ _ _) as [status m].
    destruct (negb (status =? 0)).
    + destruct (lua_tostring _ _). intros [= _ <-]. by eexists.
    + destruct (lua_isnumber _ _ && _).
      * intros [= _ <-]. by eexists.
      * by repeat destruct (get_global_string _ _).
Qed.

(** The handler of [Create]: a load that threw leaves a script without a
    Lua state and without features, named after its file and described by
    the message of the exception; the other attributes stay. *)
Lemma Create_failure file s msg :
  (Create_try file (Destroy s)).1 = Some (ScriptLoadError msg) →
  Create file s = failed_script s msg.
Proof.
  unfold Create. destruct (Create_try file (Destroy s)) as [e s'] eqn:Etry.
  cbn [fst]. intros ->.
  destruct (Create_try_thrown _ _ _ _ Etry) as [m ->].
  unfold Destroy, save, failed_script.
  cbn [L script_addr filename name description author version features
         GetChainedMessage].
  by destruct (L s).
Qed.

(** C3, as amended.  The [try] block of [Create] throws, and what it
    throws is a [ScriptLoadError], exactly when the script does not parse,
    or the run of its main chunk ends with an error, or the run ends
    normally and the global [version] is numeric in the sense of
    [lua_isnumber] (a number, or a string that reads as one) and
    [lua_tointeger], which drops the fractional part, gives 3 for it: the
    numbers from 3 up to, but not including, 4.  After every such failure
    [Create] leaves the script object described by the message of the
    failure, named after its file, without a Lua state and without
    features. *)
Theorem Create_fails_exactly file s :
  let s0 := Destroy s in
  (is_Some (Create_try file s0).1
   ↔ (∃ msg, file = ParseError msg)
     ∨ (∃ c e m',
          file = Parsed c ∧ run_chunk c (load_machine s0 c) = Raise e m')
     ∨ (∃ c m',
          file = Parsed c ∧ run_chunk c (load_machine s0 c) = Ok tt m'
          ∧ declares_automation3 (m_lua m')))
  ∧ ∀ msg,
      (Create_try file s0).1 = Some (ScriptLoadError msg) →
      Create file s = failed_script s msg
      ∧ description (Create file s) = msg
      ∧ name (Create file s) = PrettyFilename (filename s)
      ∧ L (Create file s) = None
      ∧ features (Create file s) = [].
Proof.
  intros s0. split.
  - destruct file as [msg|c].
    + split; [intros _; left; by eexists |]. intros _.
      unfold Create_try. by destruct (lua_tostring _ _).
    + rewrite Create_try_Parsed. split.
      * destruct (run_chunk c _) as [[] m'|e m'] eqn:Erun.
        -- destruct (is_automation3 _) eqn:E3; [| by intros [? ?]].
           intros _. right. right. exists c, m'.
           by rewrite declares_automation3_iff.
        -- intros _. right. left. by exists c, e, m'.
      * intros [(msg & ?)|[(c' & e & m' & [= <-] & ->)
                          |(c' & m' & [= <-] & -> & H3)]]; [done | done |].
        apply declares_automation3_iff in H3. by rewrite H3.
  - intros msg Hthrow. by rewrite (Create_failure _ _ _ Hthrow).
Qed.

(** C9.  When a load fails, whatever the script object went through
    before, the handler of [Create] sets the name and the description and
    leaves the author and the version as they were. *)
Theorem Create_failure_keeps_author_version file s msg :
  (Create_try file (Destroy s)).1 = Some (ScriptLoadError msg) →
  author (Create file s) = author s
  ∧ version (Create file s) = version s
  ∧ name (Create file s) = PrettyFilename (filename s)
  ∧ description (Create file s) = msg.
Proof. intros Hthrow. by rewrite (Create_failure _ _ _ Hthrow). Qed.

(** C8, as amended.  A registration of a macro or of a filter whose
    processing argument is not a function raises a Lua error with the
    message of its kind and adds no feature.  When the run of the script's
    main chunk comes down to that call outside a protected call of the
    script, [Create] fails with the [ScriptLoadError] that carries the
    message. *)
Theorem registration_requires_function kind args k m s c :
  is_function (args !! processing_position kind) = false →
  run_chunk c (load_machine (Destroy s) c)
  = run_chunk (ChunkCall (register_function kind) args k) m →
  (∃ m',
     run_chunk (ChunkCall (register_function kind) args k) m
     = Raise (LString (registration_error kind)) m'
     ∧ m_features m' = m_features m)
  ∧ (Create_try (Parsed c) (Destroy s)).1
    = Some (ScriptLoadError
              (init_error_message (PrettyFilename (filename s))
                 (registration_error kind)))
  ∧ Create (Parsed c) s
    = failed_script s
        (init_error_message (PrettyFilename (filename s))
           (registration_error kind)).
Proof.
  intros Hf Hreach.
  destruct (call_register_fails kind args m Hf) as (m' & Hcall & Hfs).
  assert (run_chunk (ChunkCall (register_function kind) args k) m
          = Raise (LString (registration_error kind)) m') as Hrun.
  { cbn [run_chunk]. unfold bind. by rewrite Hcall. }
  assert ((Create_try (Parsed c) (Destroy s)).1
          = Some (ScriptLoadError
                    (init_error_message (PrettyFilename (filename s))
                       (registration_error kind)))) as Hthrow.
  { rewrite Create_try_Parsed, Hreach, Hrun. cbn [string_arg].
    unfold Destroy. by destruct (L s). }
  split; [by exists m' |]. split; [done |].
  by apply Create_failure.
Qed.

End Loading.

(** A script whose global [version] is 3 is refused, and has no features. *)
Example automation3_script_is_refused :
  let s := LuaScript_new (H := sample_collaborators) 7 "old.lua"
             (Parsed (ChunkSetGlobal "version" (LNumber (cast_num 3))
                        (registration_pass sample_calls))) in
  description s = automation3_message ∧ features s = [] ∧ L s = None.
Proof. vm_compute. done. Qed.

(** The claim C3 as stated fails for the script
<<
  version = 3.2
>>
    The file parses and the run of its main chunk ends without an error;
    the global [version] is a number that is not equal to 3, so that none
    of the three causes of the claim holds.  Still [lua_tointeger] gives 3
    for it, and the load fails as for an Automation 3 script. *)
Lemma fractional_version_is_refused :
  let file := Parsed (ChunkSetGlobal "version" (LNumber (16 # 5)) ChunkReturn) in
  let s := Script_new 7 "new.lua" in
  (Create_try (H := sample_collaborators) file (Destroy s)).1
  = Some (ScriptLoadError automation3_message)
  ∧ description (Create (H := sample_collaborators) file s)
    = automation3_message
  ∧ ¬ ((∃ msg, file = ParseError msg)
       ∨ (∃ c e m',
            file = Parsed c
            ∧ run_chunk (H := sample_collaborators) c
                (load_machine (H := sample_collaborators) (Destroy s) c)
              = Raise e m')
       ∨ (∃ c m',
            file = Parsed c
            ∧ run_chunk (H := sample_collaborators) c
                (load_machine (H := sample_collaborators) (Destroy s) c)
              = Ok tt m'
            ∧ version_equals_3 (m_lua m'))).
Proof.
  intros file s. split; [vm_compute; reflexivity |].
  split; [vm_compute; reflexivity |].
  intros [(msg & Hf) | [(c & e & m' & Hf & Hr) | (c & m' & Hf & Hr & n & Hg & Hn)]].
  - discriminate Hf.
  - injection Hf as <-. vm_compute in Hr. discriminate Hr.
  - injection Hf as <-. vm_compute in Hr. injection Hr as <-.
    vm_compute in Hg. injection Hg as <-. vm_compute in Hn. discriminate Hn.
Qed.

(** The sample script is loaded again, from a file that does not parse. *)
Lemma Create_failure_keeps_author_version_witness :
  let s := Reload (H := sample_collaborators)
             (ParseError "sample.lua:1: unexpected symbol") sample_script in
  author s = "A. N. Author"%string
  ∧ version s = ""%string
  ∧ name s = "sample.lua"%string
  ∧ description s
    = load_error_message "sample.lua" "sample.lua:1: unexpected symbol".
Proof.
  exact (Create_failure_keeps_author_version (H := sample_collaborators)
           (ParseError "sample.lua:1: unexpected symbol") sample_script
           (load_error_message "sample.lua" "sample.lua:1: unexpected symbol")
           ltac:(vm_compute; reflexivity)).
Defined.

(** A script that sets its name and then registers a macro without a
    processing function. *)
Lemma registration_requires_function_witness :
  let bad := [LString "Pick"; LString ""; LString "not a function"] in
  let c := ChunkCall register_macro bad (λ _, registration_pass sample_calls) in
  let s := LuaScript_new (H := sample_collaborators) 7 "bad.lua" (Parsed c) in
  description s = init_error_message "bad.lua" macro_error
  ∧ features s = [] ∧ L s = None.
Proof.
  intros bad c s.
  destruct (registration_requires_function (H := sample_collaborators)
              KindMacro bad (λ _, registration_pass sample_calls)
              (load_machine (H := sample_collaborators)
                 (Destroy (Script_new 7 "bad.lua")) c)
              (Script_new 7 "bad.lua") c eq_refl eq_refl)
    as (_ & _ & Hcreate).
  assert (s = failed_script (H := sample_collaborators)
                (Script_new 7 "bad.lua")
                (init_error_message "bad.lua" macro_error)) as ->
    by exact Hcreate.
  repeat split.
Defined.

(** The claim C8 as stated fails for a script that protects the
    registration call: in
<<
  pcall(aegisub.register_macro, "Pick", "", "not a function")
  aegisub.register_macro("Keep", "", f0)
>>
    the first registration raises its error, the script goes on, and the
    load succeeds with the second macro registered. *)
Lemma protected_registration_does_not_abort :
  let bad := [LString "Pick"; LString ""; LString "not a function"] in
  let c :=
    ChunkPCall (ChunkCall register_macro bad (λ _, ChunkReturn))
      (λ _, ChunkCall register_macro
              [LString "Keep"; LString ""; LFunction (LuaFn 0)]
              (λ _, ChunkReturn)) in
  let s0 := Destroy (Script_new 7 "bad.lua") in
  is_function (bad !! processing_position KindMacro) = false
  ∧ (Create_try (H := sample_collaborators) (Parsed c) s0).1 = None
  ∧ features (Create (H := sample_collaborators) (Parsed c) (Script_new 7 "bad.lua"))
    = [FeatureMacro (mk_LuaFeatureMacro "Keep" "" true 0)]
  ∧ L (Create (H := sample_collaborators) (Parsed c) (Script_new 7 "bad.lua"))
    ≠ None.
Proof. vm_compute. repeat split; congruence. Qed.

(** * Further properties *)

(** ** The array of a selection *)

Lemma luaH_mem_get t k : luaH_mem t k = false → luaH_get t k = LNil.
Proof.
  induction t as [|kv t IH]; simpl; [done |].
  intros Hm. apply orb_false_elim in Hm as [-> Hm]. by apply IH.
Qed.

Lemma luaH_get_int_array_from ints (i j : nat) x :
  ints !! j = Some x →
  luaH_get (int_array_from i ints) (LNumber (cast_num (Z.of_nat (i + j) + 1)))
  = LNumber (cast_num (to_int (x + 1))).
Proof.
  revert i j. induction ints as [|y ints IH]; intros i j Hj; [done |].
  cbn [int_array_from luaH_get]. unfold key_is. cbn [fst snd lua_rawequal].
  rewrite Qeq_bool_cast. destruct j as [|j].
  - injection Hj as ->. by rewrite Nat.add_0_r, Z.eqb_refl.
  - cbn in Hj.
    destruct (Z.eqb_spec (Z.of_nat i + 1) (Z.of_nat (i + S j) + 1)); [lia |].
    replace (i + S j)%nat with (S i + j)%nat by lia. by apply IH.
Qed.

(** X1.  [CreateIntegerArray] pushes one value, a new table, and changes no
    table that existed.  The new table is an array: under the key [i + 1]
    it holds element [i] of the vector plus one, for every position [i] of
    the vector, and it holds nothing under the other integers; so an empty
    vector gives an empty table.  The vector has at most [INT_MAX]
    elements. *)
Theorem CreateIntegerArray_array ints L0 :
  Z.of_nat (length ints) <= INT_MAX →
  let L1 := CreateIntegerArray ints L0 in
  let T := LTable (length (heap L0)) in
  stack L1 = stack L0 ++ [T]
  ∧ (∀ (i : nat) x, ints !! i = Some x →
       raw_index (heap L1) T (LNumber (cast_num (Z.of_nat i + 1)))
       = LNumber (cast_num (to_int (x + 1))))
  ∧ (∀ k, ¬ (1 <= k <= Z.of_nat (length ints)) →
       raw_index (heap L1) T (LNumber (cast_num k)) = LNil)
  ∧ (∀ r, (r < length (heap L0))%nat → heap L1 !! r = heap L0 !! r).
Proof.
  intros Hlen L1 T. subst L1 T. rewrite CreateIntegerArray_spec by done.
  cbn [stack heap raw_index].
  rewrite lookup_app_r, Nat.sub_diag by lia. cbn [lookup list_lookup default
    from_option id].
  split; [done |]. split; [| split].
  - intros i x Hi. by apply (luaH_get_int_array_from ints 0 i).
  - intros k Hk. apply luaH_mem_get, luaH_mem_int_array_from. lia.
  - intros r Hr. by rewrite lookup_app_l.
Qed.

(** The selection 5, 3, 9 as an array. *)
Lemma CreateIntegerArray_array_witness :
  let L1 := CreateIntegerArray [5; 3; 9] lua_open in
  stack L1 = [LTable 2]
  ∧ raw_index (heap L1) (LTable 2) (LNumber (cast_num 2))
    = LNumber (cast_num 4)
  ∧ raw_index (heap L1) (LTable 2) (LNumber (cast_num 4)) = LNil.
Proof.
  intros L1.
  destruct (CreateIntegerArray_array [5; 3; 9] lua_open)
    as (Hs & Hin & Hout & _); [vm_compute; congruence |].
  split; [exact Hs |]. split.
  - exact (Hin 1%nat 3 eq_refl).
  - apply (Hout 4). cbn [length]. lia.
Defined.

(** ** Reading the globals of a script *)

Section Globals.
Context `{Collaborators}.

(** [lua_tostring] on the value on top of the stack: the pointer it
    returns and the slot it leaves. *)
Lemma lua_tostring_top_state st h e :
  lua_tostring (mk_lua_State (st ++ [e]) h) (-1)
  = (match e with
     | LString s => Some s
     | LNumber n => Some (lua_number2str n)
     | _ => None
     end, mk_lua_State (st ++ [tostring_slot e]) h).
Proof.
  unfold lua_tostring. rewrite index2adr_top, stack_pos_top.
  destruct e; try done. unfold set_stack. cbn [stack heap tostring_slot].
  do 2 f_equal. by rewrite insert_app_r_alt, Nat.sub_diag by lia.
Qed.

Lemma get_global_string_spec L0 k :
  get_global_string L0 k = (string_arg (Some (global L0 k)), L0).
Proof.
  destruct L0 as [st h]. unfold get_global_string.
  rewrite lua_getglobal_spec.
  unfold lua_isstring. rewrite index2adr_top, lua_tostring_top_state.
  destruct (global _ k); cbn [string_arg wxString default from_option id
    tostring_slot]; by rewrite lua_pop_1.
Qed.

(** X2.  [get_global_string] leaves the Lua state exactly as it finds it,
    stack and tables.  It returns a global that is a string as it is, a
    global that is a number in Lua's print form, and the empty string for
    every other global, a global that is not set among them. *)
Theorem get_global_string_reads L0 k :
  (get_global_string L0 k).2 = L0
  ∧ (get_global_string L0 k).1
    = match global L0 k with
      | LString s => s
      | LNumber n => lua_number2str n
      | _ => ""%string
      end.
Proof.
  rewrite get_global_string_spec. split; [done |].
  by destruct (global L0 k).
Qed.

End Globals.

(** ** The stack discipline of the entry points *)

Section Balance.
Context `{Collaborators}.

(** A protected call replaces the function and its arguments by the
    results, or by the error value; what lies below them stays. *)
Lemma lua_pcall_stack nargs nresults m :
  let s := stack (m_lua m) in
  let base := take (length s - Z.to_nat nargs - 1)%nat s in
  let r := lua_pcall nargs nresults m in
  (r.1 = 0 ∧ ∃ vs, stack (m_lua r.2) = base ++ adjust_results nresults vs)
  ∨ (r.1 = LUA_ERRRUN ∧ ∃ e, stack (m_lua r.2) = base ++ [e]).
Proof.
  intros s base r. subst s base r. unfold lua_pcall. cbv zeta.
  destruct (_ (api _ m)) as [vs m'|e m'];
    cbn [fst snd api set_lua m_lua set_stack stack]; [left | right];
    (split; [done | by eexists]).
Qed.

Lemma lua_threaded_call_stack nargs nresults m :
  let s := stack (m_lua m) in
  let base := take (length s - Z.to_nat nargs - 1)%nat s in
  (∃ vs, stack (m_lua (lua_threaded_call nargs nresults m))
         = base ++ adjust_results nresults vs)
  ∨ stack (m_lua (lua_threaded_call nargs nresults m)) = base.
Proof.
  intros s base. subst s base. unfold lua_threaded_call.
  pose proof (lua_pcall_stack nargs nresults m) as Hp. cbv zeta in Hp.
  destruct (lua_pcall nargs nresults m) as [err m2]. cbn [fst snd] in Hp.
  destruct Hp as [[-> Hst]|[-> [e Hst]]]; [by left | right].
  change (LUA_ERRRUN =? 0) with false. cbv iota.
  destruct m2 as [[st2 h2] fs2 af2 lg2 mn2]. cbn [m_lua stack] in Hst.
  subst st2. unfold wxLog. cbn [m_lua m_features m_assfiles m_log m_main].
  rewrite lua_tostring_top_state. unfold api, set_lua.
  cbn [m_lua m_features m_assfiles m_log m_main]. by rewrite lua_pop_1.
Qed.

(** X3.  [Validate] and [ProcessSubs] leave the Lua stack as they find
    it, in every state of the script and whether the function they call
    returns or raises: the function, its arguments and its result or error
    value are all removed again. *)
Theorem entry_points_leave_stack this export_filter subs selected active m :
  stack (m_lua (Validate this subs selected active m).2) = stack (m_lua m)
  ∧ stack (m_lua (ProcessSubs export_filter subs m)) = stack (m_lua m).
Proof.
  split.
  - unfold Validate. destruct (no_validate this); [done |].
    pose proof (Validate_prepare_stack this subs selected active m) as Hs.
    pose proof (lua_pcall_stack 3 1
                  (Validate_prepare this subs selected active m)) as Hp.
    cbv zeta in Hp. rewrite Hs in Hp.
    rewrite length_app in Hp. cbn [length call_arguments] in Hp.
    replace (length (stack (m_lua m)) + 4 - Z.to_nat 3 - 1)%nat
      with (length (stack (m_lua m))) in Hp by lia.
    rewrite take_app_length in Hp.
    destruct (lua_pcall 3 1 _) as [err m2]. cbn [fst snd] in Hp.
    destruct m2 as [[st2 h2] fs2 af2 lg2 mn2]. cbn [m_lua stack] in Hp.
    destruct Hp as [[-> [vs -> ] ] | [-> [e -> ] ] ].
    + rewrite adjust_results_1. cbn [Z.eqb negb snd api set_lua m_lua].
      by rewrite lua_pop_1.
    + change (negb (LUA_ERRRUN =? 0)) with true. cbv iota.
      cbn [m_lua]. rewrite lua_tostring_top_state.
      cbn [snd api set_lua wxLog m_lua]. by rewrite lua_pop_1.
  - unfold ProcessSubs, LuaAssFile_new, ProcessingComplete, LuaThreadedCall.
    cbn [set_assfiles m_lua].
    match goal with
    | |- context [lua_threaded_call 2 0 ?pm] =>
        pose proof (lua_threaded_call_stack 2 0 pm) as Hp;
        assert (stack (m_lua pm)
                = stack (m_lua m)
                  ++ [feature_function (m_lua m) (filter_myid export_filter) 1;
                      LUserdata (length (m_assfiles m));
                      LTable (length (heap (m_lua m)))]) as Hs
    end.
    { destruct (has_config export_filter), (config_dialog export_filter);
        unfold api, LuaReadBack, lua_newtable, push, set_stack;
        cbn [m_lua set_lua set_assfiles stack heap];
        rewrite GetFeatureFunction_spec; cbn [stack heap];
        by rewrite <- !app_assoc. }
    cbv zeta in Hp. rewrite Hs in Hp.
    rewrite length_app in Hp. cbn [length] in Hp.
    replace (length (stack (m_lua m)) + 3 - Z.to_nat 2 - 1)%nat
      with (length (stack (m_lua m))) in Hp by lia.
    rewrite take_app_length in Hp.
    destruct Hp as [[vs -> ] | -> ]; [| done].
    cbn [adjust_results Z.ltb Z.compare Z.to_nat take]. by rewrite app_nil_r.
Qed.

End Balance.

(** ** What the script's functions are called with, and what is made of
    their results *)

(** A function of the script is described by [call_function], by its
    results and by what it does to the tables.  What else it may do while
    it runs, such as registering a further feature through
    [aegisub.register_macro], is not described; the properties of this
    part that span a call of a script function therefore speak of the
    results, the stack, the tables and the document wrappers, and of what
    the host itself adds to the log, and of nothing else. *)

Section Results.
Context `{Collaborators}.

(** X4.  A validation function of the script that returns: [Validate]
    gives the truth value of its first result, false when it returns
    nothing, and true for every value but nil and false, the number 0
    among them.  After the call the stack is as it was before, the tables
    are as the function left them, and the document wrapper that the
    function was given allows neither modification nor undo. *)
Theorem Validate_returns this subs selected active m n vs h' :
  no_validate this = false →
  feature_function (m_lua m) (macro_myid this) 2 = LFunction (LuaFn n) →
  call_function (LuaFn n) (call_arguments m)
    (heap (m_lua (Validate_prepare this subs selected active m)))
  = Returned vs h' →
  let r := Validate this subs selected active m in
  r.1 = lua_truth (default LNil (head vs))
  ∧ m_lua r.2 = mk_lua_State (stack (m_lua m)) h'
  ∧ m_assfiles r.2 = m_assfiles m ++ [mk_LuaAssFile subs false false false].
Proof.
  intros Hnv Hfn Hcall r. subst r. unfold Validate. rewrite Hnv.
  pose proof (Validate_prepare_stack this subs selected active m) as Hs.
  rewrite Hfn in Hs.
  pose proof (lua_pcall_script_function _ n (call_arguments m) 1 _ Hs) as Hp.
  rewrite Hcall in Hp.
  change (Z.of_nat (length (call_arguments m))) with 3 in Hp. rewrite Hp.
  cbn [Z.eqb negb]. rewrite adjust_results_1.
  unfold lua_toboolean, api, set_lua.
  cbn [fst snd m_lua m_features m_assfiles m_log m_main].
  by rewrite index2adr_top, lua_pop_1.
Qed.

(** X5.  [ProcessSubs] calls the processing function of the filter with
    two arguments, the document wrapper and a table of options; the table
    is new and holds the values of the configuration dialog, or nothing
    when the filter has no configuration or no dialog was built.  The
    results of the function are dropped.  When it raises, the log ends
    with the two lines of the error report.  Either way the wrapper is
    marked complete, the stack is as before, and the tables are as the
    function left them. *)
Theorem ProcessSubs_calls this subs m n :
  feature_function (m_lua m) (filter_myid this) 1 = LFunction (LuaFn n) →
  let args :=
    [LUserdata (length (m_assfiles m)); LTable (length (heap (m_lua m)))] in
  let r := ProcessSubs this subs m in
  m_assfiles r = m_assfiles m ++ [mk_LuaAssFile subs true false true]
  ∧ match call_function (LuaFn n) args
            (heap (m_lua m) ++ [filter_options this]) with
    | Returned vs h' => m_lua r = mk_lua_State (stack (m_lua m)) h'
    | Errored e h' =>
        m_lua r = mk_lua_State (stack (m_lua m)) h'
        ∧ ∃ lg, m_log r = lg ++ [runtime_error_header; string_arg (Some e)]
    end.
Proof.
  intros Hfn args r. subst args r.
  destruct m as [[st h] fs afs lg mn].
  unfold ProcessSubs, LuaAssFile_new, LuaThreadedCall, lua_threaded_call.
  cbn [m_lua m_features m_assfiles m_log m_main stack heap] in *.
  unfold api, set_assfiles, set_lua.
  cbn [m_lua m_features m_assfiles m_log m_main].
  rewrite GetFeatureFunction_spec, Hfn. cbn [stack heap].
  set (pm := match has_config this with true => _ | false => _ end).
  assert (pm = mk_Machine
                 (mk_lua_State
                    (st ++ LFunction (LuaFn n)
                        :: [LUserdata (length afs); LTable (length h)])
                    (h ++ [filter_options this]))
                 fs (afs ++ [mk_LuaAssFile subs true false false]) lg mn)
    as ->.
  { subst pm. unfold filter_options.
    destruct (has_config this), (config_dialog this);
      unfold LuaReadBack, lua_newtable, push, set_stack;
      cbn [m_lua m_features m_assfiles m_log m_main stack heap];
      by rewrite <- !app_assoc. }
  pose proof (lua_pcall_script_function st n
                [LUserdata (length afs); LTable (length h)] 0
                (mk_Machine
                   (mk_lua_State
                      (st ++ LFunction (LuaFn n)
                          :: [LUserdata (length afs); LTable (length h)])
                      (h ++ [filter_options this]))
                   fs (afs ++ [mk_LuaAssFile subs true false false]) lg mn)
                eq_refl)
    as Hp.
  change (Z.of_nat (length [LUserdata (length afs); LTable (length h)]))
    with 2 in Hp.
  rewrite Hp. cbn [m_lua heap].
  destruct (call_function _ _ _) as [vs h'|e h'].
  - cbn [Z.eqb]. unfold ProcessingComplete, set_assfiles, set_lua.
    cbn [m_lua m_features m_assfiles m_log m_main adjust_results Z.ltb
         Z.compare Z.to_nat take].
    rewrite app_nil_r. split; [| done].
    by rewrite alter_app_r_alt, Nat.sub_diag by lia.
  - change (LUA_ERRRUN =? 0) with false. cbv iota.
    unfold wxLog, set_lua. cbn [m_lua m_features m_assfiles m_log m_main].
    rewrite lua_tostring_top_state.
    unfold ProcessingComplete, api, set_assfiles, set_lua.
    cbn [m_lua m_features m_assfiles m_log m_main]. rewrite lua_pop_1.
    split; [| split; [done |] ].
    + by rewrite alter_app_r_alt, Nat.sub_diag by lia.
    + exists lg. rewrite <- app_assoc. cbn [app]. do 3 f_equal. by destruct e.
Qed.


End Results.

(** The validation function of the macro "Pick" of the sample script
    returns false. *)
Lemma Validate_returns_witness :
  let r := Validate (H := sample_collaborators) macro_Pick 0 [0] 5
             sample_machine in
  r.1 = false
  ∧ m_lua r.2
    = mk_lua_State []
        (heap (m_lua sample_machine) ++ [int_array_from 0 [0]])
  ∧ m_assfiles r.2 = [mk_LuaAssFile 0 false false false].
Proof.
  intros r. subst r.
  pose proof (Validate_returns (H := sample_collaborators) macro_Pick 0 [0] 5
                sample_machine 2 [LBoolean false]
                (heap (m_lua (Validate_prepare macro_Pick 0 [0] 5
                                sample_machine)))
                eq_refl ltac:(vm_compute; reflexivity)
                ltac:(vm_compute; reflexivity)) as Hv.
  cbv zeta in Hv. destruct Hv as (Hr & Hl & Haf).
  split; [exact Hr |]. split.
  - etransitivity; [exact Hl |]. vm_compute. reflexivity.
  - etransitivity; [exact Haf |]. vm_compute. reflexivity.
Defined.

(** The filter of the script whose functions fail: the error goes to the
    log. *)
Lemma ProcessSubs_calls_witness :
  let m := ProcessSubs (H := sample_collaborators) filter_Failing 0
             faulty_machine in
  m_log m = [runtime_error_header; "boom"%string]
  ∧ stack (m_lua m) = []
  ∧ m_assfiles m = [mk_LuaAssFile 0 true false true].
Proof.
  intros m. subst m.
  assert (feature_function (m_lua faulty_machine) (filter_myid filter_Failing) 1
          = LFunction (LuaFn 1)) as Hfn by (vm_compute; reflexivity).
  pose proof (ProcessSubs_calls (H := sample_collaborators) filter_Failing 0
                faulty_machine 1 Hfn) as Hp.
  cbv zeta in Hp. destruct Hp as [Haf _].
  split; [vm_compute; reflexivity |]. split; [vm_compute; reflexivity |].
  etransitivity; [exact Haf |]. vm_compute. reflexivity.
Defined.


(** ** A load that succeeds *)

Section Ready.
Context `{Collaborators}.

Lemma Destroy_fields s :
  script_addr (Destroy s) = script_addr s ∧ filename (Destroy s) = filename s
  ∧ author (Destroy s) = author s ∧ version (Destroy s) = version s
  ∧ L (Destroy s) = None.
Proof. unfold Destroy. by destruct (L s) eqn:E. Qed.

(** The [try] block of [Create] on a script whose main chunk runs to its
    end and that is not an Automation 3 script. *)
Lemma Create_try_ready c s m' :
  run_chunk c (load_machine s c) = Ok tt m' →
  is_automation3 (global (m_lua m') "version") = false →
  let g k := string_arg (Some (global (m_lua m') k)) in
  Create_try (Parsed c) s
  = (None,
     mk_LuaScript (script_addr s) (filename s)
       (if bool_decide (g "script_name" = ""%string)
        then PrettyFilename (filename s) else g "script_name")
       (g "script_description") (g "script_author") (g "script_version")
       (m_features m') (Some (mk_lua_State [] (heap (m_lua m'))))).
Proof.
  intros Hrun H3 g. subst g. unfold Create_try.
  pose proof (Create_environment_registry (script_addr s)) as [Hst _].
  unfold load_machine in Hrun.
  destruct (Create_environment (script_addr s)) as [st h].
  cbn [stack] in Hst. subst st.
  unfold api, set_main, set_lua, push, set_stack.
  cbn [m_lua m_features m_assfiles m_log m_main stack heap].
  rewrite (lua_pcall_main [] h), Hrun.
  cbn [Z.eqb negb]. destruct m' as [[st' h'] fs' af' lg' mn'].
  unfold api, set_lua, set_stack.
  cbn [m_lua m_features m_assfiles m_log m_main stack heap] in *.
  rewrite lua_getglobal_spec, (version_check [] h').
  change (global {| stack := []; heap := h' |} "version")
    with (global {| stack := st'; heap := h' |} "version").
  rewrite H3. rewrite !get_global_string_spec. by rewrite lua_pop_1.
Qed.

(** X7.  A script whose main chunk runs to its end, and that does not
    declare itself an Automation 3 script, is loaded: the script object
    holds the features that the run registered and a Lua state with an
    empty stack and the tables as the run left them.  Its description,
    author and version are the globals [script_description],
    [script_author] and [script_version], each empty when the global is
    not set or is neither a string nor a number; its name is the global
    [script_name], or the pretty file name when that is empty. *)
Theorem Create_success c s m' :
  run_chunk c (load_machine (Destroy s) c) = Ok tt m' →
  is_automation3 (global (m_lua m') "version") = false →
  let g k := string_arg (Some (global (m_lua m') k)) in
  Create (Parsed c) s
  = mk_LuaScript (script_addr s) (filename s)
      (if bool_decide (g "script_name" = ""%string)
       then PrettyFilename (filename s) else g "script_name")
      (g "script_description") (g "script_author") (g "script_version")
      (m_features m') (Some (mk_lua_State [] (heap (m_lua m')))).
Proof.
  intros Hrun H3 g. unfold Create.
  rewrite (Create_try_ready c (Destroy s) m' Hrun H3). cbv zeta.
  destruct (Destroy_fields s) as (-> & -> & _). done.
Qed.

End Ready.

(** The sample script is loaded. *)
Lemma Create_success_witness :
  let s := Create (H := sample_collaborators) (Parsed sample_chunk)
             (Script_new 7 "sample.lua") in
  name s = "Sample"%string
  ∧ description s = ""%string
  ∧ features s
    = [FeatureMacro macro_Pick; FeatureMacro macro_Keep;
       FeatureMacro macro_Broken; FeatureFilter filter_Clean]
  ∧ (stack <$> L s) = Some [].
Proof.
  intros s.
  pose (r := run_chunk (H := sample_collaborators) sample_chunk
               (load_machine (H := sample_collaborators)
                  (Destroy (Script_new 7 "sample.lua")) sample_chunk)).
  pose (m' := match r with Ok _ m' | Raise _ m' => m' end).
  assert (r = Ok tt m') as Hrun by (vm_compute; reflexivity).
  assert (is_automation3 (H := sample_collaborators)
            (global (m_lua m') "version") = false) as H3
    by (vm_compute; reflexivity).
  pose proof (Create_success (H := sample_collaborators) sample_chunk
                (Script_new 7 "sample.lua") m' Hrun H3) as Hc.
  cbv zeta in Hc. fold s in Hc. clearbody s. subst s.
  cbn [name description features L fmap option_fmap option_map stack].
  split; [vm_compute; reflexivity |]. split; [vm_compute; reflexivity |].
  split; [vm_compute; reflexivity | reflexivity].
Defined.

(** ** Loading the same file again *)

Section Again.
Context `{Collaborators}.

(** The [try] block of [Create] looks at the address, the file name and
    the feature list of the script object, and at nothing else of it. *)
Lemma Create_try_same file s1 s2 :
  script_addr s1 = script_addr s2 → filename s1 = filename s2 →
  features s1 = features s2 →
  (Create_try file s1).1 = (Create_try file s2).1
  ∧ ((Create_try file s1).1 = None
     → (Create_try file s1).2 = (Create_try file s2).2).
Proof.
  destruct s1 as [a1 f1 n1 d1 au1 v1 fs1 L1], s2 as [a2 f2 n2 d2 au2 v2 fs2 L2].
  cbn [script_addr filename features]. intros -> -> ->.
  unfold Create_try. cbn [script_addr filename features].
  destruct file as [msg|c].
  - by destruct (lua_tostring _ _).
  - destruct (lua_pcall _ _ _) as [status m].
    destruct (negb (status =? 0)); [by destruct (lua_tostring _ _) |].
    destruct (lua_isnumber _ _ && _); [done |].
    by repeat destruct (get_global_string _ _).
Qed.

Lemma Create_try_done file s :
  (Create_try file s).1 = None →
  script_addr (Create_try file s).2 = script_addr s
  ∧ filename (Create_try file s).2 = filename s.
Proof.
  unfold Create_try. destruct file as [msg|c].
  - by destruct (lua_tostring _ _).
  - destruct (lua_pcall _ _ _) as [status m].
    destruct (negb (status =? 0)); [by destruct (lua_tostring _ _) |].
    destruct (lua_isnumber _ _ && _); [done |].
    by repeat destruct (get_global_string _ _).
Qed.

(** X8.  Loading the same file twice in a row gives the same script
    object as loading it once, whether the load succeeds or fails: the
    second load starts from a script without features and without a Lua
    state, as the first did.  The script object the first load starts
    from has no features unless it has a Lua state. *)
Theorem Reload_idempotent file s :
  script_consistent s →
  Reload file (Reload file s) = Reload file s.
Proof.
  intros Hs. unfold Reload.
  destruct (Destroy_fields s) as (Ha & Hf & _ & _ & HL).
  pose proof (Destroy_features s Hs) as Hfs.
  destruct (Create_try file (Destroy s)).1 as [[msg]|] eqn:Etry.
  - rewrite (Create_failure file s msg Etry).
    rewrite (Create_failure file (failed_script s msg) msg); [done |].
    assert (Destroy (failed_script s msg) = failed_script s msg) as ->
      by done.
    destruct (Create_try_same file (failed_script s msg) (Destroy s))
      as [-> _]; try done; by cbn.
  - assert (Create file s = (Create_try file (Destroy s)).2) as Hc.
    { unfold Create. by destruct (Create_try file (Destroy s)) as [[e|] s']. }
    rewrite Hc. set (s1 := (Create_try file (Destroy s)).2).
    destruct (Create_try_done file (Destroy s) Etry) as [Ha1 Hf1].
    fold s1 in Ha1, Hf1.
    destruct (Destroy_fields s1) as (Ha' & Hf' & _ & _ & HL').
    pose proof (Create_try_live file (Destroy s)) as Hlive.
    assert (features (Destroy s1) = []) as Hfs1.
    { destruct Hlive as [st Hst]. unfold Destroy. fold s1 in Hst.
      by rewrite Hst. }
    destruct (Create_try_same file (Destroy s1) (Destroy s))
      as [E1 E2]; [congruence | congruence | congruence |].
    rewrite Etry in E1. specialize (E2 E1). unfold Create.
    destruct (Create_try file (Destroy s1)) as [e s2]. cbn [fst snd] in *.
    by subst e s2.
Qed.

End Again.

(** The sample script, loaded again twice. *)
Lemma Reload_idempotent_witness :
  let s := Create (H := sample_collaborators) (Parsed sample_chunk)
             (Script_new 7 "sample.lua") in
  Reload (H := sample_collaborators) (Parsed sample_chunk)
    (Reload (H := sample_collaborators) (Parsed sample_chunk) s)
  = Reload (H := sample_collaborators) (Parsed sample_chunk) s.
Proof.
  intros s.
  apply (Reload_idempotent (H := sample_collaborators) (Parsed sample_chunk) s).
  apply Create_consistent.
Defined.

(** ** What a registration pass leaves alone *)

Section Untouched.
Context `{Collaborators}.

Lemma registered_heap_length h F V id :
  length (registered_heap h F V id) = S (length h).
Proof.
  unfold registered_heap. rewrite !raw_store_length, length_app.
  cbn [length]. lia.
Qed.

Lemma registration_pass_frame calls m fr :
  Forall well_formed_call calls →
  Z.of_nat (length (m_features m) + length calls) <= INT_MAX + 1 →
  registry_inv (heap (m_lua m)) fr →
  ∃ m',
    run_chunk (registration_pass calls) m = Ok tt m'
    ∧ registry_inv (heap (m_lua m')) fr
    ∧ stack (m_lua m') = stack (m_lua m)
    ∧ length (heap (m_lua m')) = (length (heap (m_lua m)) + length calls)%nat
    ∧ (∀ t k, (t < length (heap (m_lua m)))%nat → t ≠ fr →
         raw_index (heap (m_lua m')) (LTable t) k
         = raw_index (heap (m_lua m)) (LTable t) k)
    ∧ m_assfiles m' = m_assfiles m
    ∧ m_log m' = m_log m.
Proof.
  intros Hwf. revert m.
  induction Hwf as [|[kind args] calls Hc _ IH]; intros m Hlen Hinv.
  - exists m. split; [done |]. split; [done |]. split; [done |].
    split; [cbn [length]; lia |]. by split.
  - cbn [registration_pass run_chunk]. unfold bind.
    rewrite (call_register_ok kind args m Hc). cbv zeta.
    set (h := heap (m_lua m)) in *.
    set (id := to_int (Z.of_nat (length (m_features m)))).
    set (F := frame_arg args h (processing_position kind)).
    set (V := frame_arg args h (S (processing_position kind))).
    set (m1 := mk_Machine _ _ _ _ _).
    unfold well_formed_call in Hc. cbn [fst snd] in Hc.
    assert (F ≠ LNil) as HFn.
    { subst F. unfold frame_arg.
      destruct (args !! processing_position kind) as [v|] eqn:Ea; [| done].
      rewrite (lookup_app_l_Some _ _ _ _ Ea). by destruct v. }
    destruct (registered_heap_spec h fr F V id Hinv HFn)
      as (Hinv1 & _ & _ & Hold).
    destruct (IH m1) as (m' & Hrun & Hinv' & Hst & Hl & Hkeep & Haf & Hlg).
    { subst m1. cbn [m_features]. rewrite length_app. int_lia. }
    { exact Hinv1. }
    exists m'. split; [done |]. split; [done |].
    subst m1. cbn [m_lua m_assfiles m_log stack heap] in *.
    rewrite registered_heap_length in Hl, Hkeep.
    split; [done |]. split; [cbn [length]; lia |]. split; [| done].
    intros t k Ht Hne. rewrite Hkeep by (done || lia). by apply Hold.
Qed.

(** X9.  The registration pass of a script, when all its calls have a
    function as processing argument: it creates one table for each call
    and, of the tables that [Create] has set up, it writes to the
    registry's table of features only.  The registry itself, the globals
    and every other table hold what they held; the stack is empty again,
    and no document wrapper and no log entry has been made. *)
Theorem registration_pass_tables calls s :
  script_consistent s →
  Forall well_formed_call calls →
  Z.of_nat (length calls) <= INT_MAX + 1 →
  let c := registration_pass calls in
  let m := load_machine (Destroy s) c in
  ∃ m',
    run_chunk c m = Ok tt m'
    ∧ stack (m_lua m') = []
    ∧ length (heap (m_lua m')) = (length (heap (m_lua m)) + length calls)%nat
    ∧ (∀ t k,
         (t < length (heap (m_lua m)))%nat →
         raw_index (heap (m_lua m)) (LTable registry_ref) (LString "features")
         ≠ LTable t →
         raw_index (heap (m_lua m')) (LTable t) k
         = raw_index (heap (m_lua m)) (LTable t) k)
    ∧ (∀ k, global (m_lua m') k = global (m_lua m) k)
    ∧ m_assfiles m' = []
    ∧ m_log m' = [].
Proof.
  intros Hs Hwf Hlen c m.
  destruct (Create_environment_registry (script_addr (Destroy s)))
    as [Hst Hinv].
  destruct (registration_pass_frame calls m 9 Hwf)
    as (m' & Hrun & _ & Hst' & Hl & Hkeep & Haf & Hlg); [| done |].
  { subst m. cbn [load_machine m_features]. rewrite Destroy_features by done.
    cbn [length]. lia. }
  exists m'. split; [done |]. split; [by rewrite Hst' |]. split; [done |].
  destruct Hinv as (Hreg & Hne & Hlt & _).
  split; [| split; [| done]].
  - intros t k Ht Hnt. apply Hkeep; [done |]. intros ->.
    by rewrite <- Hreg in Hnt.
  - intros k. apply (Hkeep globals_ref); [| done].
    subst m. cbn [load_machine m_lua]. unfold globals_ref, registry_ref in *.
    lia.
Qed.

Lemma GetScriptObject_spec L0 :
  GetScriptObject L0
  = (match raw_index (heap L0) (LTable registry_ref) (LString "aegisub") with
     | LUserdata u => Some u
     | LLightUserdata p => Some p
     | _ => None
     end, L0).
Proof.
  destruct L0 as [st h]. unfold GetScriptObject.
  rewrite lua_getfield_registry. unfold lua_touserdata.
  by rewrite index2adr_top, lua_pop_1.
Qed.

Lemma Create_environment_aegisub this :
  raw_index (heap (Create_environment this)) (LTable registry_ref)
    (LString "aegisub")
  = LLightUserdata this.
Proof.
  unfold Create_environment.
  match goal with
  | |- context [foldl add_include_dir ?L0 include_dirs] =>
      let L1 := eval vm_compute in L0 in
      change L0 with L1
  end.
  match goal with
  | |- context [foldl add_include_dir
                  (mk_lua_State [?a; ?b; LString ?p] ?h0) include_dirs] =>
      destruct (add_include_dirs include_dirs [a; b] h0 p) as [p' Hp]
  end.
  cbn [app] in Hp. rewrite Hp. clear Hp.
  match goal with
  | |- raw_index (heap ?L0) _ _ = _ =>
      let L1 := eval vm_compute in L0 in
      change L0 with L1
  end.
  reflexivity.
Qed.

(** X10.  [Create] stores the address of the script object in the
    registry, and [GetScriptObject] reads it back: in the environment that
    [Create] sets up, and still after a registration pass, it returns the
    script that owns the Lua state, and it leaves the state as it is. *)
Theorem GetScriptObject_owner calls s :
  script_consistent s →
  Forall well_formed_call calls →
  Z.of_nat (length calls) <= INT_MAX + 1 →
  let c := registration_pass calls in
  GetScriptObject (Create_environment (script_addr s))
  = (Some (script_addr s), Create_environment (script_addr s))
  ∧ ∃ m',
      run_chunk c (load_machine (Destroy s) c) = Ok tt m'
      ∧ GetScriptObject (m_lua m') = (Some (script_addr s), m_lua m').
Proof.
  intros Hs Hwf Hlen c. split.
  - by rewrite GetScriptObject_spec, Create_environment_aegisub.
  - destruct (Destroy_fields s) as (Ha & _).
    destruct (Create_environment_registry (script_addr s)) as [_ Hinv].
    destruct (registration_pass_frame calls (load_machine (Destroy s) c) 9)
      as (m' & Hrun & _ & _ & _ & Hkeep & _); [done | | |].
    { cbn [load_machine m_features]. rewrite Destroy_features by done.
      cbn [length]. lia. }
    { cbn [load_machine m_lua]. by rewrite Ha. }
    exists m'. split; [done |].
    rewrite GetScriptObject_spec, Hkeep.
    + cbn [load_machine m_lua]. by rewrite Ha, Create_environment_aegisub.
    + cbn [load_machine m_lua]. rewrite Ha.
      destruct Hinv as (_ & _ & Hlt & _). unfold registry_ref. lia.
    + done.
Qed.

End Untouched.

(** The registration calls of the sample script. *)
Lemma registration_pass_tables_witness :
  let c := registration_pass sample_calls in
  let m := load_machine (H := sample_collaborators)
             (Destroy (Script_new 7 "sample.lua")) c in
  ∃ m',
    run_chunk (H := sample_collaborators) c m = Ok tt m'
    ∧ length (heap (m_lua m')) = (length (heap (m_lua m)) + 4)%nat
    ∧ ∀ k, global (m_lua m') k = global (m_lua m) k.
Proof.
  intros c m.
  destruct (registration_pass_tables (H := sample_collaborators) sample_calls
              (Script_new 7 "sample.lua"))
    as (m' & Hrun & _ & Hl & _ & Hglobal & _).
  - apply Script_new_consistent.
  - repeat constructor.
  - vm_compute. congruence.
  - exists m'. split; [exact Hrun |]. split; [exact Hl | exact Hglobal].
Defined.

(** The sample script finds its owner. *)
Lemma GetScriptObject_owner_witness :
  let c := registration_pass sample_calls in
  ∃ m',
    run_chunk (H := sample_collaborators) c
      (load_machine (H := sample_collaborators)
         (Destroy (Script_new 7 "sample.lua")) c) = Ok tt m'
    ∧ GetScriptObject (m_lua m') = (Some 7%nat, m_lua m').
Proof.
  intros c.
  destruct (GetScriptObject_owner (H := sample_collaborators) sample_calls
              (Script_new 7 "sample.lua")) as [_ Hm].
  - apply Script_new_consistent.
  - repeat constructor.
  - vm_compute. congruence.
  - exact Hm.
Defined.

(** ** The factory *)

Section Factory.
Context `{Collaborators}.

Lemma list_ascii_of_string_app a b :
  String.list_ascii_of_string (a +:+ b)
  = String.list_ascii_of_string a ++ String.list_ascii_of_string b.
Proof. induction a as [|c a IH]; [done |]. simpl. by f_equal. Qed.

Lemma string_of_list_ascii_app a b :
  String.string_of_list_ascii (a ++ b)
  = String.string_of_list_ascii a +:+ String.string_of_list_ascii b.
Proof.
  induction a as [|c a IH]; [done |].
  change (String c (String.string_of_list_ascii (a ++ b))
          = String c (String.string_of_list_ascii a
                      +:+ String.string_of_list_ascii b)).
  by rewrite IH.
Qed.

Lemma wxTolower_dot c : wxTolower c = "."%char → c = "."%char.
Proof.
  destruct c as [[] [] [] [] [] [] [] []]; vm_compute; congruence.
Qed.

Lemma wxTolower_letter c (x : ascii) :
  (97 <= nat_of_ascii x <= 122)%nat →
  wxTolower c = x → c = x ∨ c = ascii_of_nat (nat_of_ascii x - 32).
Proof.
  intros Hx <-. unfold wxTolower in *.
  pose proof (nat_ascii_bounded c) as Hc.
  destruct ((65 <=? nat_of_ascii c)%nat && (nat_of_ascii c <=? 90)%nat) eqn:E.
  - apply andb_prop in E as [E1 E2].
    apply Nat.leb_le in E1, E2.
    right. rewrite nat_ascii_embedding by lia.
    replace (nat_of_ascii c + 32 - 32)%nat with (nat_of_ascii c) by lia.
    by rewrite ascii_nat_embedding.
  - by left.
Qed.

Lemma Lower_Right_4 filename :
  Lower (Right 4 filename) = ".lua"%string ↔ lua_extension filename.
Proof.
  unfold Right, lua_extension. split.
  - set (l := String.list_ascii_of_string filename).
    intros Hl.
    assert (filename
            = String.string_of_list_ascii (take (length l - 4) l)
              +:+ String.string_of_list_ascii (drop (length l - 4) l)) as Hf.
    { rewrite <- string_of_list_ascii_app, take_drop. subst l.
      by rewrite String.string_of_list_ascii_of_string. }
    destruct (drop (length l - 4) l) as [|c0 [|c1 [|c2 [|c3 [|c4 d]]]]];
      try discriminate.
    cbn in Hl. injection Hl as H0 H1 H2 H3.
    apply wxTolower_dot in H0 as ->.
    apply (wxTolower_letter c1 "l") in H1; [| vm_compute; lia].
    apply (wxTolower_letter c2 "u") in H2; [| vm_compute; lia].
    apply (wxTolower_letter c3 "a") in H3; [| vm_compute; lia].
    by exists (String.string_of_list_ascii (take (length l - 4) l)), c1, c2, c3.
  - intros (base & c1 & c2 & c3 & -> & H1 & H2 & H3).
    rewrite list_ascii_of_string_app, length_app. cbn [String.list_ascii_of_string length].
    replace (length (String.list_ascii_of_string base) + 4 - 4)%nat
      with (length (String.list_ascii_of_string base)) by lia.
    rewrite drop_app_length.
    by destruct H1 as [-> | ->], H2 as [-> | ->], H3 as [-> | ->].
Qed.

(** X11.  [Produce] makes a script object exactly for the file names that
    end in [.lua], whatever the case of the three letters; a shorter name,
    another ending or no ending gives no script.  When it makes one, it
    is the script that the constructor gives for the file, also when the
    load of the file fails. *)
Theorem Produce_extension this filename file :
  (lua_extension filename →
   Produce this filename file = Some (LuaScript_new this filename file))
  ∧ (¬ lua_extension filename → Produce this filename file = None).
Proof.
  unfold Produce. split; intros He.
  - apply Lower_Right_4 in He. by rewrite bool_decide_eq_true_2.
  - rewrite bool_decide_eq_false_2; [done |]. by rewrite Lower_Right_4.
Qed.

End Factory.

(** A file with capital letters in its ending, that does not parse; and
    two files that are refused. *)
Example Produce_examples :
  Produce (H := sample_collaborators) 7 "Karaoke.LUA" (ParseError "eof")
  = Some (failed_script (H := sample_collaborators)
            (Script_new 7 "Karaoke.LUA")
            (load_error_message "Karaoke.LUA" "eof"))
  ∧ Produce (H := sample_collaborators) 7 "lua" (Parsed sample_chunk) = None
  ∧ Produce (H := sample_collaborators) 7 "a.lua.bak" (Parsed sample_chunk)
    = None.
Proof. vm_compute. done. Qed.

(** ** The configuration dialog of a filter *)

Section Configuration.
Context `{Collaborators} {dialogs : Dialogs}.

(** X12.  A registration of a filter whose fifth argument is missing or
    is not a function is accepted and gives a filter without
    configuration.  For such a filter [GenerateConfigDialog] returns no
    dialog and leaves the filter and the machine as they are: no script
    code runs. *)
Theorem filter_without_configuration args m :
  is_function (args !! 3%nat) = true →
  is_function (args !! 4%nat) = false →
  let this :=
    mk_LuaFeatureFilter (string_arg (args !! 0%nat)) (string_arg (args !! 1%nat))
      (to_int (integer_arg (args !! 2%nat))) false None
      (to_int (Z.of_nat (length (m_features m)))) in
  (∃ m', call_value register_filter args m = Ok [] m'
         ∧ m_features m' = m_features m ++ [FeatureFilter this])
  ∧ ∀ top m0, GenerateConfigDialog this top m0 = (None, this, m0).
Proof.
  intros Hf Hc this. split; [| done].
  change register_filter with (register_function KindFilter).
  rewrite (call_register_ok KindFilter args m Hf).
  eexists. split; [done |]. cbn [m_features feature_of_call].
  by rewrite Hc.
Qed.

(** X13.  [GenerateConfigDialog] on a filter with configuration calls the
    configuration function of the script with two arguments: a document
    wrapper for [AssFile::top] that allows neither modification nor undo,
    and a new, empty table.  When the function returns, the dialog is built
    from the state that has its first result on top of the stack, and is
    kept in the filter.  When it raises, no dialog is returned, one the
    filter had is dropped, the log ends with the warning (worded for a
    validation function), and the stack is as before, with the tables as
    the function left them. *)
Theorem GenerateConfigDialog_calls this top m n :
  has_config this = true →
  feature_function (m_lua m) (filter_myid this) 2 = LFunction (LuaFn n) →
  let args :=
    [LUserdata (length (m_assfiles m)); LTable (length (heap (m_lua m)))] in
  let r := GenerateConfigDialog this top m in
  m_assfiles r.2 = m_assfiles m ++ [mk_LuaAssFile top false false false]
  ∧ match call_function (LuaFn n) args (heap (m_lua m) ++ [[]]) with
    | Returned vs h' =>
        let d :=
          LuaConfigDialog_new
            (mk_lua_State (stack (m_lua m) ++ [default LNil (head vs)]) h') in
        r.1 = (Some d.1, set_config_dialog this (Some d.1))
        ∧ m_lua r.2 = d.2
    | Errored e h' =>
        r.1 = (None, set_config_dialog this None)
        ∧ m_lua r.2 = mk_lua_State (stack (m_lua m)) h'
        ∧ ∃ lg, m_log r.2 = lg ++ [validation_warning (string_arg (Some e))]
    end.
Proof.
  intros Hc Hfn args r. subst args r.
  destruct m as [[st h] fs afs lg mn].
  unfold GenerateConfigDialog, LuaAssFile_new. rewrite Hc. cbn [negb].
  cbn [m_lua m_features m_assfiles m_log m_main stack heap] in *.
  unfold api, set_assfiles, set_lua.
  cbn [m_lua m_features m_assfiles m_log m_main].
  rewrite GetFeatureFunction_spec, Hfn.
  unfold lua_newtable, push, set_stack. cbn [stack heap].
  rewrite <- !app_assoc. cbn [app].
  pose proof (lua_pcall_script_function st n
                [LUserdata (length afs); LTable (length h)] 1
                (mk_Machine
                   (mk_lua_State
                      (st ++ LFunction (LuaFn n)
                          :: [LUserdata (length afs); LTable (length h)])
                      (h ++ [[]]))
                   fs (afs ++ [mk_LuaAssFile top false false false]) lg mn)
                eq_refl)
    as Hp.
  change (Z.of_nat (length [LUserdata (length afs); LTable (length h)]))
    with 2 in Hp.
  rewrite Hp. cbn [m_lua heap].
  destruct (call_function _ _ _) as [vs h'|e h'].
  - cbn [Z.eqb negb]. unfold set_lua.
    cbn [m_lua m_features m_assfiles m_log m_main].
    rewrite adjust_results_1. by destruct (LuaConfigDialog_new _).
  - change (negb (LUA_ERRRUN =? 0)) with true. cbv iota.
    unfold set_lua. cbn [m_lua m_features m_assfiles m_log m_main].
    rewrite lua_tostring_top_state.
    unfold wxLog, api, set_lua.
    cbn [fst snd m_lua m_features m_assfiles m_log m_main].
    rewrite lua_pop_1. unfold validation_warning.
    repeat split. exists lg. do 3 f_equal. by destruct e.
Qed.

End Configuration.

(** The filter "Clean" of the sample script has no configuration. *)
Lemma filter_without_configuration_witness :
  let args :=
    [LString "Clean"; LString ""; LNumber (cast_num 0); LFunction (LuaFn 4)] in
  let this := mk_LuaFeatureFilter "Clean" "" 0 false None 4 in
  (∃ m', call_value (H := sample_collaborators) register_filter args
           sample_machine = Ok [] m'
         ∧ m_features m' = m_features sample_machine ++ [FeatureFilter this])
  ∧ GenerateConfigDialog (H := sample_collaborators) (dialogs := sample_dialogs)
      this 0 sample_machine
    = (None, this, sample_machine).
Proof.
  intros args this.
  destruct (filter_without_configuration (H := sample_collaborators)
              (dialogs := sample_dialogs) args sample_machine eq_refl eq_refl)
    as (Hreg & Hgen).
  split.
  - destruct Hreg as (m' & Hcall & Hfs). exists m'. split; [exact Hcall |].
    etransitivity; [exact Hfs |]. vm_compute. reflexivity.
  - etransitivity; [| exact (Hgen 0%nat sample_machine)].
    vm_compute. reflexivity.
Defined.

(** The configuration function of the filter "Failing" raises an error. *)
Lemma GenerateConfigDialog_calls_witness :
  let r := GenerateConfigDialog (H := sample_collaborators)
             (dialogs := sample_dialogs) filter_Failing 0 faulty_machine in
  r.1.1 = None
  ∧ m_log r.2 = [validation_warning "boom"]
  ∧ stack (m_lua r.2) = []
  ∧ m_assfiles r.2 = [mk_LuaAssFile 0 false false false].
Proof.
  intros r. subst r.
  assert (feature_function (m_lua faulty_machine) (filter_myid filter_Failing) 2
          = LFunction (LuaFn 1)) as Hfn by (vm_compute; reflexivity).
  pose proof (GenerateConfigDialog_calls (H := sample_collaborators)
                (dialogs := sample_dialogs) filter_Failing 0 faulty_machine 1
                eq_refl Hfn) as Hp.
  cbv zeta in Hp. destruct Hp as [Haf _].
  split; [vm_compute; reflexivity |]. split; [vm_compute; reflexivity |].
  split; [vm_compute; reflexivity |].
  etransitivity; [exact Haf |]. vm_compute. reflexivity.
Defined.

(** ** The video services *)

Section Video.
Context `{Collaborators} {video : VideoContext}.

Lemma set_stack_same m : api (λ L0, set_stack L0 (stack (m_lua m))) m = m.
Proof. by destruct m as [[st h] fs af lg mn]. Qed.

(** The values that a C function returns are on top of its frame. *)
Lemma drop_results (st vs : list lua_value) :
  drop (length (st ++ vs) - Z.to_nat (Z.of_nat (length vs))) (st ++ vs) = vs.
Proof.
  rewrite Nat2Z.id, length_app.
  replace (length st + length vs - length vs)%nat with (length st) by lia.
  apply drop_app_length.
Qed.

(** X14.  [aegisub.frame_from_ms] and [aegisub.ms_from_frame] return one
    value.  Without timecodes it is nil.  With timecodes it is the frame
    of the time, or the time of the frame, that the last argument of the
    call gives when it is read as an integer and cut to an [int]; an
    argument that is not numeric reads as 0, and arguments before the last
    are not looked at.  The calls change nothing in the Lua state of the
    caller. *)
Theorem timing_services args a m :
  let n := to_int (integer_arg (Some a)) in
  call_C LuaFrameFromMs (args ++ [a]) m
  = Ok [if TimecodesLoaded then LNumber (cast_num (FrameAtTime n)) else LNil] m
  ∧ call_C LuaMsFromFrame (args ++ [a]) m
    = Ok [if TimecodesLoaded then LNumber (cast_num (TimeAtFrame n)) else LNil]
        m.
Proof.
  intros n. subst n.
  pose proof (set_stack_same m) as Hm. unfold api, set_lua, set_stack in Hm.
  split;
    unfold call_C, with_frame, LuaFrameFromMs, LuaMsFromFrame, bind, ask, lua,
      ret, api, set_lua, set_stack, lua_tointeger, integer_arg;
    cbn [m_lua m_features m_assfiles m_log m_main stack heap];
    rewrite index2adr_top, lua_pop_1;
    destruct TimecodesLoaded;
    unfold lua_pushnumber, lua_pushnil, push, set_stack;
    cbn [m_lua m_features m_assfiles m_log m_main stack heap];
    rewrite (drop_results args [_]); by rewrite Hm.
Qed.

(** X15.  [aegisub.video_size] looks at none of its arguments.  With a
    video loaded it returns four numbers, in this order: the width, the
    height, the value of the aspect ratio and the type of the aspect
    ratio.  Without one it returns one value, nil. *)
Theorem LuaVideoSize_results args m :
  call_C LuaVideoSize args m
  = Ok (if IsLoaded
        then [LNumber (cast_num GetWidth); LNumber (cast_num GetHeight);
              LNumber GetAspectRatioValue;
              LNumber (cast_num GetAspectRatioType)]
        else [LNil]) m.
Proof.
  unfold call_C, with_frame, LuaVideoSize.
  pose proof (set_stack_same m) as Hm. unfold api, set_lua, set_stack in Hm.
  destruct IsLoaded;
    unfold bind, ask, lua, ret, api, set_lua, set_stack, lua_pushnumber,
      lua_pushnil, push, set_stack;
    cbn [m_lua m_features m_assfiles m_log m_main stack heap];
    rewrite <- ?app_assoc; cbn [app].
  - rewrite (drop_results args [_; _; _; _]). by rewrite Hm.
  - rewrite (drop_results args [_]). by rewrite Hm.
Qed.

End Video.

(** One second into a video of 25 frames per second; the first argument is
    not looked at. *)
Example timing_services_example :
  call_C (LuaFrameFromMs (H := sample_collaborators) (video := sample_video))
    [LString "x"; LNumber (cast_num 1000)] sample_machine
  = Ok [LNumber (cast_num 25)] sample_machine.
Proof. vm_compute. reflexivity. Qed.

(** ** The module loader *)

Section Tokens.

Lemma append_cons c a b : String c a +:+ b = String c (a +:+ b).
Proof. reflexivity. Qed.

Lemma append_nil_r s : s +:+ "" = s.
Proof. induction s as [|c s IH]; [done |]. by rewrite append_cons, IH. Qed.

Lemma append_assoc a b c : (a +:+ b) +:+ c = a +:+ (b +:+ c).
Proof.
  induction a as [|x a IH]; [done |]. by rewrite !append_cons, IH.
Qed.

Lemma StrTok_from_free d cur s :
  free_of d s = true →
  StrTok_from d cur s
  = if bool_decide (cur +:+ s = ""%string) then [] else [cur +:+ s].
Proof.
  revert cur. induction s as [|c s IH]; intros cur Hs.
  - cbn [StrTok_from]. by rewrite append_nil_r.
  - cbn [free_of] in Hs. apply andb_prop in Hs as [Hc Hs].
    apply negb_true_iff in Hc. cbn [StrTok_from]. rewrite Hc.
    rewrite IH by done. by rewrite append_assoc.
Qed.

Lemma StrTok_from_app d cur a b :
  StrTok_from d cur (a +:+ String d b)
  = StrTok_from d cur a ++ StrTok d b.
Proof.
  revert cur. induction a as [|c a IH]; intros cur.
  - change ("" +:+ String d b) with (String d b).
    cbn [StrTok_from]. by rewrite Ascii.eqb_refl.
  - rewrite append_cons. cbn [StrTok_from]. destruct (Ascii.eqb c d).
    + by rewrite IH, app_assoc.
    + apply IH.
Qed.

Lemma StrTok_from_tokens d cur s :
  free_of d cur = true →
  Forall (λ t, t ≠ ""%string ∧ free_of d t = true) (StrTok_from d cur s).
Proof.
  revert cur. induction s as [|c s IH]; intros cur Hcur.
  - cbn [StrTok_from]. case_bool_decide; by repeat constructor.
  - cbn [StrTok_from]. destruct (Ascii.eqb c d) eqn:Ec.
    + apply Forall_app. split; [| by apply IH].
      case_bool_decide; by repeat constructor.
    + apply IH. clear IH. induction cur as [|x cur IHc].
      * cbn [free_of]. change ("" +:+ String c "") with (String c "").
        cbn [free_of]. by rewrite Ec.
      * rewrite append_cons. cbn [free_of] in *.
        apply andb_prop in Hcur as [-> Hcur]. by apply IHc.
Qed.

(** [wxStringTokenizer] in the manner of [strtok]: a string without the
    delimiter is one token, or none when it is empty; the tokens of two
    strings joined by a delimiter are the tokens of the first followed by
    the tokens of the second; no token is empty or holds a delimiter. *)
Lemma StrTok_tokens d :
  (∀ s, free_of d s = true →
        StrTok d s = if bool_decide (s = ""%string) then [] else [s])
  ∧ (∀ a b, StrTok d (a +:+ String d b) = StrTok d a ++ StrTok d b)
  ∧ ∀ s, Forall (λ t, t ≠ ""%string ∧ free_of d t = true) (StrTok d s).
Proof.
  split; [| split].
  - intros s Hs. unfold StrTok. by rewrite StrTok_from_free.
  - intros a b. apply StrTok_from_app.
  - intros s. by apply StrTok_from_tokens.
Qed.

Lemma Replace_free c new s : free_of c s = true → Replace c new s = s.
Proof.
  induction s as [|x s IH]; [done |]. cbn [free_of Replace].
  intros Hs. apply andb_prop in Hs as [Hx Hs].
  apply negb_true_iff in Hx. by rewrite Hx, IH.
Qed.

Lemma Replace_app c new a b :
  Replace c new (a +:+ b) = Replace c new a +:+ Replace c new b.
Proof.
  induction a as [|x a IH]; [done |]. rewrite append_cons.
  cbn [Replace]. destruct (Ascii.eqb x c).
  - by rewrite IH, append_assoc.
  - by rewrite IH, append_cons.
Qed.

End Tokens.

(** A path with empty entries. *)
Example StrTok_example :
  StrTok ";" ";./?.lua;;/usr/share/?.lua;" = ["./?.lua"; "/usr/share/?.lua"]%string.
Proof. reflexivity. Qed.

Section Modules.
Context `{Collaborators} {files : FileSystem}.

Lemma lua_pop_2 s h a b :
  lua_pop (mk_lua_State (s ++ [a; b]) h) 2 = mk_lua_State s h.
Proof.
  unfold lua_pop, set_stack. cbn [stack heap]. f_equal.
  rewrite length_app. cbn [length].
  replace (length s + 2 - Z.to_nat 2)%nat with (length s) by lia.
  apply take_app_length.
Qed.

(** The loop of the loader over templates whose files all compile: one
    function is pushed for each file that exists. *)
Lemma LuaModuleLoader_loop_loads w module toker st h fs af lg mn :
  let found :=
    filter (λ f, FileExists f = true) (map (Replace "?" module) toker) in
  Forall loads found →
  LuaModuleLoader_loop w module toker
    (mk_Machine (mk_lua_State st h) fs af lg mn)
  = Ok tt (mk_Machine (mk_lua_State (st ++ map loaded found) h) fs af lg mn).
Proof.
  revert st. induction toker as [|token toker IH]; intros st found Hl.
  - cbn. by rewrite app_nil_r.
  - subst found. cbn [LuaModuleLoader_loop map] in *. unfold bind at 1.
    destruct (FileExists (Replace "?" module token)) eqn:Ef.
    + rewrite filter_cons_True in * by done.
      apply Forall_cons in Hl as [[fn Hfn] Hl].
      rewrite Hfn. unfold lua, api, set_lua, push, set_stack.
      cbn [m_lua m_features m_assfiles m_log m_main stack heap].
      rewrite IH by done. cbn [map]. unfold loaded at 2. rewrite Hfn.
      by rewrite <- app_assoc.
    + rewrite filter_cons_False in * by (by rewrite Ef).
      cbn [ret]. by rewrite IH.
Qed.

(** The loop of the loader when a file that exists does not compile: the
    error of that file is raised. *)
Lemma LuaModuleLoader_loop_fails w module toker pre f msg post m :
  filter (λ f, FileExists f = true) (map (Replace "?" module) toker)
  = pre ++ f :: post →
  Forall loads pre →
  lua_load f = LoadFailed msg →
  ∃ m',
    LuaModuleLoader_loop w module toker m
    = Raise (LString (w +:+ module_error_message f msg)) m'.
Proof.
  revert pre m. induction toker as [|token toker IH]; intros pre m Hf Hl Hm.
  - by destruct pre.
  - cbn [LuaModuleLoader_loop map] in *. unfold bind at 1.
    destruct (FileExists (Replace "?" module token)) eqn:Ef.
    + rewrite filter_cons_True in Hf by done.
      destruct pre as [|p pre]; cbn [app] in Hf; injection Hf as -> Hf.
      * rewrite Hm. destruct m as [[st h] fs af lg mn].
        unfold bind, lua, luaL_error, lua_error, tostring, api, set_lua,
          lua_pushstring, push, set_stack.
        cbn [m_lua m_features m_assfiles m_log m_main stack heap].
        rewrite lua_tostring_top_state.
        unfold bind, lua, api, set_lua.
        cbn [m_lua m_features m_assfiles m_log m_main stack heap wxString
             default from_option id].
        rewrite value_at_top. by eexists.
      * apply Forall_cons in Hl as [[fn Hfn] Hl]. rewrite Hfn.
        unfold lua. by apply (IH pre).
    + rewrite filter_cons_False in Hf by (by rewrite Ef).
      cbn [ret]. by apply (IH pre).
Qed.

(** X16.  The files that the module loader looks for, as a function of
    [package.path]: the files of two paths joined by a semicolon are the
    files of the first followed by the files of the second, and an empty
    path gives none, so that semicolons at the ends of the path or next to
    each other change nothing; a template with one question mark gives the
    file named by the text before the mark, the module and the text after
    it, when that file exists. *)
Theorem module_files_of_path module :
  (∀ p1 p2,
     module_files (p1 +:+ String ";" p2) module
     = module_files p1 module ++ module_files p2 module)
  ∧ module_files "" module = []
  ∧ ∀ pre post,
      free_of ";" (pre +:+ String "?" post) = true →
      free_of "?" pre = true → free_of "?" post = true →
      module_files (pre +:+ String "?" post) module
      = if FileExists (pre +:+ module +:+ post)
        then [pre +:+ module +:+ post] else [].
Proof.
  unfold module_files. split; [| split].
  - intros p1 p2.
    destruct (StrTok_tokens ";") as (_ & Happ & _).
    by rewrite Happ, map_app, filter_app.
  - done.
  - intros pre post Hfree Hpre Hpost.
    destruct (StrTok_tokens ";") as (Hone & _ & _).
    rewrite Hone by done.
    rewrite bool_decide_eq_false_2 by (by destruct pre).
    cbn [map]. rewrite Replace_app. cbn [Replace]. rewrite Ascii.eqb_refl.
    rewrite !Replace_free by done.
    destruct (FileExists _) eqn:Ef.
    + by rewrite filter_cons_True.
    + rewrite filter_cons_False; [done |]. by rewrite Ef.
Qed.

(** The loader up to its loop. *)
Lemma LuaModuleLoader_start w args a h fs af lg mn r :
  raw_index h (LTable globals_ref) (LString "package") = LTable r →
  let module := Replace "." LUA_DIRSEP (string_arg (Some a)) in
  let path := string_arg (Some (raw_index h (LTable r) (LString "path"))) in
  LuaModuleLoader w (mk_Machine (mk_lua_State (args ++ [a]) h) fs af lg mn)
  = (LuaModuleLoader_loop w module (StrTok ";" path);;
     top <- ask (λ L0, to_int (lua_gettop L0));
     ret (to_int (top - to_int (Z.of_nat (length (args ++ [a]))))))
      (mk_Machine (mk_lua_State (args ++ [tostring_slot a]) h) fs af lg mn).
Proof.
  intros Hpkg module path. subst module path.
  unfold LuaModuleLoader, bind, ask, lua, tostring, api, set_lua.
  cbn [m_lua m_features m_assfiles m_log m_main].
  rewrite lua_tostring_top_state. cbv beta iota zeta.
  cbn [m_lua m_features m_assfiles m_log m_main].
  rewrite lua_getglobal_spec.
  unfold global. cbn [heap]. rewrite Hpkg.
  unfold lua_pushstring, push, set_stack. cbn [stack heap].
  rewrite <- (app_assoc _ [LTable r]). cbn [app].
  unfold lua_gettable, rawget_at. rewrite value_at_below, value_at_top_2.
  rewrite lua_pop_1_2. unfold push, set_stack, table_at. cbn [stack heap].
  rewrite (cons_middle (LTable r)), app_assoc.
  rewrite lua_tostring_top_state. cbv beta iota zeta.
  cbn [m_lua m_features m_assfiles m_log m_main].
  rewrite app_nil_r, <- (app_assoc (args ++ [tostring_slot a]) [LTable r]).
  cbn [app]. rewrite lua_pop_2.
  assert (∀ v, wxString match v with
                        | LString s => Some s
                        | LNumber n => Some (lua_number2str n)
                        | _ => None
                        end = string_arg (Some v)) as Hw
    by (by intros []).
  by rewrite !Hw.
Qed.

(** X17.  The module loader looks for the module under every template of
    [package.path], in the order of the path: the dots of the module name
    become directory separators, and the name takes the place of each
    question mark.  When all the files that exist compile, it returns one
    function for each of them, not for the first only, and changes
    nothing in the state of the caller; so it returns nothing when no file
    exists.  When one of them does not compile, it raises the error of the
    first such file, also when a file before it compiled.  The module
    name is the last argument of the call and [package] is a table. *)
Theorem LuaModuleLoader_results w args a m r :
  global (m_lua m) "package" = LTable r →
  let module := Replace "." LUA_DIRSEP (string_arg (Some a)) in
  let path :=
    string_arg (Some (raw_index (heap (m_lua m)) (LTable r) (LString "path"))) in
  let found := module_files path module in
  Z.of_nat (length args + 1 + length found) <= INT_MAX →
  (Forall loads found →
   call_C (LuaModuleLoader w) (args ++ [a]) m = Ok (map loaded found) m)
  ∧ ∀ pre f msg post,
      found = pre ++ f :: post → Forall loads pre →
      lua_load f = LoadFailed msg →
      ∃ m',
        call_C (LuaModuleLoader w) (args ++ [a]) m
        = Raise (LString (w +:+ module_error_message f msg)) m'.
Proof.
  intros Hpkg module path found Hlen.
  destruct m as [[st h] fs af lg mn].
  cbn [m_lua heap] in *. unfold global in Hpkg. cbn [raw_index heap] in Hpkg.
  pose proof (LuaModuleLoader_start w args a h fs af lg mn r Hpkg) as Hstart.
  cbv zeta in Hstart. fold module in Hstart. fold path in Hstart.
  assert (length (args ++ [tostring_slot a] ++ map loaded found)
          = (length args + 1 + length found)%nat) as Hl.
  { rewrite !length_app, length_map. cbn [length]. lia. }
  split.
  - intros Hall. unfold call_C, with_frame, bind at 1, api, set_lua, set_stack.
    cbn [m_lua m_features m_assfiles m_log m_main stack heap].
    rewrite Hstart. unfold bind at 1.
    rewrite LuaModuleLoader_loop_loads by done. fold (module_files path module).
    fold found. unfold bind, ask, ret. cbn [m_lua stack].
    unfold lua_gettop. cbn [stack]. rewrite <- app_assoc, Hl.
    rewrite length_app. cbn [length].
    rewrite (to_int_id (Z.of_nat (length args + 1 + length found)))
      by int_lia.
    rewrite (to_int_id (Z.of_nat (length args + 1))) by int_lia.
    replace (Z.of_nat (length args + 1 + length found)
             - Z.of_nat (length args + 1))
      with (Z.of_nat (length (map loaded found)))
      by (rewrite length_map; lia).
    rewrite to_int_id by (rewrite length_map; int_lia).
    rewrite Nat2Z.id, length_map, (app_assoc args).
    replace (length args + 1 + length found - length found)%nat
      with (length (args ++ [tostring_slot a]))
      by (rewrite length_app; cbn [length]; lia).
    by rewrite drop_app_length.
  - intros pre f msg post Hf Hpre Hmsg.
    destruct (LuaModuleLoader_loop_fails w module (StrTok ";" path) pre f msg
                post
                (mk_Machine (mk_lua_State (args ++ [tostring_slot a]) h)
                   fs af lg mn) Hf Hpre Hmsg) as [m' Hm'].
    exists m'. unfold call_C, with_frame, bind at 1, api, set_lua, set_stack.
    cbn [m_lua m_features m_assfiles m_log m_main stack heap].
    rewrite Hstart. unfold bind at 1. by rewrite Hm'.
Qed.

End Modules.

(** The sample script asks for the module [utils]: the file in the
    directory of the script compiles, the one in the include directory
    does not, and the call fails. *)
Lemma LuaModuleLoader_results_witness :
  ∃ m',
    call_C (LuaModuleLoader (H := sample_collaborators) (files := sample_files)
              "")
      [LString "utils"] sample_machine
    = Raise (LString
               (module_error_message
                  "/usr/share/aegisub/automation/include/utils.lua"
                  "unexpected symbol")) m'.
Proof.
  assert (global (m_lua sample_machine) "package" = LTable 2) as Hpkg
    by (vm_compute; reflexivity).
  destruct (LuaModuleLoader_results (H := sample_collaborators)
              (files := sample_files) "" [] (LString "utils") sample_machine 2
              Hpkg) as [_ Hfail].
  - vm_compute. congruence.
  - apply (Hfail ["./utils.lua"%string]
             "/usr/share/aegisub/automation/include/utils.lua"%string
             "unexpected symbol"%string []).
    + vm_compute. reflexivity.
    + repeat constructor. by eexists.
    + reflexivity.
Defined.

(** A module that no template of the path finds: the loader returns
    nothing. *)
Example LuaModuleLoader_nothing :
  call_C (LuaModuleLoader (H := sample_collaborators) (files := sample_files)
            "")
    [LString "karaoke.templates"] sample_machine
  = Ok [] sample_machine.
Proof. vm_compute. reflexivity. Qed.

(** ** What a failed load says *)

Section Messages.
Context `{Collaborators}.

(** X18.  The description of a script whose load failed names the file
    and tells the three failures apart: a file that does not parse gives
    "Error loading Lua script", the name and the message of the compiler;
    a main chunk that raises gives "Error initialising Lua script", the
    name and the error value, which reads as empty when it is neither a
    string nor a number; an Automation 3 script gives the fixed refusal,
    without the name. *)
Theorem Create_failure_messages s :
  let pretty := PrettyFilename (filename s) in
  (∀ msg,
     description (Create (ParseError msg) s) = load_error_message pretty msg)
  ∧ (∀ c e m',
       run_chunk c (load_machine (Destroy s) c) = Raise e m' →
       description (Create (Parsed c) s)
       = init_error_message pretty (string_arg (Some e)))
  ∧ ∀ c m',
      run_chunk c (load_machine (Destroy s) c) = Ok tt m' →
      declares_automation3 (m_lua m') →
      description (Create (Parsed c) s) = automation3_message.
Proof.
  intros pretty. subst pretty.
  destruct (Destroy_fields s) as (_ & Hf & _).
  split; [| split].
  - intros msg. rewrite (Create_failure _ s (load_error_message
                           (PrettyFilename (filename s)) msg)); [done |].
    unfold Create_try.
    pose proof (Create_environment_registry (script_addr (Destroy s)))
      as [Hst _].
    destruct (Create_environment (script_addr (Destroy s))) as [st h].
    cbn [stack] in Hst. subst st.
    unfold api, set_lua, lua_pushstring, push, set_stack.
    cbn [m_lua m_features m_assfiles m_log m_main stack heap].
    rewrite lua_tostring_top_state. cbn [fst wxString default from_option id].
    by rewrite Hf.
  - intros c e m' Hrun.
    rewrite (Create_failure _ s (init_error_message
               (PrettyFilename (filename s)) (string_arg (Some e)))); [done |].
    by rewrite Create_try_Parsed, Hrun, Hf.
  - intros c m' Hrun H3.
    rewrite (Create_failure _ s automation3_message); [done |].
    rewrite Create_try_Parsed, Hrun.
    apply declares_automation3_iff in H3. by rewrite H3.
Qed.

End Messages.

(** A script that raises a table as its error. *)
Example Create_failure_messages_example :
  description
    (Create (H := sample_collaborators) (Parsed (ChunkError (LTable 0)))
       (Script_new 7 "bad.lua"))
  = init_error_message "bad.lua" "".
Proof. vm_compute. reflexivity. Qed.

(** ** A processing function that returns *)

Section Returns.
Context `{Collaborators}.

(** X19.  A processing function of a macro that returns: [Process] reads
    the new selection from its first result, or keeps the selection when
    that is not a table.  The document wrapper that the function was
    given allows modification and undo, and is marked complete when the
    function has returned.  After the call the stack is as it was before,
    and the tables are as the function left them.  A table that is
    returned is a table of Lua, and the fuel of the reading loop exceeds
    its size. *)
Theorem Process_returns fuel this subs selected active m n vs h' :
  feature_function (m_lua m) (macro_myid this) 1 = LFunction (LuaFn n) →
  call_function (LuaFn n) (call_arguments m)
    (heap (m_lua (Process_prepare this subs selected active m).2))
  = Returned vs h' →
  let v := default LNil (head vs) in
  (∀ r, v = LTable r →
        table_wf (default [] (h' !! r)) = true
        ∧ (length (default [] (h' !! r)) < fuel)%nat) →
  ∃ m',
    Process fuel this subs selected active m
    = Finished (new_selection v (mk_lua_State [] h') selected, m')
    ∧ m_lua m' = mk_lua_State (stack (m_lua m)) h'
    ∧ m_assfiles m' = m_assfiles m ++ [mk_LuaAssFile subs true true true].
Proof.
  intros Hfn Hcall v Hwf.
  pose proof (Process_prepare_stack this subs selected active m) as Hs.
  rewrite Hfn in Hs.
  pose proof (lua_pcall_script_function _ n (call_arguments m) 1 _ Hs) as Hp.
  rewrite Hcall in Hp.
  change (Z.of_nat (length (call_arguments m))) with 3 in Hp.
  rewrite adjust_results_1 in Hp. fold v in Hp.
  unfold Process, LuaThreadedCall, lua_threaded_call.
  destruct (Process_prepare this subs selected active m) as [subsobj pm] eqn:Epm.
  cbn [snd] in Hp. rewrite Hp. cbn [Z.eqb].
  assert (subsobj = length (m_assfiles m)
          ∧ m_features pm = m_features m
          ∧ m_log pm = m_log m
          ∧ m_main pm = m_main m
          ∧ m_assfiles pm
            = m_assfiles m ++ [mk_LuaAssFile subs true true false])
    as (-> & Hfs & Hlg & Hmn & Hafs).
  { unfold Process_prepare, LuaAssFile_new in Epm.
    injection Epm as <- <-. done. }
  unfold ProcessingComplete, set_assfiles, set_lua.
  cbn [m_lua m_features m_assfiles m_log m_main].
  rewrite Hfs, Hlg, Hmn, Hafs.
  rewrite alter_app_r_alt, Nat.sub_diag by lia. cbn [alter list_alter].
  destruct v as [| | | |r| | |] eqn:Ev;
    try (rewrite Process_read_selection_other by done;
         rewrite lua_pop_1; by eexists).
  destruct (Hwf r eq_refl) as [Hw Hf].
  rewrite Process_read_selection_table by done.
  rewrite lua_pop_1. by eexists.
Qed.

End Returns.

(** The macro "Pick" of the sample script returns the table
    [{2, x = true, 1}]. *)
Lemma Process_returns_witness :
  ∃ m',
    Process (H := sample_collaborators) 4 macro_Pick 0 [7] 0 sample_machine
    = Finished ([0; 1], m')
    ∧ stack (m_lua m') = []
    ∧ m_assfiles m' = [mk_LuaAssFile 0 true true true].
Proof.
  assert (feature_function (m_lua sample_machine) (macro_myid macro_Pick) 1
          = LFunction (LuaFn 3)) as Hfn by (vm_compute; reflexivity).
  pose (pm := (Process_prepare macro_Pick 0 [7] 0 sample_machine).2).
  pose (h' := heap (m_lua pm)
              ++ [[(LNumber (cast_num 1), LNumber (cast_num 2));
                   (LString "x", LBoolean true);
                   (LNumber (cast_num 2), LNumber (cast_num 1))]]).
  assert (call_function (Collaborators := sample_collaborators) (LuaFn 3)
            (call_arguments sample_machine) (heap (m_lua pm))
          = Returned [LTable (length (heap (m_lua pm)))] h') as Hcall
    by reflexivity.
  pose proof (Process_returns (H := sample_collaborators) 4 macro_Pick 0 [7] 0
                sample_machine 3 _ h' Hfn Hcall) as Hp.
  cbv zeta in Hp.
  assert (∀ r,
            default LNil (head [LTable (length (heap (m_lua pm)))]) = LTable r →
            table_wf (default [] (h' !! r)) = true
            ∧ (length (default [] (h' !! r)) < 4)%nat) as Hwf.
  { intros r Hr. vm_compute in Hr. injection Hr as <-.
    vm_compute. split; [reflexivity | lia]. }
  destruct (Hp Hwf) as (m' & Hr & Hl & Haf).
  exists m'. split; [| split].
  - etransitivity; [exact Hr |]. vm_compute. reflexivity.
  - etransitivity; [exact (f_equal stack Hl) |]. reflexivity.
  - etransitivity; [exact Haf |]. reflexivity.
Defined.

(** ** What a script finds in its environment *)

Section Contents.
Context `{Collaborators}.

Lemma add_include_dirs_path dirs s h p :
  foldl add_include_dir (mk_lua_State (s ++ [LString p]) h) dirs
  = mk_lua_State
      (s ++ [LString
               (foldl (λ p d, p +:+ ";" +:+ d +:+ "?.lua;" +:+ d
                              +:+ "?/init.lua") p dirs)]) h.
Proof.
  revert p. induction dirs as [|d dirs IH]; intros p; [done |].
  cbn [foldl]. unfold add_include_dir at 2, lua_pushstring, push, set_stack.
  cbn [stack heap]. rewrite <- app_assoc. cbn [app].
  unfold lua_concat2. rewrite value_at_below, value_at_top_2.
  rewrite lua_pop_2. unfold push, set_stack. cbn [stack heap].
  apply IH.
Qed.

(** X20.  The environment that [Create] gives a script, before the script
    runs: [dofile] and [loadfile] are not defined, and [include] is the
    function of the host; [package.path] is the default path of Lua
    followed by the two templates of every include directory, in their
    order, and the second of [package.loaders] is the loader of the host,
    between the loaders of Lua; the table [aegisub] holds the two
    registration functions, the four services and the version number 4;
    the stack is empty. *)
Theorem Create_environment_contents this :
  let L0 := Create_environment this in
  let aegisub k := raw_index (heap L0) (global L0 "aegisub") (LString k) in
  let package k := raw_index (heap L0) (global L0 "package") (LString k) in
  let loader i :=
    raw_index (heap L0) (package "loaders") (LNumber (cast_num i)) in
  stack L0 = []
  ∧ global L0 "dofile" = LNil
  ∧ global L0 "loadfile" = LNil
  ∧ global L0 "include" = LFunction (CFn C_LuaInclude)
  ∧ package "path" = LString package_path
  ∧ loader 1 = LFunction (CFn (C_builtin "loader_preload"))
  ∧ loader 2 = LFunction (CFn C_LuaModuleLoader)
  ∧ loader 3 = LFunction (CFn (C_builtin "loader_C"))
  ∧ aegisub "register_macro" = register_macro
  ∧ aegisub "register_filter" = register_filter
  ∧ aegisub "text_extents" = LFunction (CFn C_LuaTextExtents)
  ∧ aegisub "frame_from_ms" = LFunction (CFn C_LuaFrameFromMs)
  ∧ aegisub "ms_from_frame" = LFunction (CFn C_LuaMsFromFrame)
  ∧ aegisub "video_size" = LFunction (CFn C_LuaVideoSize)
  ∧ aegisub "lua_automation_version" = LNumber (cast_num 4).
Proof.
  intros L0 aegisub package loader. subst L0 aegisub package loader.
  unfold Create_environment, package_path.
  match goal with
  | |- context [foldl add_include_dir ?L0 include_dirs] =>
      let L1 := eval vm_compute in L0 in
      change L0 with L1
  end.
  match goal with
  | |- context [foldl add_include_dir
                  (mk_lua_State [?a; ?b; LString ?p] ?h0) include_dirs] =>
      pose proof (add_include_dirs_path include_dirs [a; b] h0 p) as Hp
  end.
  cbn [app] in Hp. rewrite Hp. clear Hp.
  vm_compute. repeat split.
Qed.

End Contents.

(** The files of the module [utils] under a path with empty entries. *)
Example module_files_example :
  module_files (files := sample_files)
    ";./?.lua;;/usr/share/aegisub/automation/include/?.lua;/opt/?/init.lua"
    "utils"
  = ["./utils.lua"; "/usr/share/aegisub/automation/include/utils.lua"]%string.
Proof. vm_compute. reflexivity. Qed.

(** ** What the functions of a macro are called with *)

Section Arguments.
Context `{Collaborators}.

(** X21.  Before they call the script, [Validate] and [Process] have put
    four values on the stack: the function of the feature, a new document
    wrapper, a new table and the number -1.  The table is the array of the
    selection, each index one more than in the host; the wrapper allows
    neither modification nor undo in [Validate], and both in [Process].
    No table that existed has changed, and neither have the features and
    the log.  The selection has at most [INT_MAX] elements. *)
Theorem macro_call_arguments this subs selected active m :
  Z.of_nat (length selected) <= INT_MAX →
  let u := length (m_assfiles m) in
  let r := length (heap (m_lua m)) in
  let args := [LUserdata u; LTable r; LNumber (cast_num (-1))] in
  let h := heap (m_lua m) ++ [int_array_from 0 selected] in
  Validate_prepare this subs selected active m
  = mk_Machine
      (mk_lua_State
         (stack (m_lua m)
          ++ feature_function (m_lua m) (macro_myid this) 2 :: args) h)
      (m_features m) (m_assfiles m ++ [mk_LuaAssFile subs false false false])
      (m_log m) (m_main m)
  ∧ Process_prepare this subs selected active m
    = (u,
       mk_Machine
         (mk_lua_State
            (stack (m_lua m)
             ++ feature_function (m_lua m) (macro_myid this) 1 :: args) h)
         (m_features m) (m_assfiles m ++ [mk_LuaAssFile subs true true false])
         (m_log m) (m_main m)).
Proof.
  intros Hlen u r args h. subst u r args h.
  destruct m as [[st hp] fs af lg mn].
  unfold Validate_prepare, Process_prepare, LuaAssFile_new, api, set_lua,
    set_assfiles.
  cbn [m_lua m_features m_assfiles m_log m_main stack heap].
  rewrite !GetFeatureFunction_spec. unfold push, set_stack.
  cbn [stack heap]. rewrite !CreateIntegerArray_spec by done.
  unfold lua_pushinteger, push, set_stack. cbn [stack heap].
  by rewrite <- !app_assoc.
Qed.

End Arguments.

(** The macro "Pick" of the sample script, called on the selection 5, 3. *)
Lemma macro_call_arguments_witness :
  let pm := Validate_prepare macro_Pick 0 [5; 3] 0 sample_machine in
  stack (m_lua pm)
  = [LFunction (LuaFn 2); LUserdata 0; LTable 15; LNumber (cast_num (-1))]
  ∧ table_at (m_lua pm) 15
    = [(LNumber (cast_num 1), LNumber (cast_num 6));
       (LNumber (cast_num 2), LNumber (cast_num 4))].
Proof.
  intros pm.
  destruct (macro_call_arguments macro_Pick 0 [5; 3] 0 sample_machine)
    as [Hv _];
    [vm_compute; congruence |].
  assert (pm = Validate_prepare macro_Pick 0 [5; 3] 0 sample_machine) as Hpm
    by reflexivity.
  clearbody pm. rewrite Hv in Hpm. subst pm.
  cbn [m_lua stack]. split; vm_compute; reflexivity.
Defined.

(** ** Including a file *)

Section Include.
Context `{Collaborators} {files : FileSystem} {paths : Paths}.

(** [LuaInclude] on a first argument that is a string or a number, up to
    the point where the file is known. *)
Lemma LuaInclude_start w a rest h fs af lg mn :
  is_string a = true →
  let m := mk_Machine (mk_lua_State (a :: rest) h) fs af lg mn in
  let m1 := mk_Machine (mk_lua_State (tostring_slot a :: rest) h) fs af lg mn in
  let fnames := string_arg (Some a) in
  let fname := include_file (owner m) fnames in
  LuaInclude w m
  = (if negb (IsOk fname) || negb (wxFileName_FileExists fname)
     then luaL_error w ("Lua include not found: " +:+ fnames)
     else
       match lua_load (GetFullPath fname) with
       | LoadFailed msg =>
           lua (λ L0, lua_pushstring L0 msg);;
           err <- tostring (-1);
           luaL_error w
             (include_error_message (GetFullPath fname) (wxString err))
       | Loaded f =>
           lua (push (LFunction f));;
           pretop <- ask (λ L0, to_int (to_int (lua_gettop L0) - 1));
           lua_call_multret;;
           top <- ask (λ L0, to_int (lua_gettop L0));
           ret (to_int (top - pretop))
       end) m1.
Proof.
  intros Ha m m1 fnames fname. subst m m1 fnames fname. unfold owner.
  unfold LuaInclude. unfold bind at 1. cbn [m_lua].
  rewrite !GetScriptObject_spec. cbn [fst heap]. unfold set_lua.
  cbn [m_lua m_features m_assfiles m_log m_main].
  unfold bind at 1, ask at 1. cbn [m_lua].
  assert (lua_isstring (mk_lua_State (a :: rest) h) 1 = true) as ->
    by (by destruct a).
  cbn [negb]. unfold bind at 1, tostring at 1. cbn [m_lua].
  rewrite lua_tostring_1. cbn [lookup list_lookup alter list_alter].
  assert (wxString match a with
                   | LString s => Some s
                   | LNumber n => Some (lua_number2str n)
                   | _ => None
                   end = string_arg (Some a)) as -> by (by destruct a).
  unfold include_file, set_lua.
  cbn [m_lua m_features m_assfiles m_log m_main]. done.
Qed.

(** X22.  [include], called with a name that is a string or a number,
    for which the file is found and compiles: the chunk of the file is
    called without arguments, and [include] returns all the values that
    the chunk returns, however many, with the stack of the caller as it
    was and the tables as the chunk left them; an error that the chunk
    raises goes on to the caller of [include] as it is.  The file is the
    one that [include_file] names for the script that owns the state. *)
Theorem LuaInclude_results w a rest m n :
  is_string a = true →
  let fname := include_file (owner m) (string_arg (Some a)) in
  IsOk fname = true →
  wxFileName_FileExists fname = true →
  lua_load (GetFullPath fname) = Loaded (LuaFn n) →
  (∀ vs h',
     call_function (LuaFn n) [] (heap (m_lua m)) = Returned vs h' →
     Z.of_nat (length rest + 2 + length vs) <= INT_MAX →
     ∃ m',
       call_C (LuaInclude w) (a :: rest) m = Ok vs m'
       ∧ m_lua m' = mk_lua_State (stack (m_lua m)) h')
  ∧ ∀ e h',
      call_function (LuaFn n) [] (heap (m_lua m)) = Errored e h' →
      ∃ m', call_C (LuaInclude w) (a :: rest) m = Raise e m'.
Proof.
  intros Ha fname Hok Hex Hload.
  destruct m as [[st h] fs af lg mn].
  pose proof (LuaInclude_start w a rest h fs af lg mn Ha) as Hstart.
  cbv zeta in Hstart.
  assert (owner (mk_Machine (mk_lua_State (a :: rest) h) fs af lg mn)
          = owner (mk_Machine (mk_lua_State st h) fs af lg mn)) as Ho
    by (unfold owner; by rewrite !GetScriptObject_spec).
  rewrite Ho in Hstart. fold fname in Hstart.
  rewrite Hok, Hex, Hload in Hstart. cbn [negb orb] in Hstart.
  cbn [m_lua heap].
  assert (∀ k : M Z,
    (lua (push (LFunction (LuaFn n)));;
     pretop <- ask (λ L0, to_int (to_int (lua_gettop L0) - 1));
     lua_call_multret;;
     top <- ask (λ L0, to_int (lua_gettop L0));
     ret (to_int (top - pretop)))
      (mk_Machine (mk_lua_State (tostring_slot a :: rest) h) fs af lg mn)
    = match call_function (LuaFn n) [] h with
      | Returned vs h' =>
          Ok (to_int
                (to_int (Z.of_nat (length (tostring_slot a :: rest ++ vs)))
                 - to_int
                     (to_int (Z.of_nat (length (tostring_slot a :: rest) + 1))
                      - 1)))
            (mk_Machine (mk_lua_State ((tostring_slot a :: rest) ++ vs) h')
               fs af lg mn)
      | Errored e h' =>
          Raise e
            (mk_Machine (mk_lua_State (tostring_slot a :: rest) h')
               fs af lg mn)
      end) as Hcall.
  { intros _. unfold bind, lua, ask, ret, lua_call_multret, api, set_lua,
      push, set_stack, lua_gettop.
    cbn [m_lua m_features m_assfiles m_log m_main stack heap].
    rewrite last_snoc, length_app. cbn [length default from_option id].
    replace (S (length rest) + 1 - 1)%nat with (length (tostring_slot a :: rest))
      by (cbn [length]; lia).
    rewrite take_app_length. cbn [call_value].
    cbn [m_lua m_features m_assfiles m_log m_main stack heap].
    destruct (call_function (LuaFn n) [] h) as [vs h'|e h']; [| done].
    reflexivity. }
  specialize (Hcall (ret 0)).
  split.
  - intros vs h' Hret Hlen.
    unfold call_C, with_frame, bind at 1, api, set_lua, set_stack, set_heap.
    cbn [m_lua m_features m_assfiles m_log m_main stack heap].
    rewrite Hstart, Hcall, Hret. unfold ask.
    cbn [m_lua m_features m_assfiles m_log m_main stack heap].
    rewrite ?length_app. cbn [length] in *. rewrite ?length_app.
    rewrite (to_int_id (Z.of_nat (S (length rest + length vs)))) by int_lia.
    rewrite (to_int_id (Z.of_nat (S (length rest) + 1))) by int_lia.
    rewrite (to_int_id (Z.of_nat (S (length rest) + 1) - 1)) by int_lia.
    replace (Z.of_nat (S (length rest + length vs))
             - (Z.of_nat (S (length rest) + 1) - 1))
      with (Z.of_nat (length vs)) by lia.
    rewrite to_int_id by int_lia. rewrite Nat2Z.id.
    replace (S (length rest) + length vs - length vs)%nat
      with (length (tostring_slot a :: rest)) by (cbn [length]; lia).
    rewrite drop_app_length. by eexists.
  - intros e h' Herr.
    unfold call_C, with_frame, bind at 1, api, set_lua, set_stack.
    cbn [m_lua m_features m_assfiles m_log m_main stack heap].
    rewrite Hstart, Hcall, Herr. by eexists.
Qed.

(** X23.  [include] refuses, with an error of its own: a first argument
    that is missing or is neither a string nor a number; a name for which
    no file is found, in a message that repeats the name as the script
    wrote it; and a file that does not compile, in a message with the full
    path of the file and the message of the compiler. *)
Theorem LuaInclude_refuses w m :
  (∀ args,
     is_string (default LNil (head args)) = false →
     ∃ m',
       call_C (LuaInclude w) args m
       = Raise (LString (w +:+ "Argument to include must be a string")) m')
  ∧ (∀ a rest,
       is_string a = true →
       let fnames := string_arg (Some a) in
       let fname := include_file (owner m) fnames in
       IsOk fname = false ∨ wxFileName_FileExists fname = false →
       ∃ m',
         call_C (LuaInclude w) (a :: rest) m
         = Raise (LString (w +:+ "Lua include not found: " +:+ fnames)) m')
  ∧ ∀ a rest msg,
      is_string a = true →
      let fname := include_file (owner m) (string_arg (Some a)) in
      IsOk fname = true → wxFileName_FileExists fname = true →
      lua_load (GetFullPath fname) = LoadFailed msg →
      ∃ m',
        call_C (LuaInclude w) (a :: rest) m
        = Raise (LString (w +:+ include_error_message (GetFullPath fname) msg))
            m'.
Proof.
  destruct m as [[st h] fs af lg mn].
  assert (∀ a rest,
    owner (mk_Machine (mk_lua_State (a :: rest) h) fs af lg mn)
    = owner (mk_Machine (mk_lua_State st h) fs af lg mn)) as Ho
    by (intros; unfold owner; by rewrite !GetScriptObject_spec).
  split; [| split].
  - intros args Hns.
    unfold call_C, with_frame, bind at 1, api, set_lua, set_stack.
    cbn [m_lua m_features m_assfiles m_log m_main stack heap].
    unfold LuaInclude. unfold bind at 1. cbn [m_lua].
    rewrite GetScriptObject_spec. cbn [fst heap]. unfold set_lua.
    cbn [m_lua m_features m_assfiles m_log m_main].
    unfold bind at 1, ask at 1. cbn [m_lua].
    assert (lua_isstring (mk_lua_State args h) 1 = false) as ->
      by (by destruct args as [|[] args]).
    cbn [negb]. unfold luaL_error, bind, lua, lua_error, api, set_lua,
      lua_pushstring, push, set_stack.
    cbn [m_lua m_features m_assfiles m_log m_main stack heap].
    rewrite value_at_top. by eexists.
  - intros a rest Ha fnames fname Hno.
    pose proof (LuaInclude_start w a rest h fs af lg mn Ha) as Hstart.
    cbv zeta in Hstart. rewrite Ho in Hstart.
    fold fnames in Hstart. fold fname in Hstart.
    assert (negb (IsOk fname) || negb (wxFileName_FileExists fname) = true)
      as Hb.
    { destruct Hno as [-> | ->]; [done |]. by rewrite orb_true_r. }
    rewrite Hb in Hstart.
    unfold call_C, with_frame, bind at 1, api, set_lua, set_stack.
    cbn [m_lua m_features m_assfiles m_log m_main stack heap].
    rewrite Hstart.
    unfold luaL_error, bind, lua, lua_error, api, set_lua,
      lua_pushstring, push, set_stack.
    cbn [m_lua m_features m_assfiles m_log m_main stack heap].
    rewrite value_at_top. by eexists.
  - intros a rest msg Ha fname Hok Hex Hload.
    pose proof (LuaInclude_start w a rest h fs af lg mn Ha) as Hstart.
    cbv zeta in Hstart. rewrite Ho in Hstart. fold fname in Hstart.
    rewrite Hok, Hex, Hload in Hstart. cbn [negb orb] in Hstart.
    unfold call_C, with_frame, bind at 1, api, set_lua, set_stack.
    cbn [m_lua m_features m_assfiles m_log m_main stack heap].
    rewrite Hstart.
    unfold luaL_error, bind, lua, lua_error, tostring, api, set_lua,
      lua_pushstring, push, set_stack.
    cbn [m_lua m_features m_assfiles m_log m_main stack heap].
    rewrite lua_tostring_top_state.
    cbn [m_lua m_features m_assfiles m_log m_main stack heap wxString
         default from_option id].
    rewrite value_at_top. by eexists.
Qed.

End Include.

(** The sample script includes the file k.lua from the directory lib next
    to it; the chunk of the file returns one value. *)
Lemma LuaInclude_results_witness :
  ∃ m',
    call_C (LuaInclude (H := sample_collaborators) (files := sample_files)
              (paths := sample_paths) "")
      [LString "lib/k.lua"] sample_machine
    = Ok [LString "done"] m'
    ∧ m_lua m' = mk_lua_State [] (heap (m_lua sample_machine)).
Proof.
  pose (fname := include_file (paths := sample_paths) (owner sample_machine)
                   (string_arg (H := sample_collaborators)
                      (Some (LString "lib/k.lua")))).
  assert (IsOk fname = true) as Hok by (vm_compute; reflexivity).
  assert (wxFileName_FileExists fname = true) as Hex
    by (vm_compute; reflexivity).
  assert (lua_load (FileSystem := sample_files) (GetFullPath fname)
          = Loaded (LuaFn 4)) as Hload by (vm_compute; reflexivity).
  destruct (LuaInclude_results (H := sample_collaborators)
              (files := sample_files) (paths := sample_paths) ""
              (LString "lib/k.lua") [] sample_machine 4 eq_refl Hok Hex Hload)
    as [Hret _].
  apply (Hret [LString "done"] (heap (m_lua sample_machine))).
  - vm_compute. reflexivity.
  - vm_compute. congruence.
Defined.

(** A name that the include path does not find, and a call without a
    name. *)
Example LuaInclude_refuses_example :
  (∃ m',
     call_C (LuaInclude (H := sample_collaborators) (files := sample_files)
               (paths := sample_paths) "sample.lua:3: ")
       [LString "karaskel.lua"] sample_machine
     = Raise (LString "sample.lua:3: Lua include not found: karaskel.lua") m')
  ∧ ∃ m',
      call_C (LuaInclude (H := sample_collaborators) (files := sample_files)
                (paths := sample_paths) "sample.lua:3: ")
        [] sample_machine
      = Raise (LString "sample.lua:3: Argument to include must be a string")
          m'.
Proof. split; eexists; vm_compute; reflexivity. Qed.
